(** * The xarray-and-dask tutorial notebook: correlation gufuncs

    Source: [tutorial/1.6.xarray-and-dask.ipynb].

    The notebook defines four functions of its own,
    [covariance_gufunc], [pearson_correlation_gufunc],
    [spearman_correlation_gufunc] and [spearman_correlation], on top of
    NumPy array arithmetic, [bottleneck.rankdata] and
    [xarray.apply_ufunc].  They are embedded twice.  First over exact
    real arithmetic: a float is idealised as a real number, and the one
    value a float has besides the numbers, nan, is kept as [None]; in
    this embedding no operation rounds, overflows or underflows, and
    what is proved in it is a statement over exact arithmetic.  Then,
    in [B64], over binary64 itself, where the rounding, the infinities
    and the underflow of the code are those of the machine. *)

From Stdlib Require Import Reals Lra Lia List Bool Arith ZArith.
From Stdlib Require String Floats.
Import ListNotations String.StringSyntax.

Set Warnings "-register-all".

Local Open Scope R_scope.

(** ** Floats *)

(** A float64 value, idealised: [Some r] is the number [r], [None] is
    nan.  The numbers are the reals, so that the idealisation leaves out
    three things binary64 does: rounding (a result is exact here),
    overflow (a sum or a product of large numbers is an infinity in
    binary64, a large number here) and underflow (a product of small
    numbers is zero in binary64, a small number here).  Infinities are
    not represented: the result of a division by zero, nan for [0/0]
    and an infinity otherwise, is folded into [None]. *)
Definition num : Type := option R.

Module Float.

Definition lift1 (f : R -> R) (a : num) : num :=
  match a with Some u => Some (f u) | None => None end.

Definition lift2 (f : R -> R -> R) (a b : num) : num :=
  match a, b with
  | Some u, Some v => Some (f u v)
  | _, _ => None
  end.

Definition add : num -> num -> num := lift2 Rplus.
Definition sub : num -> num -> num := lift2 Rminus.
Definition mul : num -> num -> num := lift2 Rmult.
Definition abs : num -> num := lift1 Rabs.

(** [a ** 2] *)
Definition square : num -> num := lift1 (fun u => u * u).

(** [a / b]: no exception is raised on a zero divisor (NumPy warns, and
    the notebook silences warnings); the result is not a number.
    Binary64 tells [0/0], nan, from [a/0], an infinity with the sign of
    [a]; both are [None] here, and [B64] keeps them apart. *)
Definition div (a b : num) : num :=
  match a, b with
  | Some u, Some v => if Req_dec_T v 0 then None else Some (u / v)
  | _, _ => None
  end.

(** [np.sqrt]: nan on a negative argument. *)
Definition sqrt (a : num) : num :=
  match a with
  | Some u => if Rlt_dec u 0 then None else Some (R_sqrt.sqrt u)
  | None => None
  end.

(** [a < b]: every comparison with nan is false. *)
Definition ltb (a b : num) : bool :=
  match a, b with
  | Some u, Some v => if Rlt_dec u v then true else false
  | _, _ => false
  end.

Definition of_nat (n : nat) : num := Some (INR n).

End Float.

(** ** Exceptions *)

Inductive exn : Type :=
| ValueError.   (* operands could not be broadcast together *)

Inductive result (A : Type) : Type :=
| Ok (a : A)
| Raise (e : exn).
Arguments Ok {A} a.
Arguments Raise {A} e.

Definition bind {A B : Type} (c : result A) (f : A -> result B) : result B :=
  match c with
  | Ok a => f a
  | Raise e => Raise e
  end.

Notation "x <- c ;; k" := (bind c (fun x => k))
  (at level 61, c at next level, right associativity).

(** [sequence]: the first exception wins, left to right. *)
Fixpoint sequence {A : Type} (l : list (result A)) : result (list A) :=
  match l with
  | [] => Ok []
  | c :: l' => a <- c ;; r <- sequence l' ;; Ok (a :: r)
  end.

(** ** N-dimensional arrays *)

(** An array of rank [k] with elements in [A]: an element at rank 0, a
    sequence of arrays of rank [k] at rank [k + 1] (the first axis is
    the outermost list, the last axis the innermost one).  The arrays of
    the notebook are [ndarray num k]; [ndarray R k] is an array known to
    hold numbers only. *)
Fixpoint ndarray (A : Type) (k : nat) : Type :=
  match k with
  | O => A
  | S k' => list (ndarray A k')
  end.

(** NumPy arrays are rectangular: [has_shape sh k x] says that [x] has
    shape [sh], one length for each of its [k] axes. *)
Fixpoint has_shape {A : Type} (sh : list nat) : forall k, ndarray A k -> Prop :=
  match sh with
  | [] => fun k =>
      match k with
      | O => fun _ => True
      | S _ => fun _ => False
      end
  | n :: sh' => fun k =>
      match k return ndarray A k -> Prop with
      | O => fun _ => False
      | S k' => fun x =>
          length x = n /\ length sh' = k' /\ Forall (has_shape sh' k') x
      end
  end.

(** Elementwise map. *)
Fixpoint nd_map {A B : Type} (f : A -> B) (k : nat) : ndarray A k -> ndarray B k :=
  match k return ndarray A k -> ndarray B k with
  | O => fun a => f a
  | S k' => fun x => map (nd_map f k') x
  end.

(** An array of numbers seen as an array of floats. *)
Definition as_float {k : nat} : ndarray R k -> ndarray num k := nd_map Some k.

Module Np.

(** *** Reductions of one row *)

(** [np.sum] of a 1-d array: the empty sum is 0. *)
Definition sum (row : list num) : num := fold_left Float.add row (Some 0).

(** [np.mean] of a 1-d array: the sum over the count; nan on an empty
    row (0/0). *)
Definition mean (row : list num) : num :=
  Float.div (sum row) (Float.of_nat (length row)).

(** [np.std] of a 1-d array, [ddof=0]:
    [sqrt(mean(abs(a - a.mean())**2))]. *)
Definition std (row : list num) : num :=
  let m := mean row in
  Float.sqrt (mean (map (fun a => Float.square (Float.abs (Float.sub a m))) row)).

(** *** Whole-array operations *)

(** [a.f(axis=-1)]: reduce the last axis. *)
Fixpoint reduce_last {A B : Type} (f : list A -> B) (k : nat)
  : ndarray A (S k) -> ndarray B k :=
  match k return ndarray A (S k) -> ndarray B k with
  | O => fun row => f row
  | S k' => fun x => map (reduce_last f k') x
  end.

(** [a.f(axis=-1, keepdims=True)]: the last axis is kept, with length 1. *)
Fixpoint reduce_last_keepdims {A B : Type} (f : list A -> B) (k : nat)
  : ndarray A (S k) -> ndarray B (S k) :=
  match k return ndarray A (S k) -> ndarray B (S k) with
  | O => fun row => [f row]
  | S k' => fun x => map (reduce_last_keepdims f k') x
  end.

(** A function of one row applied along the last axis. *)
Fixpoint along_last {A B : Type} (f : list A -> list B) (k : nat)
  : ndarray A (S k) -> ndarray B (S k) :=
  match k return ndarray A (S k) -> ndarray B (S k) with
  | O => fun row => f row
  | S k' => fun x => map (along_last f k') x
  end.

(** Elementwise binary operation with broadcasting, for operands of the
    same rank: along each axis the lengths agree, or one of them is 1
    and that operand is repeated; otherwise [ValueError].  An array is
    a nested list here, and an empty list has no record of the lengths
    of the axes under it: on operands with an axis of length 0 the
    inner lengths go unchecked, where NumPy checks the whole shape.
    The embedding is of arrays none of whose axes is empty. *)
Fixpoint broadcast {A B C : Type} (op : A -> B -> C) (k : nat)
  : ndarray A k -> ndarray B k -> result (ndarray C k) :=
  match k return ndarray A k -> ndarray B k -> result (ndarray C k) with
  | O => fun a b => Ok (op a b)
  | S k' => fun x y =>
      if Nat.eqb (length x) (length y) then
        sequence (map (fun p => broadcast op k' (fst p) (snd p)) (combine x y))
      else
        match x, y with
        | _, [y0] => sequence (map (fun xi => broadcast op k' xi y0) x)
        | [x0], _ => sequence (map (fun yi => broadcast op k' x0 yi) y)
        | _, _ => Raise ValueError
        end
  end.

(** [a.mean(axis=-1)], [a.mean(axis=-1, keepdims=True)], [a.std(axis=-1)] *)
Definition mean_last {k} : ndarray num (S k) -> ndarray num k := reduce_last mean k.
Definition mean_last_keepdims {k} : ndarray num (S k) -> ndarray num (S k) :=
  reduce_last_keepdims mean k.
Definition std_last {k} : ndarray num (S k) -> ndarray num k := reduce_last std k.

(** [a - b], [a * b], [a / b], [a < b] *)
Definition subtract {k} : ndarray num k -> ndarray num k -> result (ndarray num k) :=
  broadcast Float.sub k.
Definition multiply {k} : ndarray num k -> ndarray num k -> result (ndarray num k) :=
  broadcast Float.mul k.
Definition divide {k} : ndarray num k -> ndarray num k -> result (ndarray num k) :=
  broadcast Float.div k.
Definition less {k} : ndarray num k -> ndarray num k -> result (ndarray bool k) :=
  broadcast Float.ltb k.

End Np.

(** ** bottleneck *)

Module Bottleneck.

Definition Reqb (u v : R) : bool := if Req_dec_T u v then true else false.
Definition Rltb (u v : R) : bool := if Rlt_dec u v then true else false.

(** The number of elements of [row] below [v], and equal to [v]. *)
Definition count_lt (row : list R) (v : R) : nat :=
  length (filter (fun w => Rltb w v) row).
Definition count_eq (row : list R) (v : R) : nat :=
  length (filter (fun w => Reqb w v) row).

(** The ranks, counted from 1, that the elements equal to [v] take in
    the sorted row: those after the [count_lt row v] smaller ones. *)
Definition tie_ranks (row : list R) (v : R) : list R :=
  map INR (seq (S (count_lt row v)) (count_eq row v)).

(** "Equal values are assigned a rank that is the average of the ranks
    that would have been otherwise assigned to all of the values within
    that set.  Ranks begin at 1, not 0." *)
Definition rank_of (row : list R) (v : R) : R :=
  fold_right Rplus 0 (tie_ranks row v) / INR (length (tie_ranks row v)).

Definition rank_row (row : list R) : list R := map (rank_of row) row.

(** [bottleneck.rankdata(a, axis=-1)].  The function is documented for
    data without nan ([nanrankdata] is the one for data with nan), and
    is modelled on such data: the ranks of numbers are numbers. *)
Definition rankdata {k} : ndarray R (S k) -> ndarray R (S k) :=
  Np.along_last rank_row k.

End Bottleneck.

(** ** The functions of the notebook *)

(** [def covariance_gufunc(x, y):
       return ((x - x.mean(axis=-1, keepdims=True))
               * (y - y.mean(axis=-1, keepdims=True))).mean(axis=-1)] *)
Definition covariance_gufunc {k} (x y : ndarray num (S k)) : result (ndarray num k) :=
  dx <- Np.subtract x (Np.mean_last_keepdims x) ;;
  dy <- Np.subtract y (Np.mean_last_keepdims y) ;;
  p <- Np.multiply dx dy ;;
  Ok (Np.mean_last p).

(** The divisor of [pearson_correlation_gufunc]:
    [x.std(axis=-1) * y.std(axis=-1)]. *)
Definition pearson_divisor {k} (x y : ndarray num (S k)) : result (ndarray num k) :=
  Np.multiply (Np.std_last x) (Np.std_last y).

(** [def pearson_correlation_gufunc(x, y):
       return covariance_gufunc(x, y) / (x.std(axis=-1) * y.std(axis=-1))] *)
Definition pearson_correlation_gufunc {k} (x y : ndarray num (S k))
  : result (ndarray num k) :=
  c <- covariance_gufunc x y ;;
  s <- pearson_divisor x y ;;
  Np.divide c s.

(** [def spearman_correlation_gufunc(x, y):
       x_ranks = bottleneck.rankdata(x, axis=-1)
       y_ranks = bottleneck.rankdata(y, axis=-1)
       return pearson_correlation_gufunc(x_ranks, y_ranks)] *)
Definition spearman_correlation_gufunc {k} (x y : ndarray R (S k))
  : result (ndarray num k) :=
  let x_ranks := Bottleneck.rankdata x in
  let y_ranks := Bottleneck.rankdata y in
  pearson_correlation_gufunc (as_float x_ranks) (as_float y_ranks).


(** ** xarray: masking *)

Module Xr.

(** [a < c] for a scalar [c]. *)
Definition lt_scalar {k} (a : ndarray num k) (c : R) : ndarray bool k :=
  nd_map (fun v => Float.ltb v (Some c)) k a.

(** [a.where(cond)]: the value where [cond] holds, nan elsewhere. *)
Definition where_ {k} (a : ndarray num k) (cond : ndarray bool k)
  : result (ndarray num k) :=
  Np.broadcast (fun (v : num) (c : bool) => if c then v else None) k a cond.

End Xr.

(** [corr = corr.where(corr < 1)] *)
Definition mask_below_one {k} (corr : ndarray num k) : result (ndarray num k) :=
  Xr.where_ corr (Xr.lt_scalar corr 1).

(** A number between -1 and 1. *)
Definition in_unit_interval (v : num) : Prop :=
  exists r, v = Some r /\ -1 <= r <= 1.

(** What the mask does to one value: a value of 1 becomes nan, any
    other value stays. *)
Definition masked_at_one (v w : num) : Prop :=
  (v = Some 1 /\ w = None) \/ (v <> Some 1 /\ w = v).

(** ** Statistics of a finite sequence of reals

    The textbook quantities the notebook's functions are compared with:
    they are written over the reals, one row at a time, with none of
    the array machinery. *)

Module Stat.

Definition total (xs : list R) : R := fold_right Rplus 0 xs.

Definition average (xs : list R) : R := total xs / INR (length xs).

(** The deviations of the elements from the average. *)
Definition deviations (xs : list R) : list R :=
  map (fun v => v - average xs) xs.

(** The sum of the products of corresponding elements. *)
Definition dot (xs ys : list R) : R :=
  total (map (fun p => fst p * snd p) (combine xs ys)).

(** Population covariance: the mean of the products of the deviations. *)
Definition covariance (xs ys : list R) : R :=
  dot (deviations xs) (deviations ys) / INR (length xs).

(** Population variance and standard deviation. *)
Definition variance (xs : list R) : R :=
  dot (deviations xs) (deviations xs) / INR (length xs).

Definition stdev (xs : list R) : R := sqrt (variance xs).

(** Pearson's correlation coefficient, covariance over the product of
    the standard deviations. *)
Definition pearson (xs ys : list R) : R :=
  covariance xs ys / (stdev xs * stdev ys).

(** Pearson's coefficient in its sums-of-products form,
    [sum (dx * dy) / (sqrt (sum dx^2) * sqrt (sum dy^2))]; it is
    undefined when the denominator vanishes. *)
Definition pearson_sums (xs ys : list R) : option R :=
  let dx := deviations xs in
  let dy := deviations ys in
  let d := sqrt (dot dx dx) * sqrt (dot dy dy) in
  if Req_dec_T d 0 then None else Some (dot dx dy / d).

(** The fractional rank of [v] in [xs]: the number of elements below
    [v], plus the middle position in the group of those equal to it. *)
Definition fractional_rank (xs : list R) (v : R) : R :=
  INR (Bottleneck.count_lt xs v) + (INR (Bottleneck.count_eq xs v) + 1) / 2.

Definition ranks (xs : list R) : list R := map (fractional_rank xs) xs.

(** Spearman's rank correlation coefficient: Pearson's coefficient of
    the fractional ranks. *)
Definition spearman (xs ys : list R) : option R :=
  pearson_sums (ranks xs) (ranks ys).

(** A sequence is constant when all its elements are equal. *)
Definition constant (xs : list R) : Prop :=
  forall u v, In u xs -> In v xs -> u = v.

End Stat.

(** ** Arrays seen row by row *)

(** [f] applied to corresponding rows of [x] and [y]. *)
Fixpoint zip_last {A B C : Type} (f : list A -> list B -> C) (k : nat)
  : ndarray A (S k) -> ndarray B (S k) -> ndarray C k :=
  match k return ndarray A (S k) -> ndarray B (S k) -> ndarray C k with
  | O => fun r1 r2 => f r1 r2
  | S k' => fun x y => map (fun p => zip_last f k' (fst p) (snd p)) (combine x y)
  end.

Fixpoint zip_along {A B C : Type} (f : list A -> list B -> list C) (k : nat)
  : ndarray A (S k) -> ndarray B (S k) -> ndarray C (S k) :=
  match k return ndarray A (S k) -> ndarray B (S k) -> ndarray C (S k) with
  | O => fun r1 r2 => f r1 r2
  | S k' => fun x y => map (fun p => zip_along f k' (fst p) (snd p)) (combine x y)
  end.

(** Elementwise combination of two arrays of one shape. *)
Fixpoint nd_map2 {A B C : Type} (op : A -> B -> C) (k : nat)
  : ndarray A k -> ndarray B k -> ndarray C k :=
  match k return ndarray A k -> ndarray B k -> ndarray C k with
  | O => fun a b => op a b
  | S k' => fun x y => map (fun p => nd_map2 op k' (fst p) (snd p)) (combine x y)
  end.

Definition map2 {A B C : Type} (op : A -> B -> C) (l1 : list A) (l2 : list B) : list C :=
  map (fun p => op (fst p) (snd p)) (combine l1 l2).

(** The two arrays have the same lengths along every axis. *)
Fixpoint same_shape {A B : Type} (k : nat) : ndarray A k -> ndarray B k -> Prop :=
  match k return ndarray A k -> ndarray B k -> Prop with
  | O => fun _ _ => True
  | S k' => fun x y => Forall2 (same_shape k') x y
  end.

(** [P] holds of every element. *)
Fixpoint nd_all {A : Type} (P : A -> Prop) (k : nat) : ndarray A k -> Prop :=
  match k return ndarray A k -> Prop with
  | O => fun a => P a
  | S k' => fun x => Forall (nd_all P k') x
  end.

(** [P] holds of every pair of corresponding elements. *)
Fixpoint nd_all2 {A B : Type} (P : A -> B -> Prop) (k : nat)
  : ndarray A k -> ndarray B k -> Prop :=
  match k return ndarray A k -> ndarray B k -> Prop with
  | O => fun a b => P a b
  | S k' => fun x y => Forall2 (nd_all2 P k') x y
  end.

(** [P] holds of every row (along the last axis). *)
Fixpoint rows_all {A : Type} (P : list A -> Prop) (k : nat) : ndarray A (S k) -> Prop :=
  match k return ndarray A (S k) -> Prop with
  | O => fun r => P r
  | S k' => fun x => Forall (rows_all P k') x
  end.

(** [P] holds of every pair of corresponding rows. *)
Fixpoint rows_all2 {A B : Type} (P : list A -> list B -> Prop) (k : nat)
  : ndarray A (S k) -> ndarray B (S k) -> Prop :=
  match k return ndarray A (S k) -> ndarray B (S k) -> Prop with
  | O => fun r1 r2 => P r1 r2
  | S k' => fun x y => Forall2 (rows_all2 P k') x y
  end.

(** ** The gufuncs on one row

    What [covariance_gufunc] and [pearson_correlation_gufunc] compute
    for one pair of rows, in float arithmetic. *)

Module Row.

Definition deviations (r : list num) : list num :=
  map (fun a => Float.sub a (Np.mean r)) r.

Definition covariance (r1 r2 : list num) : num :=
  Np.mean (map2 Float.mul (deviations r1) (deviations r2)).

Definition divisor (r1 r2 : list num) : num :=
  Float.mul (Np.std r1) (Np.std r2).

Definition pearson (r1 r2 : list num) : num :=
  Float.div (covariance r1 r2) (divisor r1 r2).

End Row.

(** ** Sample data *)

(** Two arrays of shape (2, 3), rows along the last axis. *)
Definition sample_x : ndarray R 2 := [[1; 2; 3]; [2; 2; 5]].
Definition sample_y : ndarray R 2 := [[3; 1; 2]; [1; 4; 4]].

(** An array of shape (1, 2) whose only row is constant. *)
Definition sample_flat : ndarray R 2 := [[1; 1]].

(** * The notebook as a program

    The code cells of the notebook, as syntax, and what running them
    does as far as the libraries can tell: which entry points are
    entered, in which order, and where an exception goes.  The values
    that flow between the calls are left out; the notebook has no
    branch or loop that could look at them. *)

Module Py.

Import String.
Local Open Scope string_scope.

(** ** Syntax *)

Inductive operator : Type := Sub | Mult | Div | Lt.

Inductive expr : Type :=
| Name (id : string)
| Str (s : string)
| Num (n : Z)
| TrueConst
| Dict (items : list (expr * expr))
| ListOf (elts : list expr)
| Attribute (value : expr) (attr : string)
| Subscript (value : expr) (key : expr)
| Call (func : expr) (args : list expr) (keywords : list (string * expr))
| BinOp (left : expr) (op : operator) (right : expr).

Inductive stmt : Type :=
| Magic (line : string)
| Import (module : string) (binds : string)
| ImportFrom (module : string) (names : list string)
| Assign (target : string) (value : expr)
| AssignItem (target : expr) (key : expr) (value : expr)
| Expr (value : expr)
| FunctionDef (name : string) (params : list string) (body : list stmt)
| Return (value : expr)
| Try (body : list stmt) (handler : list stmt).

(** ** What a run does *)

(** An exception: the interpreter's own [NameError], or whatever a
    library raises. *)
Inductive exception : Type :=
| NameError (id : string)
| LibraryError (code : nat).

(** What the program asks of code that is not its own, and the calls of
    its own functions. *)
Inductive event : Type :=
| MagicLine (line : string)        (* an IPython magic *)
| ImportModule (module : string)   (* [import m] *)
| CallEntry (name : string)        (* [m.name(...)], [obj.name(...)], [name(...)] *)
| GetAttr (attr : string)          (* [obj.attr] *)
| GetItem                          (* [obj[key]] *)
| SetItem                          (* [obj[key] = value] *)
| Operator (op : operator)         (* [a - b], [a < b], ... *)
| CallLocal (name : string).       (* a function the program defines *)

Definition is_library (ev : event) : bool :=
  match ev with
  | CallLocal _ => false
  | _ => true
  end.

Inductive outcome : Type :=
| Returns
| Raises (e : exception).

(** The objects the interpreter makes by itself. *)
Inductive literal : Type :=
| LStr (s : string)
| LNum (n : Z)
| LTrue
| LNone
| LBuiltin (name : string)
| LFunction (name : string).

(** One line of the log: the event, its outcome, and how many global
    names were bound and how many objects there were when it happened
    (names and objects are only ever added). *)
Record entry : Type := {
  what : event;
  result_of : outcome;
  names : nat;
  objects : nat
}.

Definition returned (en : entry) : Prop := result_of en = Returns.

Section Run.

(** The objects are whatever the libraries make of them. *)
Variable object : Type.

(** A library: whether its code raises the [n]-th time the program
    enters it, at the entry [ev]; the object an entry returns, from the
    objects it is given (the receiver first); what an item assignment
    makes of its target; and what the [n]-th entry, [ev] with the
    handles [hs], makes of the object [o] that was already there behind
    the handle [h] ([touch n ev hs h o]: an entry may change any object
    where it is, as [np.warnings.filterwarnings] and [dask.config.set]
    change the settings of their libraries).

    Two things a library cannot do here: the object an entry returns
    gets a handle of its own, also when the library hands back an
    object that it had already; and an entry does not run a function of
    the notebook ([apply_ufunc] keeps the function it is given for
    later; what the function does once called is [Flow.probe]). *)
Record library : Type := {
  raises : nat -> event -> outcome;
  atom : literal -> object;
  collect : list object -> object;
  result : event -> list object -> object;
  store : object -> object -> object -> object;
  touch : nat -> event -> list nat -> nat -> object -> object
}.

Variable lib : library.

(** Names are bound to handles, the positions of the objects in the
    heap: two names bound to one handle see one object. *)
Record state : Type := {
  globals : list (string * nat);           (* names bound at module level *)
  locals : option (list (string * nat));   (* names of the running function *)
  heap : list object;
  log : list entry
}.

Inductive answer (A : Type) : Type :=
| Value (a : A)
| Raised (e : exception).
Arguments Value {A} a.
Arguments Raised {A} e.

Definition M (A : Type) : Type := state -> answer A * state.

Definition ret {A : Type} (a : A) : M A := fun st => (Value a, st).

(** [c] then [k]: [k] runs only if [c] raises nothing. *)
Definition bind {A B : Type} (c : M A) (k : A -> M B) : M B := fun st =>
  match c st with
  | (Value a, st') => k a st'
  | (Raised e, st') => (Raised e, st')
  end.

Notation "'do' x <- c ; k" := (bind c (fun x => k))
  (at level 10, x name, c at level 100, k at level 200).

Fixpoint sequence {A : Type} (cs : list (M A)) : M (list A) :=
  match cs with
  | [] => ret []
  | c :: cs' => do a <- c; do r <- sequence cs'; ret (a :: r)
  end.

Definition builtins : list string := ["float"].

Fixpoint assoc (x : string) (l : list (string * nat)) : option nat :=
  match l with
  | [] => None
  | (y, h) :: l' => if String.eqb x y then Some h else assoc x l'
  end.

(** The objects behind handles. *)
Definition fetch (st : state) (hs : list nat) : list object :=
  flat_map (fun h => match nth_error (heap st) h with
                     | Some o => [o]
                     | None => []
                     end) hs.

(** A new object: it goes to the end of the heap. *)
Definition alloc (o : object) : M nat := fun st =>
  (Value (List.length (heap st)),
   {| globals := globals st; locals := locals st;
      heap := (heap st ++ [o])%list; log := log st |}).

(** Reading a name: the running function's names first, then the
    global ones, then the builtins. *)
Definition lookup (x : string) : M nat := fun st =>
  match match locals st with
        | Some l => assoc x l
        | None => None
        end with
  | Some h => (Value h, st)
  | None =>
      match assoc x (globals st) with
      | Some h => (Value h, st)
      | None =>
          if existsb (String.eqb x) builtins then alloc (atom lib (LBuiltin x)) st
          else (Raised (NameError x), st)
      end
  end.

(** Binding a name, in the running function if there is one. *)
Definition bind_name (x : string) (h : nat) : M unit := fun st =>
  match locals st with
  | Some l =>
      (Value tt, {| globals := globals st; locals := Some ((x, h) :: l);
                    heap := heap st; log := log st |})
  | None =>
      (Value tt, {| globals := (x, h) :: globals st; locals := None;
                    heap := heap st; log := log st |})
  end.

Definition record (ev : event) (o : outcome) (st : state) : list entry :=
  (log st ++ [{| what := ev; result_of := o; names := List.length (globals st);
                 objects := List.length (heap st) |}])%list.

(** The objects of a heap after an entry, each with its handle. *)
Fixpoint touched (f : nat -> object -> object) (h : nat) (l : list object)
  : list object :=
  match l with
  | [] => []
  | o :: l' => f h o :: touched f (S h) l'
  end.

(** Entering library code with the objects behind [hs]: it raises, or
    it does what it does to the objects there are and returns a new
    one. *)
Definition enter (ev : event) (hs : list nat) : M nat := fun st =>
  let n := List.length (log st) in
  let o := raises lib n ev in
  match o with
  | Returns =>
      alloc (result lib ev (fetch st hs))
            {| globals := globals st; locals := locals st;
               heap := touched (touch lib n ev hs) 0 (heap st);
               log := record ev o st |}
  | Raises e =>
      (Raised e, {| globals := globals st; locals := locals st;
                    heap := heap st; log := record ev o st |})
  end.

Fixpoint replace (h : nat) (o : object) (l : list object) : list object :=
  match l, h with
  | [], _ => []
  | _ :: l', O => o :: l'
  | a :: l', S h' => a :: replace h' o l'
  end.

(** [target[key] = value]: the library raises, or the object behind
    the target is changed where it is (and the entry does what it does
    to the other objects). *)
Definition set_item (target key value : nat) : M unit := fun st =>
  let n := List.length (log st) in
  let o := raises lib n SetItem in
  match o with
  | Returns =>
      let st' := {| globals := globals st; locals := locals st;
                    heap := touched (touch lib n SetItem [target; key; value]) 0
                                    (heap st);
                    log := record SetItem o st |} in
      match fetch st [target], fetch st [key], fetch st [value] with
      | [t], [k], [v] =>
          (Value tt, {| globals := globals st'; locals := locals st';
                        heap := replace target (store lib t k v) (heap st');
                        log := log st' |})
      | _, _, _ => (Value tt, st')
      end
  | Raises e =>
      (Raised e, {| globals := globals st; locals := locals st;
                    heap := heap st; log := record SetItem o st |})
  end.

(** How a block of statements goes on. *)
Inductive flow : Type :=
| Continue
| Return_ (h : nat).

(** The functions defined so far, each with what a call of it does
    with its arguments. *)
Definition table : Type := list (string * (list nat -> M nat)).

Fixpoint find (f : string) (T : table) : option (list nat -> M nat) :=
  match T with
  | [] => None
  | (g, c) :: T' => if String.eqb f g then Some c else find f T'
  end.

(** Calling a function of the program: its body runs with the
    parameters bound to the arguments as its local names; the caller's
    local names are back when it ends, however it ends. *)
Definition call_local (f : string) (params : list string) (body : M flow)
  : list nat -> M nat :=
  fun args st =>
    let saved := locals st in
    let st0 := {| globals := globals st; locals := Some (combine params args);
                  heap := heap st; log := record (CallLocal f) Returns st |} in
    let restore st' := {| globals := globals st'; locals := saved;
                          heap := heap st'; log := log st' |} in
    match body st0 with
    | (Raised e, st') => (Raised e, restore st')
    | (Value (Return_ h), st') => (Value h, restore st')
    | (Value Continue, st') => alloc (atom lib LNone) (restore st')
    end.

(** Expressions, evaluated in Python's order: the callee, the
    arguments from left to right, then the call. *)
Fixpoint eval (T : table) (e : expr) : M nat :=
  match e with
  | Name x => lookup x
  | Str s => alloc (atom lib (LStr s))
  | Num n => alloc (atom lib (LNum n))
  | TrueConst => alloc (atom lib LTrue)
  | Dict items =>
      do ks <- sequence (map (fun kv => eval T (fst kv)) items);
      do vs <- sequence (map (fun kv => eval T (snd kv)) items);
      fun st => alloc (collect lib (fetch st (ks ++ vs))) st
  | ListOf elts =>
      do hs <- sequence (map (eval T) elts);
      fun st => alloc (collect lib (fetch st hs)) st
  | Attribute v a =>
      do h <- eval T v;
      enter (GetAttr a) [h]
  | Subscript v k =>
      do hv <- eval T v;
      do hk <- eval T k;
      enter GetItem [hv; hk]
  | Call f args keywords =>
      let arguments :=
        do hs <- sequence (map (eval T) args);
        do ks <- sequence (map (fun kw => eval T (snd kw)) keywords);
        ret (hs ++ ks)%list in
      match f with
      | Name x =>
          do hf <- lookup x;
          do hs <- arguments;
          match find x T with
          | Some c => c hs
          | None => enter (CallEntry x) (hf :: hs)
          end
      | Attribute v m =>
          do hv <- eval T v;
          do hs <- arguments;
          enter (CallEntry m) (hv :: hs)
      | _ =>
          do hf <- eval T f;
          do hs <- arguments;
          enter (CallEntry "__call__") (hf :: hs)
      end
  | BinOp l op r =>
      do hl <- eval T l;
      do hr <- eval T r;
      enter (Operator op) [hl; hr]
  end.

(** [c1; c2] for statements: [c2] runs only if [c1] neither raises nor
    returns. *)
Definition seq (c1 c2 : M flow) : M flow :=
  do f <- c1;
  match f with
  | Continue => c2
  | Return_ h => ret (Return_ h)
  end.

Definition skip : M flow := ret Continue.

(** [try: body except: handler]: the handler runs if the body raises. *)
Definition catch (body handler : M flow) : M flow := fun st =>
  match body st with
  | (Raised _, st') => handler st'
  | other => other
  end.

(** Statements.  A definition adds the function to the table; the
    functions its body can call are those of the table at that point
    (the notebook defines each function before the ones that use
    it). *)
Fixpoint exec (T : table) (s : stmt) : M flow * table :=
  match s with
  | Magic line => ((do _ <- enter (MagicLine line) []; skip), T)
  | Import m x => ((do h <- enter (ImportModule m) []; do _ <- bind_name x h; skip), T)
  | ImportFrom m xs =>
      ((do hm <- enter (ImportModule m) [];
        fold_right (fun x c => do h <- enter (GetAttr x) [hm];
                               do _ <- bind_name x h; c) skip xs), T)
  | Assign x v => ((do h <- eval T v; do _ <- bind_name x h; skip), T)
  | AssignItem t k v =>
      ((do hv <- eval T v; do ht <- eval T t; do hk <- eval T k;
        do _ <- set_item ht hk hv; skip), T)
  | Expr v => ((do _ <- eval T v; skip), T)
  | FunctionDef f params body =>
      let c :=
        (fix block (T0 : table) (l : list stmt) : M flow :=
           match l with
           | [] => skip
           | s' :: l' => let (c', T1) := exec T0 s' in seq c' (block T1 l')
           end) T body in
      ((do h <- alloc (atom lib (LFunction f)); do _ <- bind_name f h; skip),
       (f, call_local f params c) :: T)
  | Return v => ((do h <- eval T v; ret (Return_ h)), T)
  | Try body handler =>
      let block :=
        fix block (T0 : table) (l : list stmt) : M flow :=
          match l with
          | [] => skip
          | s' :: l' => let (c', T1) := exec T0 s' in seq c' (block T1 l')
          end in
      (catch (block T body) (block T handler), T)
  end.

(** A block of statements, with the table it leaves. *)
Fixpoint exec_block (T : table) (l : list stmt) : M flow * table :=
  match l with
  | [] => (skip, T)
  | s :: l' =>
      let (c, T1) := exec T s in
      let (c', T2) := exec_block T1 l' in
      (seq c c', T2)
  end.

Definition initial : state :=
  {| globals := []; locals := None; heap := []; log := [] |}.

(** Running statements from the start, up to the first exception. *)
Definition run_block (l : list stmt) : answer flow * state :=
  fst (exec_block [] l) initial.

(** Running a program: its cells in order. *)
Definition run (cells : list (list stmt)) : answer flow * state :=
  run_block (List.concat cells).

(** What a statement leaves, handed to the rest of its block. *)
Definition and_then (r : answer flow * state)
    (rest : state -> answer flow * state) : answer flow * state :=
  match r with
  | (Value Continue, st') => rest st'
  | (Value (Return_ h), st') => (Value (Return_ h), st')
  | (Raised e, st') => (Raised e, st')
  end.

(** The events of a run, in order. *)
Definition events (st : state) : list event := map what (log st).

(** A run in which no exception was handled: either it raised nothing
    and every library entry returned, or it raised [e] and the last
    thing that happened is a library entry raising that [e], with no
    name bound and no object made since, and every earlier entry
    returned. *)
Definition unhandled (r : answer flow * state) : Prop :=
  match fst r, rev (log (snd r)) with
  | Raised e, last :: before =>
      result_of last = Raises e
      /\ names last = List.length (globals (snd r))
      /\ objects last = List.length (heap (snd r))
      /\ Forall returned before
  | Raised e, [] => False
  | Value _, l => Forall returned l
  end.

End Run.

Arguments Value {A} a.
Arguments Raised {A} e.
Arguments exec {object} lib T s.
Arguments exec_block {object} lib T l.
Arguments globals {object} s.
Arguments locals {object} s.
Arguments heap {object} s.
Arguments log {object} s.
Arguments raises {object} l.
Arguments atom {object} l.
Arguments collect {object} l.
Arguments result {object} l.
Arguments store {object} l.
Arguments touch {object} l.
Arguments assoc x l : simpl nomatch.
Arguments initial {object}.
Arguments and_then {object} r rest.
Arguments run_block {object} lib l.
Arguments run {object} lib cells.
Arguments events {object} st.
Arguments unhandled {object} r.

(** ** The code cells *)

Definition ds_Tair : expr := Subscript (Name "ds") (Str "Tair").

Definition cell_imports : list stmt :=
  [ Magic "matplotlib inline";
    Import "xarray" "xr";
    Import "numpy" "np";
    Expr (Call (Attribute (Attribute (Name "np") "warnings") "filterwarnings")
               [Str "ignore"] []) ].

Definition cell_client : list stmt :=
  [ ImportFrom "distributed" ["Client"; "progress"];
    Assign "client" (Call (Name "Client") [] []);
    Expr (Name "client") ].

Definition cell_open : list stmt :=
  [ Assign "ds" (Call (Attribute (Name "xr") "open_dataset")
                      [Str "./data/rasm.nc"]
                      [("chunks", Dict [(Str "time", Num 10)])]);
    Expr (Name "ds") ].

Definition cell_data : list stmt :=
  [ Expr (Attribute ds_Tair "data") ].

Definition yearly (aggregate : string) : expr :=
  Call (Attribute (Call (Attribute ds_Tair "resample") [] [("time", Str "AS")])
                  aggregate)
       [Str "time"] [].

Definition cell_t_range : list stmt :=
  [ Assign "t_range"
      (Call (Attribute (BinOp (yearly "max") Sub (yearly "min")) "mean")
            [Str "time"] []) ].

Definition cell_visualize : list stmt :=
  [ Expr (Call (Attribute (Attribute (Name "t_range") "data") "visualize") [] []) ].

Definition cell_persist : list stmt :=
  [ Assign "results" (Call (Attribute (Name "t_range") "persist") [] []);
    Expr (Call (Name "progress") [Name "results"] []) ].

Definition cell_results : list stmt :=
  [ Expr (Name "results") ].

Definition last_axis : string * expr := ("axis", Num (-1)).

Definition deviation (x : string) : expr :=
  BinOp (Name x) Sub
        (Call (Attribute (Name x) "mean") [] [last_axis; ("keepdims", TrueConst)]).

Definition def_covariance_gufunc : stmt :=
  FunctionDef "covariance_gufunc" ["x"; "y"]
    [ Return (Call (Attribute (BinOp (deviation "x") Mult (deviation "y")) "mean")
                   [] [last_axis]) ].

Definition def_pearson_correlation_gufunc : stmt :=
  FunctionDef "pearson_correlation_gufunc" ["x"; "y"]
    [ Return (BinOp (Call (Name "covariance_gufunc") [Name "x"; Name "y"] [])
                    Div
                    (BinOp (Call (Attribute (Name "x") "std") [] [last_axis])
                           Mult
                           (Call (Attribute (Name "y") "std") [] [last_axis]))) ].

Definition def_spearman_correlation_gufunc : stmt :=
  FunctionDef "spearman_correlation_gufunc" ["x"; "y"]
    [ Assign "x_ranks"
        (Call (Attribute (Name "bottleneck") "rankdata") [Name "x"] [last_axis]);
      Assign "y_ranks"
        (Call (Attribute (Name "bottleneck") "rankdata") [Name "y"] [last_axis]);
      Return (Call (Name "pearson_correlation_gufunc")
                   [Name "x_ranks"; Name "y_ranks"] []) ].

Definition def_spearman_correlation : stmt :=
  FunctionDef "spearman_correlation" ["x"; "y"; "dim"]
    [ Return (Call (Attribute (Name "xr") "apply_ufunc")
                   [Name "spearman_correlation_gufunc"; Name "x"; Name "y"]
                   [("input_core_dims",
                     ListOf [ListOf [Name "dim"]; ListOf [Name "dim"]]);
                    ("dask", Str "parallelized");
                    ("output_dtypes", ListOf [Name "float"])]) ].

Definition cell_functions : list stmt :=
  [ Import "bottleneck" "bottleneck";
    def_covariance_gufunc;
    def_pearson_correlation_gufunc;
    def_spearman_correlation_gufunc;
    def_spearman_correlation ].

Definition rolled : expr :=
  Call (Attribute ds_Tair "roll") [] [("time", Num 1)].

Definition cell_roll : list stmt :=
  [ Expr rolled ].

Definition cell_correlation : list stmt :=
  [ Assign "ds" (Call (Attribute (Name "ds") "chunk")
                      [Dict [(Str "x", Num 25); (Str "y", Num 25); (Str "time", Num (-1))]]
                      []);
    Assign "x" ds_Tair;
    Assign "y" rolled;
    AssignItem (Name "y") (Str "time") (Subscript (Name "x") (Str "time"));
    Assign "corr" (Call (Name "spearman_correlation")
                        [Name "x"; Name "y"; Str "time"] []);
    Assign "corr" (Call (Attribute (Name "corr") "where")
                        [BinOp (Name "corr") Lt (Num 1)] []);
    Expr (Name "corr") ].

Definition cell_plot : list stmt :=
  [ Expr (Call (Attribute (Name "corr") "plot") [] []) ].

Definition cell_schedulers : list stmt :=
  [ Import "dask.multiprocessing" "dask";
    Expr (Call (Attribute (Attribute (Name "dask") "config") "set")
               [] [("scheduler", Str "processes")]);
    ImportFrom "distributed" ["Client"];
    Assign "client" (Call (Name "Client") [] []) ].

Definition notebook : list (list stmt) :=
  [ cell_imports; cell_client; cell_open; cell_data; cell_t_range;
    cell_visualize; cell_persist; cell_results; cell_functions; cell_roll;
    cell_correlation; cell_plot; cell_schedulers ].

(** ** Libraries *)

(** A library that never raises, with objects that say nothing. *)
Definition silent : library unit :=
  {| raises := fun _ _ => Returns;
     atom := fun _ => tt;
     collect := fun _ => tt;
     result := fun _ _ => tt;
     store := fun _ _ _ => tt;
     touch := fun _ _ _ _ o => o |}.

(** A small model of labelled arrays: an array is its [time]
    coordinate and its values, one for each time; [roll] moves the
    values and the coordinate along by one (which is why the notebook
    resets the index afterwards), and assigning to ["time"] replaces
    the coordinate of the target where it is. *)
Inductive thing : Type :=
| Text (s : string)
| Number (n : Z)
| Labelled (time : list Z) (values : list Z)
| Opaque.

Definition roll1 (l : list Z) : list Z :=
  match rev l with
  | [] => []
  | a :: r => a :: rev r
  end.

Definition toy_result (ev : event) (args : list thing) : thing :=
  match ev, args with
  | CallEntry name, Labelled t v :: rest =>
      if String.eqb name "chunk" then Labelled t v
      else if String.eqb name "roll" then Labelled (roll1 t) (roll1 v)
      else Opaque
  | CallEntry name, _ =>
      if String.eqb name "open_dataset" then Labelled [0; 1; 2]%Z [10; 20; 30]%Z
      else Opaque
  | GetItem, [Labelled t v; Text k] =>
      if String.eqb k "time" then Labelled t t else Labelled t v
  | _, _ => Opaque
  end.

Definition toy_store (target key value : thing) : thing :=
  match target, key, value with
  | Labelled t v, Text k, Labelled _ c =>
      if String.eqb k "time" then Labelled c v else target
  | _, _, _ => target
  end.

Definition toy : library thing :=
  {| raises := fun _ _ => Returns;
     atom := fun l => match l with
                      | LStr s => Text s
                      | LNum n => Number n
                      | _ => Opaque
                      end;
     collect := fun _ => Opaque;
     result := toy_result;
     store := toy_store;
     touch := fun _ _ _ _ o => o |}.

(** A library that does not leave things as they are: [toy], except
    that its [chunk] also changes the dataset it is called on, where
    it is. *)
Definition careless : library thing :=
  {| raises := raises toy;
     atom := atom toy;
     collect := collect toy;
     result := result toy;
     store := store toy;
     touch := fun _ ev hs h o =>
       match ev, hs with
       | CallEntry name, receiver :: _ =>
           if (String.eqb name "chunk" && Nat.eqb h receiver)%bool
           then Opaque else o
       | _, _ => o
       end |}.

(** The objects of [toy] that are arrays. *)
Definition labelled (o : thing) : Prop :=
  match o with
  | Labelled _ _ => True
  | _ => False
  end.

End Py.

(** ** What the claims about the notebook speak of *)

Module Flow.

Import String.
Local Open Scope string_scope.
Import Py.

(** The statements of the notebook, in the order of the cells. *)
Definition statements : list stmt := List.concat notebook.

(** The events of a run in which no library raises. *)
Definition trace : list event := events (snd (run silent notebook)).

(** The functions a program defines. *)
Definition defined (l : list stmt) : list string :=
  flat_map (fun s => match s with
                     | FunctionDef f _ _ => [f]
                     | _ => []
                     end) l.

(** The notebook, followed by a call of [spearman_correlation_gufunc]
    on the two arrays: what the function does when the library calls
    it back. *)
Definition probe : list (list stmt) :=
  (notebook ++
   [[Expr (Call (Name "spearman_correlation_gufunc") [Name "x"; Name "y"] [])]])%list.

(** The steps of the flow. *)
Inductive step : Type :=
| Opening          (* open a dataset *)
| Transformation   (* a lazy operation on arrays *)
| Visualization    (* draw the task graph *)
| Materialization  (* compute the values *)
| Scheduling       (* choose an execution backend *)
| Other.

Definition one_of (name : string) (l : list string) : bool :=
  existsb (String.eqb name) l.

Definition step_of (ev : event) : step :=
  match ev with
  | CallEntry name =>
      if String.eqb name "open_dataset" then Opening
      else if one_of name ["resample"; "max"; "min"; "mean"; "roll"; "chunk";
                           "apply_ufunc"; "where"] then Transformation
      else if String.eqb name "visualize" then Visualization
      else if one_of name ["persist"; "plot"] then Materialization
      else if one_of name ["Client"; "set"] then Scheduling
      else Other
  | Operator _ => Transformation
  | _ => Other
  end.

Definition steps : list step := map step_of trace.

(** The entries that are steps of the flow. *)
Definition in_flow (ev : event) : bool :=
  match step_of ev with
  | Other => false
  | _ => true
  end.

(** Every occurrence of [a] comes before every occurrence of [b]. *)
Definition precedes {A : Type} (a b : A) (l : list A) : Prop :=
  forall i j, nth_error l i = Some a -> nth_error l j = Some b -> (i < j)%nat.

Fixpoint precedesb {A : Type} (eq_dec : forall x y : A, {x = y} + {x <> y})
    (a b : A) (l : list A) : bool :=
  match l with
  | [] => true
  | x :: l' =>
      (if eq_dec x b
       then negb (existsb (fun y => if eq_dec y a then true else false) l)
       else true)
      && precedesb eq_dec a b l'
  end.

Definition operator_eq_dec (x y : operator) : {x = y} + {x <> y}.
Proof. decide equality. Defined.

Definition event_eq_dec (x y : event) : {x = y} + {x <> y}.
Proof. decide equality; try apply string_dec; apply operator_eq_dec. Defined.

Definition step_eq_dec (x y : step) : {x = y} + {x <> y}.
Proof. decide equality. Defined.

(** The order of the steps as the flow gives it: open, transform,
    visualize, materialize, and no materialization before an opening
    or a transformation. *)
Definition in_flow_order (l : list step) : Prop :=
  precedes Opening Transformation l
  /\ precedes Transformation Visualization l
  /\ precedes Visualization Materialization l
  /\ precedes Opening Materialization l
  /\ precedes Transformation Materialization l.

(** Every operation is an entry into a library, and the program
    defines no function of its own. *)
Definition only_library_calls (cells : list (list stmt)) : Prop :=
  Forall (fun ev => is_library ev = true) (events (snd (run silent cells)))
  /\ defined (List.concat cells) = [].

(** [y['time'] = x['time']] *)
Definition reset_index : stmt :=
  AssignItem (Name "y") (Str "time") (Subscript (Name "x") (Str "time")).

(** A statement that is an item assignment, or has one inside.  (Of
    the statements that change an object where it is, the item
    assignment is the only one the notebook has: there is no augmented
    assignment, no assignment to an attribute and no [del] in it.) *)
Fixpoint assigns_item (s : stmt) : bool :=
  match s with
  | AssignItem _ _ _ => true
  | FunctionDef _ _ body => existsb assigns_item body
  | Try body handler => existsb assigns_item body || existsb assigns_item handler
  | _ => false
  end.

(** Sizes, for inductions on the syntax. *)
Fixpoint expr_size (e : expr) : nat :=
  match e with
  | Dict items =>
      S (list_sum (map (fun kv => (expr_size (fst kv) + expr_size (snd kv))%nat) items))
  | ListOf elts => S (list_sum (map expr_size elts))
  | Attribute v _ => S (expr_size v)
  | Subscript v k => S (expr_size v + expr_size k)%nat
  | Call f args keywords =>
      S (expr_size f + list_sum (map expr_size args)
         + list_sum (map (fun kw => expr_size (snd kw)) keywords))%nat
  | BinOp l _ r => S (expr_size l + expr_size r)%nat
  | _ => 1
  end.

Fixpoint stmt_size (s : stmt) : nat :=
  match s with
  | FunctionDef _ _ body => S (list_sum (map stmt_size body))
  | Try body handler =>
      S (list_sum (map stmt_size body) + list_sum (map stmt_size handler))%nat
  | _ => 1
  end.

Section Frame.

Variable object : Type.
Variable lib : library object.

(** The objects that are datasets or arrays. *)
Variable data : object -> Prop.

(** A library whose entries leave the datasets and arrays that are
    there as they are (and return new ones). *)
Definition respects : Prop :=
  forall n ev hs h o, data o -> touch lib n ev hs h o = o.

(** The state after the first [n] statements (or where the run
    stopped, if it raised before). *)
Definition state_after (n : nat) : state object :=
  snd (run_block lib (firstn n statements)).

(** Every dataset or array that was in the heap is still there, as it
    was. *)
Definition kept (st st' : state object) : Prop :=
  forall h o,
    nth_error (heap st) h = Some o -> data o -> nth_error (heap st') h = Some o.

(** What the statement [s] may do to the datasets and arrays: each is
    kept as it was, or [s] is the assignment [y['time'] = x['time']],
    the object is the one [y] is bound to, and it becomes what the
    library's item assignment makes of it. *)
Definition changes (s : stmt) (st st' : state object) : Prop :=
  forall h o,
    nth_error (heap st) h = Some o ->
    data o ->
    nth_error (heap st') h = Some o
    \/ (s = reset_index
        /\ assoc "y" (globals st) = Some h
        /\ exists k v, nth_error (heap st') h = Some (store lib o k v)).

(** [changes] for the statement [s], whose run from [st] gave [r], and
    [rest] for what follows if the block goes on. *)
Definition step_frames (s : stmt) (st : state object)
    (r : answer flow * state object) (rest : state object -> Prop) : Prop :=
  changes s st (snd r)
  /\ match fst r with
     | Value Continue => rest (snd r)
     | _ => True
     end.

(** [changes] along a block, statement after statement, for as long
    as it runs. *)
Fixpoint frames (T : table object) (l : list stmt) (st : state object) : Prop :=
  match l with
  | [] => True
  | s :: l' =>
      step_frames s st (fst (exec lib T s) st) (frames (snd (exec lib T s)) l')
  end.

(** The state after the first [n] statements of a block. *)
Definition prefix_state (T : table object) (l : list stmt) (st : state object)
    (n : nat) : state object :=
  snd (fst (exec_block lib T (firstn n l)) st).

(** A computation that keeps the datasets and arrays, and leaves no
    local names behind at module level. *)
Definition quiet {A : Type} (c : M object A) : Prop :=
  forall st,
    kept st (snd (c st))
    /\ (locals st = None -> locals (snd (c st)) = None).

(** A computation that binds no name. *)
Definition steady {A : Type} (c : M object A) : Prop :=
  forall st,
    globals (snd (c st)) = globals st /\ locals (snd (c st)) = locals st.

(** A table whose functions are quiet. *)
Definition good (T : table object) : Prop :=
  forall f c, find object f T = Some c -> forall args, quiet (c args).

End Frame.

Arguments respects {object} lib data.
Arguments state_after {object} lib n.
Arguments kept {object} data st st'.
Arguments changes {object} lib data s st st'.
Arguments step_frames {object} lib data s st r rest.
Arguments frames {object} lib data T l st.
Arguments prefix_state {object} lib T l st n.
Arguments quiet {object} data {A} c.
Arguments steady {object} {A} c.
Arguments good {object} data T.

(** No step changes a dataset or an array that a handle leads to, when
    the libraries do not. *)
Definition nothing_changes_in_place : Prop :=
  forall (object : Type) (lib : library object) (data : object -> Prop),
    respects lib data ->
    forall n : nat, kept data (state_after lib n) (state_after lib (S n)).

End Flow.

(** * More of the notebook's functions *)

(** [p] holds, row by row, what [P] says of the rows of [x] and [y]:
    the element of [p] at a position relates to the rows of [x] and [y]
    at that position. *)
Fixpoint row_by_row {A B C : Type} (P : list A -> list B -> C -> Prop) (k : nat)
  : ndarray A (S k) -> ndarray B (S k) -> ndarray C k -> Prop :=
  match k return ndarray A (S k) -> ndarray B (S k) -> ndarray C k -> Prop with
  | O => fun r1 r2 c => P r1 r2 c
  | S k' => fun x y p =>
      Forall2 (fun ab c => row_by_row P k' (fst ab) (snd ab) c) (combine x y) p
  end.

(** [roll(time=1)] on one row, as [np.roll(a, 1)]: every element moves
    one place to the right and the last one comes first. *)
Definition roll_row {A : Type} (row : list A) : list A :=
  match rev row with
  | [] => []
  | a :: r => a :: rev r
  end.

(** [x.roll(time=1)], when [time] is the last axis. *)
Definition roll_last {A : Type} {k : nat} : ndarray A (S k) -> ndarray A (S k) :=
  Np.along_last roll_row k.

(** A number below 1, or nan. *)
Definition below_one_or_nan (v : num) : Prop :=
  match v with
  | Some r => r < 1
  | None => True
  end.

(** A function on the reals that keeps the order. *)
Definition increasing (f : R -> R) : Prop :=
  forall u v, u < v -> f u < f v.

(** More sample data: a row too short for [sample_x]. *)
Definition sample_short : ndarray R 2 := [[1; 2]; [4; 3]].

(** A number below 1. *)
Definition is_below_one (v : num) : Prop :=
  exists r, v = Some r /\ r < 1.

(** What [corr.where(corr < 1)] makes of a value [v]: [v] itself when it
    is a number below 1, nan otherwise. *)
Definition masked (v w : num) : Prop :=
  (is_below_one v /\ w = v) \/ (~ is_below_one v /\ w = None).

(** A number that is not negative, or nan. *)
Definition nonnegative_or_nan (v : num) : Prop :=
  match v with
  | Some r => 0 <= r
  | None => True
  end.

(** A function on the reals that reverses the order. *)
Definition decreasing (f : R -> R) : Prop :=
  forall u v, u < v -> f v < f u.

(** More sample data: [sample_x] cut in two along its first axis, as
    two chunks of it. *)
Definition sample_x1 : ndarray R 2 := [[1; 2; 3]].
Definition sample_x2 : ndarray R 2 := [[2; 2; 5]].
Definition sample_y1 : ndarray R 2 := [[3; 1; 2]].
Definition sample_y2 : ndarray R 2 := [[1; 4; 4]].

(** More sample data: a row with a nan in it. *)
Definition sample_nan : ndarray num 2 := [[Some 1; None; Some 3]].

(** ** More about the run of the notebook *)

(** A library none of whose entries raises. *)
Definition never_raises {object : Type} (lib : Py.library object) : Prop :=
  forall n ev, Py.raises lib n ev = Py.Returns.

(** A run that went along the trace: if it raised, a library raised
    that exception and the entries made up to there are the first ones
    of the trace; if not, it reached the end of the last cell and its
    entries are the trace. *)
Definition along_trace {object : Type} (lib : Py.library object)
    (r : Py.answer Py.flow * Py.state object) : Prop :=
  match fst r with
  | Py.Raised e =>
      (exists rest, Flow.trace = (Py.events (snd r) ++ rest)%list)
      /\ (exists n ev, Py.raises lib n ev = Py.Raises e)
  | Py.Value f => f = Py.Continue /\ Py.events (snd r) = Flow.trace
  end.

(** A row combined with a row of length 1, whose only element is
    repeated along the first one (broadcasting along the last axis). *)
Definition against_one {A B C : Type} (op : A -> B -> C)
    (r1 : list A) (r2 : list B) : list C :=
  match r2 with
  | [b] => map (fun a => op a b) r1
  | _ => []
  end.

(** More sample data: an array with a single element along its last
    axis. *)
Definition sample_single : ndarray R 2 := [[7]; [9]].

(** * The gufuncs in binary64

    The same three functions with the arithmetic the code runs on:
    IEEE 754 binary64, the kernel's primitive floats, with rounding to
    nearest, overflow to an infinity, underflow to zero, and nan.  It
    is what the exact embedding above idealises; where a property of
    the exact embedding is not one of the code, the inputs on which the
    two differ are given here and the difference is proved with the
    property.

    A row is added up from left to right, as NumPy does for a row
    shorter than 8 elements (a longer row is added pairwise, in blocks,
    which can change the last bits of a sum): the binary64 embedding is
    for short rows. *)

Module B64.

Import PrimFloat.
#[local] Set Warnings "-inexact-float".

Local Open Scope float_scope.

(** The count of a row as a float: exact below 2^53. *)
Fixpoint of_nat (n : nat) : float :=
  match n with
  | O => 0
  | S n' => of_nat n' + 1
  end.

(** [np.sum], [np.mean] and [np.std] ([ddof=0]) of a 1-d array.  The
    sum of an empty row is 0, that of another starts from its first
    element; NumPy computes the standard deviation as
    [sqrt(sum((a - a.mean()) * (a - a.mean())) / n)]. *)
Definition sum (row : list float) : float :=
  match row with
  | [] => 0
  | a :: r => fold_left add r a
  end.

Definition mean (row : list float) : float := sum row / of_nat (length row).

Definition deviations (row : list float) : list float :=
  map (fun a => a - mean row) row.

Definition std (row : list float) : float :=
  sqrt (mean (map (fun d => d * d) (deviations row))).

(** [def covariance_gufunc(x, y):
       return ((x - x.mean(axis=-1, keepdims=True))
               * (y - y.mean(axis=-1, keepdims=True))).mean(axis=-1)] *)
Definition covariance_gufunc {k} (x y : ndarray float (S k))
  : result (ndarray float k) :=
  dx <- Np.broadcast sub (S k) x (Np.reduce_last_keepdims mean k x) ;;
  dy <- Np.broadcast sub (S k) y (Np.reduce_last_keepdims mean k y) ;;
  p <- Np.broadcast mul (S k) dx dy ;;
  Ok (Np.reduce_last mean k p).

(** [x.std(axis=-1) * y.std(axis=-1)] *)
Definition pearson_divisor {k} (x y : ndarray float (S k))
  : result (ndarray float k) :=
  Np.broadcast mul k (Np.reduce_last std k x) (Np.reduce_last std k y).

(** [def pearson_correlation_gufunc(x, y):
       return covariance_gufunc(x, y) / (x.std(axis=-1) * y.std(axis=-1))] *)
Definition pearson_correlation_gufunc {k} (x y : ndarray float (S k))
  : result (ndarray float k) :=
  c <- covariance_gufunc x y ;;
  s <- pearson_divisor x y ;;
  Np.broadcast div k c s.

(** What the claims state of the two functions, for one pair of rows,
    with each operation rounded: the mean of the products of the
    deviations, and that covariance over the product of the standard
    deviations. *)
Definition row_covariance (r1 r2 : list float) : float :=
  mean (map2 mul (deviations r1) (deviations r2)).

Definition row_pearson (r1 r2 : list float) : float :=
  row_covariance r1 r2 / (std r1 * std r2).

(** A finite number: neither nan nor an infinity. *)
Definition number (v : float) : bool := negb (is_nan v || is_infinity v).

(** A row all of whose elements are equal. *)
Definition constant (row : list float) : bool :=
  match row with
  | [] => true
  | a :: r => forallb (eqb a) r
  end.

(** The two statements of the claims about the divisor and the
    quotient, read in binary64: when no row is constant, no divisor is
    zero; and when no standard deviation is zero, every quotient is a
    finite number. *)
Definition divisor_nonzero_unless_constant : Prop :=
  forall (k : nat) (x y : ndarray float (S k)) (d : ndarray float k),
    same_shape (S k) x y ->
    rows_all (fun r => constant r = false) k x ->
    rows_all (fun r => constant r = false) k y ->
    pearson_divisor x y = Ok d ->
    nd_all (fun v => eqb v 0 = false) k d.

Definition quotient_is_a_number : Prop :=
  forall (k : nat) (x y : ndarray float (S k)) (p : ndarray float k),
    same_shape (S k) x y ->
    rows_all (fun r => forallb number r = true) k x ->
    rows_all (fun r => forallb number r = true) k y ->
    rows_all (fun r => eqb (std r) 0 = false) k x ->
    rows_all (fun r => eqb (std r) 0 = false) k y ->
    pearson_correlation_gufunc x y = Ok p ->
    nd_all (fun v => number v = true) k p.

(** Sample data, one row each. *)
Definition tiny : ndarray float 2 := [[0; 1e-200]].
Definition unit_step : ndarray float 2 := [[0; 1]].
Definition huge : ndarray float 2 := [[1e200; 2e200; 3e200]].
Definition tenths : ndarray float 2 := [[0.1; 0.1; 0.1]].
Definition steps : ndarray float 2 := [[1; 2; 3]].
Definition turned : ndarray float 2 := [[3; 1; 2]].
Definition tied : ndarray float 2 := [[2; 2; 5]].
Definition flat : ndarray float 2 := [[1; 1]].
Definition odd : ndarray float 2 := [[1; 3; 7]].
Definition lag_x : ndarray float 2 := [[1; 1; 2]].
Definition lag_y : ndarray float 2 := [[1; 6; 6]].
Definition wide : ndarray float 2 := [[1.7e308; 1.7e308]].
Definition single : ndarray float 2 := [[7]].

(** [a * x + b], for a change of unit: degrees Celsius to degrees
    Fahrenheit, and a scale of [1e200]. *)
Definition rescale (a b : float) {k} (x : ndarray float k) : ndarray float k :=
  nd_map (fun v => a * v + b) k x.

Definition fahrenheit {k} : ndarray float k -> ndarray float k := rescale 1.8 32.
Definition enlarged {k} : ndarray float k -> ndarray float k := rescale 1e200 0.

End B64.

(** * Properties *)

(** ** Unfolding the array operations by one axis *)

Lemma broadcast_S {A B C : Type} (op : A -> B -> C) (k : nat)
    (x : list (ndarray A k)) (y : list (ndarray B k)) :
  Np.broadcast op (S k) x y =
  if Nat.eqb (length x) (length y) then
    sequence (map (fun p => Np.broadcast op k (fst p) (snd p)) (combine x y))
  else
    match x, y with
    | _, [y0] => sequence (map (fun xi => Np.broadcast op k xi y0) x)
    | [x0], _ => sequence (map (fun yi => Np.broadcast op k x0 yi) y)
    | _, _ => Raise ValueError
    end.
Proof. reflexivity. Qed.

Lemma reduce_last_S {A B : Type} (f : list A -> B) (k : nat) (x : list (ndarray A (S k))) :
  Np.reduce_last f (S k) x = map (Np.reduce_last f k) x.
Proof. reflexivity. Qed.

Lemma reduce_last_keepdims_S {A B : Type} (f : list A -> B) (k : nat)
    (x : list (ndarray A (S k))) :
  Np.reduce_last_keepdims f (S k) x = map (Np.reduce_last_keepdims f k) x.
Proof. reflexivity. Qed.

Lemma along_last_S {A B : Type} (f : list A -> list B) (k : nat)
    (x : list (ndarray A (S k))) :
  Np.along_last f (S k) x = map (Np.along_last f k) x.
Proof. reflexivity. Qed.

Lemma nd_map_S {A B : Type} (f : A -> B) (k : nat) (x : list (ndarray A k)) :
  nd_map f (S k) x = map (nd_map f k) x.
Proof. reflexivity. Qed.

Lemma nd_map2_S {A B C : Type} (op : A -> B -> C) (k : nat)
    (x : list (ndarray A k)) (y : list (ndarray B k)) :
  nd_map2 op (S k) x y = map (fun p => nd_map2 op k (fst p) (snd p)) (combine x y).
Proof. reflexivity. Qed.

Lemma zip_last_S {A B C : Type} (f : list A -> list B -> C) (k : nat)
    (x : list (ndarray A (S k))) (y : list (ndarray B (S k))) :
  zip_last f (S k) x y = map (fun p => zip_last f k (fst p) (snd p)) (combine x y).
Proof. reflexivity. Qed.

Lemma zip_along_S {A B C : Type} (f : list A -> list B -> list C) (k : nat)
    (x : list (ndarray A (S k))) (y : list (ndarray B (S k))) :
  zip_along f (S k) x y = map (fun p => zip_along f k (fst p) (snd p)) (combine x y).
Proof. reflexivity. Qed.

Lemma same_shape_S {A B : Type} (k : nat) (x : list (ndarray A k)) (y : list (ndarray B k)) :
  same_shape (S k) x y = Forall2 (same_shape k) x y.
Proof. reflexivity. Qed.

Lemma rows_all2_S {A B : Type} (P : list A -> list B -> Prop) (k : nat)
    (x : list (ndarray A (S k))) (y : list (ndarray B (S k))) :
  rows_all2 P (S k) x y = Forall2 (rows_all2 P k) x y.
Proof. reflexivity. Qed.

Lemma rows_all_S {A : Type} (P : list A -> Prop) (k : nat) (x : list (ndarray A (S k))) :
  rows_all P (S k) x = Forall (rows_all P k) x.
Proof. reflexivity. Qed.

Lemma nd_all_S {A : Type} (P : A -> Prop) (k : nat) (x : list (ndarray A k)) :
  nd_all P (S k) x = Forall (nd_all P k) x.
Proof. reflexivity. Qed.

Lemma nd_all2_S {A B : Type} (P : A -> B -> Prop) (k : nat)
    (x : list (ndarray A k)) (y : list (ndarray B k)) :
  nd_all2 P (S k) x y = Forall2 (nd_all2 P k) x y.
Proof. reflexivity. Qed.

(** ** Sequencing *)

Lemma sequence_map_Ok {A B : Type} (f : A -> result B) (g : A -> B) (l : list A) :
  (forall a, In a l -> f a = Ok (g a)) ->
  sequence (map f l) = Ok (map g l).
Proof.
  induction l as [|a l IH]; intros H; simpl.
  - reflexivity.
  - rewrite (H a (or_introl eq_refl)). simpl.
    rewrite IH by (intros b Hb; apply H; right; exact Hb).
    reflexivity.
Qed.

Lemma in_combine_Forall2 {A B : Type} (P : A -> B -> Prop) (l1 : list A) (l2 : list B) :
  Forall2 P l1 l2 -> forall p, In p (combine l1 l2) -> P (fst p) (snd p).
Proof.
  induction 1 as [|a b l1 l2 Hab _ IH]; simpl; intros p Hp.
  - contradiction.
  - destruct Hp as [<-|Hp]; [exact Hab | apply IH, Hp].
Qed.

Lemma Forall2_length_eq {A B : Type} (P : A -> B -> Prop) (l1 : list A) (l2 : list B) :
  Forall2 P l1 l2 -> length l1 = length l2.
Proof. induction 1; simpl; congruence. Qed.

(** ** Broadcasting *)

(** Operands of one shape are combined element by element. *)
Lemma broadcast_same_shape {A B C : Type} (op : A -> B -> C) (k : nat) :
  forall (x : ndarray A k) (y : ndarray B k),
    same_shape k x y -> Np.broadcast op k x y = Ok (nd_map2 op k x y).
Proof.
  induction k as [|k IH]; intros x y Hs.
  - reflexivity.
  - rewrite same_shape_S in Hs. rewrite broadcast_S, nd_map2_S.
    rewrite (Forall2_length_eq _ _ _ Hs), Nat.eqb_refl.
    apply sequence_map_Ok. intros p Hp.
    apply IH. exact (in_combine_Forall2 _ _ _ Hs p Hp).
Qed.

Lemma combine_map_r_same {A B : Type} (g : A -> B) (l : list A) :
  combine l (map g l) = map (fun a => (a, g a)) l.
Proof. induction l; simpl; congruence. Qed.

(** An array against its own reduction with [keepdims=True]: every row
    is combined with its reduced value. *)
Lemma broadcast_keepdims {A B C : Type} (op : A -> B -> C) (f : list A -> B) (k : nat) :
  forall x : ndarray A (S k),
    Np.broadcast op (S k) x (Np.reduce_last_keepdims f k x)
    = Ok (Np.along_last (fun r => map (fun a => op a (f r)) r) k x).
Proof.
  induction k as [|k IH]; intros x.
  - change (Np.reduce_last_keepdims f 0 x) with [f x].
    change (Np.along_last (fun r => map (fun a => op a (f r)) r) 0 x)
      with (map (fun a => op a (f x)) x).
    rewrite (broadcast_S op 0 x [f x]).
    destruct x as [|a [|b x]]; try reflexivity.
    cbn [length Nat.eqb].
    apply (sequence_map_Ok (fun xi => Np.broadcast op 0 xi (f (a :: b :: x)))).
    intros; reflexivity.
  - rewrite reduce_last_keepdims_S, along_last_S, broadcast_S.
    rewrite length_map, Nat.eqb_refl.
    rewrite combine_map_r_same, map_map.
    apply sequence_map_Ok. intros a _. cbn [fst snd]. apply IH.
Qed.

(** ** Lists of pairs *)

Lemma combine_map_map {A A' B B' : Type} (f : A -> A') (g : B -> B')
    (l1 : list A) (l2 : list B) :
  combine (map f l1) (map g l2) = map (fun p => (f (fst p), g (snd p))) (combine l1 l2).
Proof.
  revert l2. induction l1 as [|a l1 IH]; intros [|b l2]; simpl; try reflexivity.
  now rewrite IH.
Qed.

Lemma combine_map_same {A B C : Type} (f : A -> B) (g : A -> C) (l : list A) :
  combine (map f l) (map g l) = map (fun a => (f a, g a)) l.
Proof. induction l; simpl; congruence. Qed.

Lemma Forall2_map_map {A A' B B' : Type} (P : A' -> B' -> Prop) (f : A -> A') (g : B -> B')
    (l1 : list A) (l2 : list B) :
  Forall2 (fun a b => P (f a) (g b)) l1 l2 -> Forall2 P (map f l1) (map g l2).
Proof. induction 1; simpl; constructor; assumption. Qed.

Lemma Forall2_weaken {A B : Type} (P Q : A -> B -> Prop) (l1 : list A) (l2 : list B) :
  (forall a b, P a b -> Q a b) -> Forall2 P l1 l2 -> Forall2 Q l1 l2.
Proof. intros H; induction 1; constructor; auto. Qed.

Lemma Forall2_same_map {A B C : Type} (P : B -> C -> Prop) (f : A -> B) (g : A -> C)
    (l : list A) :
  (forall a, In a l -> P (f a) (g a)) -> Forall2 P (map f l) (map g l).
Proof.
  induction l as [|a l IH]; intros H; simpl; constructor.
  - apply H; left; reflexivity.
  - apply IH; intros; apply H; right; assumption.
Qed.

Lemma Forall2_and {A B : Type} (P Q : A -> B -> Prop) (l1 : list A) (l2 : list B) :
  Forall2 P l1 l2 -> Forall2 Q l1 l2 -> Forall2 (fun a b => P a b /\ Q a b) l1 l2.
Proof.
  induction 1; intros HQ; inversion HQ; subst; constructor; auto.
Qed.

Lemma Forall2_Forall_l {A B : Type} (P : A -> B -> Prop) (Q : A -> Prop)
    (l1 : list A) (l2 : list B) :
  Forall2 P l1 l2 -> Forall Q l1 -> Forall2 (fun a b => Q a /\ P a b) l1 l2.
Proof.
  induction 1; intros HQ; inversion HQ; subst; constructor; auto.
Qed.

Lemma Forall2_Forall_r {A B : Type} (P : A -> B -> Prop) (Q : B -> Prop)
    (l1 : list A) (l2 : list B) :
  Forall2 P l1 l2 -> Forall Q l2 -> Forall2 (fun a b => Q b /\ P a b) l1 l2.
Proof.
  induction 1; intros HQ; inversion HQ; subst; constructor; auto.
Qed.

(** ** Shapes *)

Lemma same_shape_rows {A B : Type} (r1 : list A) (r2 : list B) :
  same_shape 1 r1 r2 <-> length r1 = length r2.
Proof.
  change (same_shape 1 r1 r2) with (Forall2 (fun (_ : A) (_ : B) => True) r1 r2).
  split.
  - apply Forall2_length_eq.
  - revert r2. induction r1 as [|a r1 IH]; intros [|b r2] H; simpl in H;
      try discriminate; constructor; auto.
Qed.

Lemma Forall_Forall2 {A B : Type} (P : A -> Prop) (Q : B -> Prop)
    (l1 : list A) (l2 : list B) :
  length l1 = length l2 -> Forall P l1 -> Forall Q l2 ->
  Forall2 (fun a b => P a /\ Q b) l1 l2.
Proof.
  revert l2. induction l1 as [|a l1 IH]; intros [|b l2] L H1 H2;
    simpl in L; try discriminate; constructor.
  - inversion H1; inversion H2; subst; split; assumption.
  - inversion H1; inversion H2; subst. apply IH; auto.
Qed.

Lemma has_shape_same_shape {A B : Type} (k : nat) :
  forall (sh : list nat) (x : ndarray A k) (y : ndarray B k),
    has_shape sh k x -> has_shape sh k y -> same_shape k x y.
Proof.
  induction k as [|k IH]; intros sh x y Hx Hy.
  - exact I.
  - destruct sh as [|n sh]; [destruct Hx|].
    destruct Hx as [Lx [_ Fx]], Hy as [Ly [_ Fy]].
    rewrite same_shape_S.
    assert (L : length x = length y) by congruence.
    pose proof (Forall_Forall2 (has_shape sh k) (has_shape sh k) x y L Fx Fy) as F.
    eapply Forall2_weaken; [|exact F].
    intros a b [Ha Hb]. exact (IH sh a b Ha Hb).
Qed.

(** Two arrays of one shape are row by row of one length. *)
Lemma same_shape_rows_all2 {A B : Type} (k : nat) :
  forall (x : ndarray A (S k)) (y : ndarray B (S k)),
    same_shape (S k) x y -> rows_all2 (fun r1 r2 => length r1 = length r2) k x y.
Proof.
  induction k as [|k IH]; intros x y H.
  - apply same_shape_rows in H. exact H.
  - rewrite same_shape_S in H. rewrite rows_all2_S.
    eapply Forall2_weaken; [|exact H]. exact IH.
Qed.

Lemma rows_all2_same_shape {A B : Type} (P : list A -> list B -> Prop) (k : nat) :
  (forall r1 r2, P r1 r2 -> length r1 = length r2) ->
  forall (x : ndarray A (S k)) (y : ndarray B (S k)),
    rows_all2 P k x y -> same_shape (S k) x y.
Proof.
  intros HP. induction k as [|k IH]; intros x y H.
  - apply same_shape_rows. apply HP. exact H.
  - rewrite rows_all2_S in H. rewrite same_shape_S.
    eapply Forall2_weaken; [|exact H]. exact IH.
Qed.

Lemma rows_all2_weaken {A B : Type} (P Q : list A -> list B -> Prop) (k : nat) :
  (forall r1 r2, P r1 r2 -> Q r1 r2) ->
  forall (x : ndarray A (S k)) (y : ndarray B (S k)),
    rows_all2 P k x y -> rows_all2 Q k x y.
Proof.
  intros HPQ. induction k as [|k IH]; intros x y H.
  - apply HPQ, H.
  - rewrite rows_all2_S in *. eapply Forall2_weaken; [|exact H]. exact IH.
Qed.

Lemma rows_all2_and {A B : Type} (P Q : list A -> list B -> Prop) (k : nat) :
  forall (x : ndarray A (S k)) (y : ndarray B (S k)),
    rows_all2 P k x y -> rows_all2 Q k x y ->
    rows_all2 (fun r1 r2 => P r1 r2 /\ Q r1 r2) k x y.
Proof.
  induction k as [|k IH]; intros x y HP HQ.
  - split; assumption.
  - rewrite rows_all2_S in *.
    eapply Forall2_weaken; [|exact (Forall2_and _ _ _ _ HP HQ)].
    intros a b [H1 H2]. apply IH; assumption.
Qed.

Lemma rows_all2_left {A B : Type} (P : list A -> list B -> Prop) (Q : list A -> Prop)
    (k : nat) :
  forall (x : ndarray A (S k)) (y : ndarray B (S k)),
    rows_all2 P k x y -> rows_all Q k x ->
    rows_all2 (fun r1 r2 => Q r1 /\ P r1 r2) k x y.
Proof.
  induction k as [|k IH]; intros x y HP HQ.
  - split; assumption.
  - rewrite rows_all2_S in *. rewrite rows_all_S in HQ.
    eapply Forall2_weaken; [|exact (Forall2_Forall_l _ _ _ _ HP HQ)].
    intros a b [H1 H2]. apply IH; assumption.
Qed.

Lemma rows_all2_right {A B : Type} (P : list A -> list B -> Prop) (Q : list B -> Prop)
    (k : nat) :
  forall (x : ndarray A (S k)) (y : ndarray B (S k)),
    rows_all2 P k x y -> rows_all Q k y ->
    rows_all2 (fun r1 r2 => Q r2 /\ P r1 r2) k x y.
Proof.
  induction k as [|k IH]; intros x y HP HQ.
  - split; assumption.
  - rewrite rows_all2_S in *. rewrite rows_all_S in HQ.
    eapply Forall2_weaken; [|exact (Forall2_Forall_r _ _ _ _ HP HQ)].
    intros a b [H1 H2]. apply IH; assumption.
Qed.

Lemma same_shape_along_last {A A' B B' : Type} (f : list A -> list A')
    (g : list B -> list B') (k : nat) :
  (forall r1 r2, length r1 = length r2 -> length (f r1) = length (g r2)) ->
  forall (x : ndarray A (S k)) (y : ndarray B (S k)),
    same_shape (S k) x y ->
    same_shape (S k) (Np.along_last f k x) (Np.along_last g k y).
Proof.
  intros Hfg. induction k as [|k IH]; intros x y H.
  - apply same_shape_rows. apply Hfg. apply same_shape_rows, H.
  - rewrite same_shape_S in H. rewrite !along_last_S, same_shape_S.
    apply Forall2_map_map. eapply Forall2_weaken; [|exact H]. exact IH.
Qed.

Lemma same_shape_zip_last {A B C D : Type} (f : list A -> list B -> C)
    (g : list A -> list B -> D) (k : nat) :
  forall (x : ndarray A (S k)) (y : ndarray B (S k)),
    same_shape k (zip_last f k x y) (zip_last g k x y).
Proof.
  induction k as [|k IH]; intros x y.
  - exact I.
  - rewrite !zip_last_S, same_shape_S.
    apply Forall2_same_map. intros p _. apply IH.
Qed.

(** ** Fusing the array operations into one pass over the rows *)

Lemma nd_map2_along_last {A A' B B' C : Type} (op : A' -> B' -> C)
    (f : list A -> list A') (g : list B -> list B') (k : nat) :
  forall (x : ndarray A (S k)) (y : ndarray B (S k)),
    nd_map2 op (S k) (Np.along_last f k x) (Np.along_last g k y)
    = zip_along (fun r1 r2 => map2 op (f r1) (g r2)) k x y.
Proof.
  induction k as [|k IH]; intros x y.
  - reflexivity.
  - rewrite nd_map2_S, !along_last_S, zip_along_S, combine_map_map, map_map.
    apply map_ext. intros p. cbn [fst snd]. apply IH.
Qed.

Lemma reduce_last_zip_along {A B C D : Type} (h : list C -> D)
    (f : list A -> list B -> list C) (k : nat) :
  forall (x : ndarray A (S k)) (y : ndarray B (S k)),
    Np.reduce_last h k (zip_along f k x y) = zip_last (fun r1 r2 => h (f r1 r2)) k x y.
Proof.
  induction k as [|k IH]; intros x y.
  - reflexivity.
  - rewrite zip_along_S, reduce_last_S, zip_last_S, map_map.
    apply map_ext. intros p. apply IH.
Qed.

Lemma nd_map2_reduce_last {A A' B B' C : Type} (op : A' -> B' -> C)
    (f : list A -> A') (g : list B -> B') (k : nat) :
  forall (x : ndarray A (S k)) (y : ndarray B (S k)),
    nd_map2 op k (Np.reduce_last f k x) (Np.reduce_last g k y)
    = zip_last (fun r1 r2 => op (f r1) (g r2)) k x y.
Proof.
  induction k as [|k IH]; intros x y.
  - reflexivity.
  - rewrite nd_map2_S, !reduce_last_S, zip_last_S, combine_map_map, map_map.
    apply map_ext. intros p. cbn [fst snd]. apply IH.
Qed.

Lemma nd_map2_zip_last {A B C C' D : Type} (op : C -> C' -> D)
    (f : list A -> list B -> C) (g : list A -> list B -> C') (k : nat) :
  forall (x : ndarray A (S k)) (y : ndarray B (S k)),
    nd_map2 op k (zip_last f k x y) (zip_last g k x y)
    = zip_last (fun r1 r2 => op (f r1 r2) (g r1 r2)) k x y.
Proof.
  induction k as [|k IH]; intros x y.
  - reflexivity.
  - rewrite nd_map2_S, !zip_last_S, combine_map_same, map_map.
    apply map_ext. intros p. cbn [fst snd]. apply IH.
Qed.

Lemma zip_last_nd_map {A A' B B' C : Type} (f : list A' -> list B' -> C)
    (g : A -> A') (h : B -> B') (k : nat) :
  forall (x : ndarray A (S k)) (y : ndarray B (S k)),
    zip_last f k (nd_map g (S k) x) (nd_map h (S k) y)
    = zip_last (fun r1 r2 => f (map g r1) (map h r2)) k x y.
Proof.
  induction k as [|k IH]; intros x y.
  - reflexivity.
  - rewrite (nd_map_S g (S k)), (nd_map_S h (S k)), !zip_last_S, combine_map_map, map_map.
    apply map_ext. intros p. cbn [fst snd]. apply IH.
Qed.

Lemma zip_last_along_last {A A' B B' C : Type} (f : list A' -> list B' -> C)
    (g : list A -> list A') (h : list B -> list B') (k : nat) :
  forall (x : ndarray A (S k)) (y : ndarray B (S k)),
    zip_last f k (Np.along_last g k x) (Np.along_last h k y)
    = zip_last (fun r1 r2 => f (g r1) (h r2)) k x y.
Proof.
  induction k as [|k IH]; intros x y.
  - reflexivity.
  - rewrite !along_last_S, !zip_last_S, combine_map_map, map_map.
    apply map_ext. intros p. cbn [fst snd]. apply IH.
Qed.

Lemma nd_map_zip_last {A B C D : Type} (g : C -> D) (f : list A -> list B -> C) (k : nat) :
  forall (x : ndarray A (S k)) (y : ndarray B (S k)),
    nd_map g k (zip_last f k x y) = zip_last (fun r1 r2 => g (f r1 r2)) k x y.
Proof.
  induction k as [|k IH]; intros x y.
  - reflexivity.
  - rewrite zip_last_S, nd_map_S, zip_last_S, map_map.
    apply map_ext. intros p. apply IH.
Qed.

Lemma zip_last_ext {A B C : Type} (P : list A -> list B -> Prop)
    (f g : list A -> list B -> C) (k : nat) :
  (forall r1 r2, P r1 r2 -> f r1 r2 = g r1 r2) ->
  forall (x : ndarray A (S k)) (y : ndarray B (S k)),
    rows_all2 P k x y -> zip_last f k x y = zip_last g k x y.
Proof.
  intros Hfg. induction k as [|k IH]; intros x y H.
  - apply Hfg, H.
  - rewrite rows_all2_S in H. rewrite !zip_last_S.
    apply map_ext_in. intros p Hp. apply IH.
    exact (in_combine_Forall2 _ _ _ H p Hp).
Qed.

(** A property of the results, from a property of the pairs of rows. *)
Lemma nd_all_zip_last {A B C : Type} (P : list A -> list B -> Prop) (Q : C -> Prop)
    (f : list A -> list B -> C) (k : nat) :
  (forall r1 r2, P r1 r2 -> Q (f r1 r2)) ->
  forall (x : ndarray A (S k)) (y : ndarray B (S k)),
    rows_all2 P k x y -> nd_all Q k (zip_last f k x y).
Proof.
  intros HPQ. induction k as [|k IH]; intros x y H.
  - apply HPQ, H.
  - rewrite rows_all2_S in H. rewrite zip_last_S, nd_all_S.
    apply Forall_forall. intros c Hc. apply in_map_iff in Hc.
    destruct Hc as [p [<- Hp]]. apply IH.
    exact (in_combine_Forall2 _ _ _ H p Hp).
Qed.

(** ** The gufuncs, one pair of rows at a time *)

Lemma covariance_gufunc_rows (k : nat) (x y : ndarray num (S k)) :
  same_shape (S k) x y ->
  covariance_gufunc x y = Ok (zip_last Row.covariance k x y).
Proof.
  intros Hs. unfold covariance_gufunc, Np.subtract, Np.mean_last_keepdims.
  rewrite !broadcast_keepdims. cbn [bind].
  unfold Np.multiply. rewrite broadcast_same_shape.
  2:{ apply same_shape_along_last; [|exact Hs].
      intros r1 r2 H. now rewrite !length_map. }
  cbn [bind]. unfold Np.mean_last.
  rewrite nd_map2_along_last, reduce_last_zip_along. reflexivity.
Qed.

Lemma pearson_divisor_rows (k : nat) (x y : ndarray num (S k)) :
  same_shape (S k) x y ->
  pearson_divisor x y = Ok (zip_last Row.divisor k x y).
Proof.
  intros Hs. unfold pearson_divisor, Np.multiply, Np.std_last.
  rewrite broadcast_same_shape.
  - rewrite nd_map2_reduce_last. reflexivity.
  - rewrite nd_map2_reduce_last || idtac.
    clear -Hs. revert x y Hs. induction k as [|k IH]; intros x y Hs.
    + exact I.
    + rewrite same_shape_S in Hs. rewrite !reduce_last_S, same_shape_S.
      apply Forall2_map_map. eapply Forall2_weaken; [|exact Hs]. exact IH.
Qed.

Lemma pearson_correlation_gufunc_rows (k : nat) (x y : ndarray num (S k)) :
  same_shape (S k) x y ->
  pearson_correlation_gufunc x y = Ok (zip_last Row.pearson k x y).
Proof.
  intros Hs. unfold pearson_correlation_gufunc.
  rewrite covariance_gufunc_rows, pearson_divisor_rows by exact Hs.
  cbn [bind]. unfold Np.divide.
  rewrite broadcast_same_shape by apply same_shape_zip_last.
  rewrite nd_map2_zip_last. reflexivity.
Qed.

(** ** Sums over the reals *)

Lemma total_app (xs ys : list R) :
  Stat.total (xs ++ ys) = Stat.total xs + Stat.total ys.
Proof.
  unfold Stat.total. induction xs as [|a xs IH]; simpl; [lra | rewrite IH; lra].
Qed.

Lemma total_scale (c : R) (xs : list R) :
  Stat.total (map (fun v => c * v) xs) = c * Stat.total xs.
Proof.
  unfold Stat.total. induction xs as [|a xs IH]; simpl; [lra | rewrite IH; lra].
Qed.

Lemma dot_cons (a b : R) (xs ys : list R) :
  Stat.dot (a :: xs) (b :: ys) = a * b + Stat.dot xs ys.
Proof. reflexivity. Qed.

Lemma dot_nil_l (ys : list R) : Stat.dot [] ys = 0.
Proof. reflexivity. Qed.

Lemma dot_nil_r (xs : list R) : Stat.dot xs [] = 0.
Proof. destruct xs; reflexivity. Qed.

Lemma dot_comm (xs ys : list R) : Stat.dot xs ys = Stat.dot ys xs.
Proof.
  revert ys. induction xs as [|a xs IH]; intros [|b ys];
    rewrite ?dot_nil_l, ?dot_nil_r, ?dot_cons; try reflexivity.
  rewrite IH. lra.
Qed.

Lemma dot_self_nonneg (xs : list R) : 0 <= Stat.dot xs xs.
Proof.
  induction xs as [|a xs IH]; [rewrite dot_nil_l; lra|].
  rewrite dot_cons. nra.
Qed.

Lemma dot_self_zero (xs : list R) :
  Stat.dot xs xs = 0 -> Forall (fun v => v = 0) xs.
Proof.
  induction xs as [|a xs IH]; intros H; constructor.
  - rewrite dot_cons in H. pose proof (dot_self_nonneg xs). nra.
  - apply IH. rewrite dot_cons in H. pose proof (dot_self_nonneg xs). nra.
Qed.

(** The Cauchy-Schwarz inequality. *)
Lemma cauchy_schwarz (xs ys : list R) :
  Stat.dot xs ys * Stat.dot xs ys <= Stat.dot xs xs * Stat.dot ys ys.
Proof.
  revert ys. induction xs as [|a xs IH]; intros [|b ys];
    rewrite ?dot_nil_l, ?dot_nil_r; try lra.
  rewrite !dot_cons.
    specialize (IH ys).
    pose proof (dot_self_nonneg xs) as Hx.
    pose proof (dot_self_nonneg ys) as Hy.
    set (s := Stat.dot xs ys) in *.
    set (p := Stat.dot xs xs) in *.
    set (q := Stat.dot ys ys) in *.
    (* 2 a b s <= a^2 q + b^2 p, from (a b s)^2 <= (a^2 q) (b^2 p) *)
    assert (H2 : 2 * (a * b * s) <= a * a * q + b * b * p).
    { destruct (Rle_dec (a * b * s) 0) as [Hneg|Hpos].
      - assert (0 <= a * a * q) by (apply Rmult_le_pos; nra).
        assert (0 <= b * b * p) by (apply Rmult_le_pos; nra).
        lra.
      - apply Rnot_le_lt in Hpos.
        assert (Hsq : (a * b * s) * (a * b * s) <= (a * a * q) * (b * b * p)).
        { replace ((a * b * s) * (a * b * s)) with ((a * a) * (b * b) * (s * s)) by ring.
          replace ((a * a * q) * (b * b * p)) with ((a * a) * (b * b) * (p * q)) by ring.
          apply Rmult_le_compat_l; [nra | exact IH]. }
        assert (Hu : 0 <= a * a * q) by (apply Rmult_le_pos; nra).
        assert (Hv : 0 <= b * b * p) by (apply Rmult_le_pos; nra).
        set (t := a * b * s) in *. set (u := a * a * q) in *. set (v := b * b * p) in *.
        apply Rnot_lt_le. intros Hc.
        assert (Hlt : (u + v) * (u + v) < (2 * t) * (2 * t)).
        { apply Rmult_le_0_lt_compat; lra. }
        pose proof (Rle_0_sqr (u - v)) as Hd. unfold Rsqr in Hd.
        lra. }
  nra.
Qed.

(** ** Averages, deviations and spread *)

Lemma INR_length_nonzero {A : Type} (xs : list A) : xs <> [] -> INR (length xs) <> 0.
Proof.
  intros H. destruct xs as [|a xs]; [congruence|].
  apply not_0_INR. discriminate.
Qed.

Lemma length_deviations (xs : list R) : length (Stat.deviations xs) = length xs.
Proof. apply length_map. Qed.

Lemma variance_nonneg (xs : list R) : 0 <= Stat.variance xs.
Proof.
  unfold Stat.variance. destruct xs as [|a xs].
  - unfold Stat.deviations. simpl. rewrite dot_nil_l. unfold Rdiv. lra.
  - apply Rmult_le_pos; [apply dot_self_nonneg|].
    left. apply Rinv_0_lt_compat. apply lt_0_INR. simpl. lia.
Qed.

Lemma stdev_nonneg (xs : list R) : 0 <= Stat.stdev xs.
Proof. apply sqrt_pos. Qed.

Lemma stdev_zero_variance (xs : list R) : Stat.stdev xs = 0 <-> Stat.variance xs = 0.
Proof.
  unfold Stat.stdev. split; intros H.
  - apply sqrt_eq_0; [apply variance_nonneg | exact H].
  - rewrite H. apply sqrt_0.
Qed.

Lemma average_constant (a : R) (xs : list R) :
  xs <> [] -> Forall (fun v => v = a) xs -> Stat.average xs = a.
Proof.
  intros Hne Hall. unfold Stat.average.
  assert (Ht : Stat.total xs = INR (length xs) * a).
  { clear Hne. induction Hall as [|v xs Hv _ IH]; [simpl; lra|].
    change (Stat.total (v :: xs)) with (v + Stat.total xs).
    rewrite IH, Hv. cbn [length]. rewrite S_INR. ring. }
  rewrite Ht. field. apply INR_length_nonzero, Hne.
Qed.

(** The standard deviation vanishes exactly on the constant sequences. *)
Lemma stdev_zero_iff_constant (xs : list R) :
  Stat.stdev xs = 0 <-> Stat.constant xs.
Proof.
  rewrite stdev_zero_variance. unfold Stat.variance, Stat.constant.
  destruct xs as [|a xs].
  { split; [intros _ u v []|intros _]. unfold Stat.deviations. simpl.
    rewrite dot_nil_l. unfold Rdiv. lra. }
  set (l := a :: xs). assert (Hne : l <> []) by discriminate.
  pose proof (INR_length_nonzero l Hne) as Hn.
  split.
  - intros H.
    assert (H0 : Stat.dot (Stat.deviations l) (Stat.deviations l) = 0).
    { unfold Rdiv in H. apply Rmult_integral in H. destruct H as [H|H]; [exact H|].
      exfalso. exact (Rinv_neq_0_compat _ Hn H). }
    apply dot_self_zero in H0. unfold Stat.deviations in H0.
    rewrite Forall_map in H0. rewrite Forall_forall in H0.
    intros u v Hu Hv. pose proof (H0 u Hu). pose proof (H0 v Hv). simpl in *. lra.
  - intros Hc.
    assert (Hall : Forall (fun v => v = a) l).
    { apply Forall_forall. intros v Hv. apply Hc; [exact Hv | left; reflexivity]. }
    assert (Hd : Forall (fun d => d = 0) (Stat.deviations l)).
    { unfold Stat.deviations. rewrite Forall_map.
      rewrite (average_constant a l Hne Hall).
      eapply Forall_impl; [|exact Hall]. simpl. intros v ->. lra. }
    assert (H0 : Stat.dot (Stat.deviations l) (Stat.deviations l) = 0).
    { clear -Hd. induction Hd as [|d ds Hd0 _ IH]; [apply dot_nil_l|].
      rewrite dot_cons, IH, Hd0. lra. }
    rewrite H0. unfold Rdiv. lra.
Qed.

Lemma stdev_pos (xs : list R) : ~ Stat.constant xs -> 0 < Stat.stdev xs.
Proof.
  intros H. pose proof (stdev_nonneg xs) as Hp.
  destruct Hp as [Hp|Hp]; [exact Hp|].
  exfalso. apply H. apply stdev_zero_iff_constant. symmetry. exact Hp.
Qed.

Lemma not_constant_nonempty (xs : list R) : ~ Stat.constant xs -> xs <> [].
Proof. intros H ->. apply H. intros u v []. Qed.

(** The covariance is bounded by the product of the standard deviations. *)
Lemma covariance_bound (xs ys : list R) :
  length xs = length ys ->
  Stat.covariance xs ys * Stat.covariance xs ys
  <= Stat.variance xs * Stat.variance ys.
Proof.
  intros L. unfold Stat.covariance, Stat.variance. rewrite <- L.
  pose proof (cauchy_schwarz (Stat.deviations xs) (Stat.deviations ys)) as CS.
  set (c := Stat.dot (Stat.deviations xs) (Stat.deviations ys)) in *.
  set (p := Stat.dot (Stat.deviations xs) (Stat.deviations xs)) in *.
  set (q := Stat.dot (Stat.deviations ys) (Stat.deviations ys)) in *.
  unfold Rdiv.
  replace (c * / INR (length xs) * (c * / INR (length xs)))
    with ((c * c) * (/ INR (length xs) * / INR (length xs))) by ring.
  replace (p * / INR (length xs) * (q * / INR (length xs)))
    with ((p * q) * (/ INR (length xs) * / INR (length xs))) by ring.
  apply Rmult_le_compat_r; [|exact CS].
  pose proof (Rle_0_sqr (/ INR (length xs))) as H. unfold Rsqr in H. exact H.
Qed.

(** Pearson's coefficient lies between -1 and 1. *)
Lemma pearson_bounds (xs ys : list R) :
  length xs = length ys ->
  ~ Stat.constant xs -> ~ Stat.constant ys ->
  -1 <= Stat.pearson xs ys <= 1.
Proof.
  intros L Hx Hy.
  pose proof (stdev_pos xs Hx) as Px. pose proof (stdev_pos ys Hy) as Py.
  pose proof (covariance_bound xs ys L) as CB.
  assert (Vx : Stat.variance xs = Stat.stdev xs * Stat.stdev xs).
  { unfold Stat.stdev. rewrite sqrt_sqrt; [reflexivity | apply variance_nonneg]. }
  assert (Vy : Stat.variance ys = Stat.stdev ys * Stat.stdev ys).
  { unfold Stat.stdev. rewrite sqrt_sqrt; [reflexivity | apply variance_nonneg]. }
  rewrite Vx, Vy in CB.
  set (c := Stat.covariance xs ys) in *.
  set (s := Stat.stdev xs) in *. set (t := Stat.stdev ys) in *.
  assert (Pst : 0 < s * t) by (apply Rmult_lt_0_compat; assumption).
  assert (Hb : - (s * t) <= c <= s * t).
  { split; apply Rnot_lt_le; intros Hc.
    - assert ((s * t) * (s * t) < (- c) * (- c)) by (apply Rmult_le_0_lt_compat; lra).
      nra.
    - assert ((s * t) * (s * t) < c * c) by (apply Rmult_le_0_lt_compat; lra).
      nra. }
  unfold Stat.pearson. fold c s t. split.
  - apply (Rmult_le_reg_r (s * t)); [exact Pst|].
    unfold Rdiv. rewrite Rmult_assoc, Rinv_l by lra. lra.
  - apply (Rmult_le_reg_r (s * t)); [exact Pst|].
    unfold Rdiv. rewrite Rmult_assoc, Rinv_l by lra. lra.
Qed.

(** ** Float rows that hold numbers *)

Lemma sum_some (xs : list R) : Np.sum (map Some xs) = Some (Stat.total xs).
Proof.
  unfold Np.sum.
  assert (H : forall a, fold_left Float.add (map Some xs) (Some a)
                        = Some (a + Stat.total xs)).
  { induction xs as [|v xs IH]; intros a; simpl.
    - f_equal. lra.
    - rewrite IH. f_equal. unfold Stat.total. simpl. lra. }
  rewrite H. f_equal. lra.
Qed.

Lemma mean_nil : Np.mean [] = None.
Proof.
  unfold Np.mean, Np.sum, Float.of_nat, Float.div. simpl.
  destruct (Req_dec_T 0 0) as [_|H]; [reflexivity | exfalso; apply H; reflexivity].
Qed.

Lemma mean_some (xs : list R) :
  xs <> [] -> Np.mean (map Some xs) = Some (Stat.average xs).
Proof.
  intros Hne. unfold Np.mean. rewrite sum_some, length_map.
  unfold Float.of_nat, Float.div.
  destruct (Req_dec_T (INR (length xs)) 0) as [H|_].
  - exfalso. exact (INR_length_nonzero xs Hne H).
  - reflexivity.
Qed.

Lemma deviations_some (xs : list R) :
  xs <> [] -> Row.deviations (map Some xs) = map Some (Stat.deviations xs).
Proof.
  intros Hne. unfold Row.deviations, Stat.deviations.
  rewrite mean_some by exact Hne. rewrite !map_map. reflexivity.
Qed.

Lemma map2_some (op : R -> R -> R) (xs ys : list R) :
  map2 (Float.lift2 op) (map Some xs) (map Some ys)
  = map Some (map (fun p => op (fst p) (snd p)) (combine xs ys)).
Proof.
  unfold map2. rewrite combine_map_map, !map_map. reflexivity.
Qed.

Lemma combine_nonempty {A B : Type} (xs : list A) (ys : list B) :
  xs <> [] -> length xs = length ys -> combine xs ys <> [].
Proof. destruct xs, ys; simpl; congruence. Qed.

Lemma covariance_some (xs ys : list R) :
  xs <> [] -> length xs = length ys ->
  Row.covariance (map Some xs) (map Some ys) = Some (Stat.covariance xs ys).
Proof.
  intros Hne L.
  assert (Hney : ys <> []) by (destruct xs, ys; simpl in *; congruence).
  unfold Row.covariance. rewrite !deviations_some by assumption.
  unfold Float.mul. rewrite map2_some.
  set (dx := Stat.deviations xs). set (dy := Stat.deviations ys).
  assert (Ld : length dx = length dy).
  { unfold dx, dy. rewrite !length_deviations. exact L. }
  rewrite mean_some.
  2:{ intros E. apply map_eq_nil in E. revert E. apply combine_nonempty; [|exact Ld].
      unfold dx. intros E. apply Hne. apply map_eq_nil in E. exact E. }
  unfold Stat.average, Stat.covariance, Stat.dot. fold dx dy.
  rewrite length_map, length_combine, <- Ld, Nat.min_id.
  unfold dx. rewrite length_deviations. reflexivity.
Qed.

Lemma covariance_empty (ys : list num) : Row.covariance [] ys = None.
Proof. unfold Row.covariance. simpl. apply mean_nil. Qed.

Lemma combine_self {A : Type} (l : list A) : combine l l = map (fun a => (a, a)) l.
Proof. induction l; simpl; congruence. Qed.

Lemma std_some (xs : list R) :
  xs <> [] -> Np.std (map Some xs) = Some (Stat.stdev xs).
Proof.
  intros Hne. unfold Np.std. rewrite mean_some by exact Hne.
  rewrite map_map.
  assert (E : map (fun v => Float.square (Float.abs (Float.sub (Some v) (Some (Stat.average xs))))) xs
              = map Some (map (fun p => fst p * snd p)
                            (combine (Stat.deviations xs) (Stat.deviations xs)))).
  { rewrite combine_self, !map_map. unfold Stat.deviations. rewrite map_map.
    apply map_ext. intros v. simpl. f_equal.
    pose proof (Rsqr_abs (v - Stat.average xs)) as H. unfold Rsqr in H.
    symmetry. exact H. }
  rewrite E. rewrite mean_some.
  2:{ intros E0. apply map_eq_nil in E0. rewrite combine_self in E0.
      apply map_eq_nil in E0. apply map_eq_nil in E0. exact (Hne E0). }
  unfold Stat.average. rewrite length_map, length_combine, Nat.min_id, length_deviations.
  fold (Stat.dot (Stat.deviations xs) (Stat.deviations xs)).
  fold (Stat.variance xs). unfold Float.sqrt.
  destruct (Rlt_dec (Stat.variance xs) 0) as [H|_].
  - exfalso. pose proof (variance_nonneg xs). lra.
  - reflexivity.
Qed.

Lemma divisor_some (xs ys : list R) :
  xs <> [] -> ys <> [] ->
  Row.divisor (map Some xs) (map Some ys) = Some (Stat.stdev xs * Stat.stdev ys).
Proof.
  intros Hx Hy. unfold Row.divisor. rewrite !std_some by assumption. reflexivity.
Qed.

(** On rows of numbers with some spread the float computation is the
    real one. *)
Lemma pearson_some (xs ys : list R) :
  length xs = length ys ->
  Stat.stdev xs <> 0 -> Stat.stdev ys <> 0 ->
  Row.pearson (map Some xs) (map Some ys) = Some (Stat.pearson xs ys).
Proof.
  intros L Sx Sy.
  assert (Hx : xs <> []).
  { apply not_constant_nonempty. intros Hc. apply Sx, stdev_zero_iff_constant, Hc. }
  assert (Hy : ys <> []).
  { apply not_constant_nonempty. intros Hc. apply Sy, stdev_zero_iff_constant, Hc. }
  unfold Row.pearson. rewrite covariance_some, divisor_some by assumption.
  unfold Float.div.
  destruct (Req_dec_T (Stat.stdev xs * Stat.stdev ys) 0) as [H|_].
  - exfalso. apply Rmult_integral in H. tauto.
  - reflexivity.
Qed.

(** Without spread in one of the rows the divisor is zero and the
    result is nan. *)
Lemma pearson_none (xs ys : list R) :
  length xs = length ys ->
  Stat.stdev xs * Stat.stdev ys = 0 ->
  Row.pearson (map Some xs) (map Some ys) = None.
Proof.
  intros L H0. unfold Row.pearson.
  destruct xs as [|a xs].
  - simpl. rewrite covariance_empty. reflexivity.
  - assert (Hx : a :: xs <> []) by discriminate.
    assert (Hy : ys <> []) by (destruct ys; simpl in *; congruence).
    rewrite covariance_some, divisor_some by assumption.
    unfold Float.div.
    destruct (Req_dec_T (Stat.stdev (a :: xs) * Stat.stdev ys) 0) as [_|H].
    + reflexivity.
    + contradiction.
Qed.

(** ** Ranks *)

Lemma total_consecutive (a m : nat) :
  Stat.total (map INR (seq a m)) = INR m * INR a + INR m * (INR m - 1) / 2.
Proof.
  revert a. induction m as [|m IH]; intros a.
  - simpl. lra.
  - cbn [seq map]. change (Stat.total (INR a :: map INR (seq (S a) m)))
      with (INR a + Stat.total (map INR (seq (S a) m))).
    rewrite IH, !S_INR. field.
Qed.

Lemma count_eq_pos (xs : list R) (v : R) : In v xs -> (1 <= Bottleneck.count_eq xs v)%nat.
Proof.
  unfold Bottleneck.count_eq. induction xs as [|w xs IH]; intros H; [destruct H|].
  simpl. unfold Bottleneck.Reqb at 1.
  destruct (Req_dec_T w v) as [E|N]; simpl; [lia|].
  destruct H as [H|H]; [contradiction | exact (IH H)].
Qed.

(** The average of the ranks of a tie group is its middle rank. *)
Lemma rank_of_fractional (xs : list R) (v : R) :
  In v xs -> Bottleneck.rank_of xs v = Stat.fractional_rank xs v.
Proof.
  intros H. unfold Bottleneck.rank_of, Bottleneck.tie_ranks, Stat.fractional_rank.
  fold (Stat.total (map INR (seq (S (Bottleneck.count_lt xs v)) (Bottleneck.count_eq xs v)))).
  rewrite total_consecutive, length_map, length_seq, S_INR.
  pose proof (count_eq_pos xs v H) as Hp. apply le_INR in Hp. simpl in Hp.
  field. lra.
Qed.

Lemma rank_row_ranks (xs : list R) : Bottleneck.rank_row xs = Stat.ranks xs.
Proof.
  unfold Bottleneck.rank_row, Stat.ranks. apply map_ext_in.
  intros v Hv. apply rank_of_fractional, Hv.
Qed.

Lemma length_ranks (xs : list R) : length (Stat.ranks xs) = length xs.
Proof. apply length_map. Qed.

Lemma count_lt_cons (w : R) (xs : list R) (v : R) :
  Bottleneck.count_lt (w :: xs) v
  = ((if Rlt_dec w v then 1 else 0) + Bottleneck.count_lt xs v)%nat.
Proof.
  unfold Bottleneck.count_lt. simpl. unfold Bottleneck.Rltb at 1.
  destruct (Rlt_dec w v); reflexivity.
Qed.

Lemma count_eq_cons (w : R) (xs : list R) (v : R) :
  Bottleneck.count_eq (w :: xs) v
  = ((if Req_dec_T w v then 1 else 0) + Bottleneck.count_eq xs v)%nat.
Proof.
  unfold Bottleneck.count_eq. simpl. unfold Bottleneck.Reqb at 1.
  destruct (Req_dec_T w v); reflexivity.
Qed.

Lemma count_lt_step (xs : list R) (u v : R) :
  u < v ->
  (Bottleneck.count_lt xs u + Bottleneck.count_eq xs u <= Bottleneck.count_lt xs v)%nat.
Proof.
  intros Huv. induction xs as [|w xs IH]; [cbv; lia|].
  rewrite !count_lt_cons, count_eq_cons.
  destruct (Rlt_dec w u) as [A|A], (Req_dec_T w u) as [B|B], (Rlt_dec w v) as [C|C];
    cbn [Nat.add]; try lia; exfalso; try apply Rnot_lt_le in C; lra.
Qed.

(** A larger value has a larger rank. *)
Lemma fractional_rank_increasing (xs : list R) (u v : R) :
  In u xs -> u < v -> Stat.fractional_rank xs u < Stat.fractional_rank xs v.
Proof.
  intros Hu Huv. unfold Stat.fractional_rank.
  pose proof (count_lt_step xs u v Huv) as H1. apply le_INR in H1.
  rewrite plus_INR in H1.
  pose proof (count_eq_pos xs u Hu) as H2. apply le_INR in H2. simpl in H2.
  pose proof (pos_INR (Bottleneck.count_eq xs v)) as H3.
  lra.
Qed.

(** Ranking keeps the spread: the ranks of a sequence that is not
    constant are not constant. *)
Lemma ranks_not_constant (xs : list R) :
  ~ Stat.constant xs -> ~ Stat.constant (Stat.ranks xs).
Proof.
  intros Hnc Hc. apply Hnc. intros u v Hu Hv.
  assert (Hr : Stat.fractional_rank xs u = Stat.fractional_rank xs v).
  { apply Hc; unfold Stat.ranks; apply in_map; assumption. }
  destruct (Rtotal_order u v) as [Hlt|[Heq|Hgt]]; [|exact Heq|].
  - pose proof (fractional_rank_increasing xs u v Hu Hlt). lra.
  - pose proof (fractional_rank_increasing xs v u Hv Hgt). lra.
Qed.

Lemma ranks_constant (xs : list R) :
  Stat.constant xs -> Stat.constant (Stat.ranks xs).
Proof.
  intros Hc a b Ha Hb. unfold Stat.ranks in *.
  apply in_map_iff in Ha, Hb. destruct Ha as [u [<- Hu]], Hb as [v [<- Hv]].
  now rewrite (Hc u v Hu Hv).
Qed.

(** ** The two forms of Pearson's coefficient *)

Lemma sqrt_dot_zero_iff (xs : list R) :
  sqrt (Stat.dot (Stat.deviations xs) (Stat.deviations xs)) = 0 <-> Stat.stdev xs = 0.
Proof.
  rewrite stdev_zero_variance. unfold Stat.variance.
  set (p := Stat.dot (Stat.deviations xs) (Stat.deviations xs)).
  assert (Hp : 0 <= p) by apply dot_self_nonneg.
  destruct xs as [|a xs].
  - unfold p, Stat.deviations. simpl. rewrite dot_nil_l, sqrt_0. unfold Rdiv. lra.
  - assert (Hn : INR (length (a :: xs)) <> 0) by (apply INR_length_nonzero; discriminate).
    split; intros H.
    + apply sqrt_eq_0 in H; [|exact Hp]. rewrite H. unfold Rdiv. lra.
    + unfold Rdiv in H. apply Rmult_integral in H. destruct H as [H|H].
      * rewrite H. apply sqrt_0.
      * exfalso. exact (Rinv_neq_0_compat _ Hn H).
Qed.

Lemma pearson_sums_some (xs ys : list R) :
  length xs = length ys ->
  Stat.stdev xs <> 0 -> Stat.stdev ys <> 0 ->
  Stat.pearson_sums xs ys = Some (Stat.pearson xs ys).
Proof.
  intros L Sx Sy.
  assert (Hne : xs <> []).
  { apply not_constant_nonempty. intros Hc. apply Sx, stdev_zero_iff_constant, Hc. }
  unfold Stat.pearson_sums.
  destruct (Req_dec_T _ 0) as [H|_].
  { exfalso. apply Rmult_integral in H. destruct H as [H|H].
    - apply Sx, sqrt_dot_zero_iff, H.
    - apply Sy, sqrt_dot_zero_iff, H. }
  f_equal.
  unfold Stat.pearson, Stat.covariance.
  unfold Stat.stdev, Stat.variance in *. rewrite <- L in *.
  set (c := Stat.dot (Stat.deviations xs) (Stat.deviations ys)).
  set (p := Stat.dot (Stat.deviations xs) (Stat.deviations xs)) in *.
  set (q := Stat.dot (Stat.deviations ys) (Stat.deviations ys)) in *.
  set (n := INR (length xs)) in *.
  assert (Hn : 0 < n).
  { unfold n. apply lt_0_INR. destruct xs; [congruence | simpl; lia]. }
  assert (Hp : 0 <= p) by apply dot_self_nonneg.
  assert (Hq : 0 <= q) by apply dot_self_nonneg.
  unfold Rdiv in *.
  rewrite !sqrt_mult_alt in * by assumption.
  assert (Hs : sqrt (/ n) * sqrt (/ n) = / n).
  { apply sqrt_sqrt. left. apply Rinv_0_lt_compat, Hn. }
  assert (Hsn : sqrt (/ n) <> 0).
  { intros E. rewrite E in Hs. rewrite Rmult_0_l in Hs.
    pose proof (Rinv_0_lt_compat n Hn). lra. }
  assert (Hsp : sqrt p <> 0) by (intros E; apply Sx; rewrite E; ring).
  assert (Hsq : sqrt q <> 0) by (intros E; apply Sy; rewrite E; ring).
  assert (E : sqrt p * sqrt (/ n) * (sqrt q * sqrt (/ n)) = (sqrt p * sqrt q) * / n).
  { transitivity (sqrt p * sqrt q * (sqrt (/ n) * sqrt (/ n))); [ring|].
    rewrite Hs. reflexivity. }
  rewrite E. field. repeat split; try assumption. lra.
Qed.

Lemma pearson_sums_none (xs ys : list R) :
  Stat.stdev xs * Stat.stdev ys = 0 -> Stat.pearson_sums xs ys = None.
Proof.
  intros H. unfold Stat.pearson_sums.
  destruct (Req_dec_T _ 0) as [_|N]; [reflexivity|].
  exfalso. apply N. apply Rmult_integral in H. destruct H as [H|H].
  - apply sqrt_dot_zero_iff in H. rewrite H. ring.
  - apply sqrt_dot_zero_iff in H. rewrite H. ring.
Qed.

(** One row of the float computation against the sums-of-products
    form, whatever the spread. *)
Lemma row_pearson_sums (xs ys : list R) :
  length xs = length ys ->
  Row.pearson (map Some xs) (map Some ys) = Stat.pearson_sums xs ys.
Proof.
  intros L.
  destruct (Req_dec_T (Stat.stdev xs * Stat.stdev ys) 0) as [H|H].
  - rewrite pearson_none, pearson_sums_none by assumption. reflexivity.
  - assert (Sx : Stat.stdev xs <> 0) by (intros E; apply H; rewrite E; ring).
    assert (Sy : Stat.stdev ys <> 0) by (intros E; apply H; rewrite E; ring).
    rewrite pearson_some, pearson_sums_some by assumption. reflexivity.
Qed.

(** ** Arrays of numbers as arrays of floats *)

Lemma same_shape_nd_map {A A' B B' : Type} (f : A -> A') (g : B -> B') (k : nat) :
  forall (x : ndarray A k) (y : ndarray B k),
    same_shape k x y -> same_shape k (nd_map f k x) (nd_map g k y).
Proof.
  induction k as [|k IH]; intros x y H.
  - exact I.
  - rewrite same_shape_S in H. rewrite !nd_map_S, same_shape_S.
    apply Forall2_map_map. eapply Forall2_weaken; [|exact H]. exact IH.
Qed.

Lemma same_shape_nd_map_r {A B : Type} (g : A -> B) (k : nat) :
  forall x : ndarray A k, same_shape k x (nd_map g k x).
Proof.
  induction k as [|k IH]; intros x.
  - exact I.
  - rewrite nd_map_S, same_shape_S.
    rewrite <- (map_id x) at 1. apply Forall2_same_map. intros a _. apply IH.
Qed.

Lemma nd_map2_nd_map_r {A B C : Type} (op : A -> B -> C) (g : A -> B) (k : nat) :
  forall x : ndarray A k,
    nd_map2 op k x (nd_map g k x) = nd_map (fun v => op v (g v)) k x.
Proof.
  induction k as [|k IH]; intros x.
  - reflexivity.
  - rewrite nd_map_S, nd_map2_S, nd_map_S, combine_map_r_same, map_map.
    apply map_ext. intros a. apply IH.
Qed.

Lemma nd_all2_nd_map_r {A B : Type} (P : A -> B -> Prop) (g : A -> B) (k : nat) :
  forall x : ndarray A k,
    nd_all (fun v => P v (g v)) k x -> nd_all2 P k x (nd_map g k x).
Proof.
  induction k as [|k IH]; intros x H.
  - exact H.
  - rewrite nd_all_S in H. rewrite nd_map_S, nd_all2_S.
    rewrite <- (map_id x) at 1. apply Forall2_same_map.
    intros a Ha. apply IH. rewrite Forall_forall in H. exact (H a Ha).
Qed.

Lemma nd_all_weaken {A : Type} (P Q : A -> Prop) (k : nat) :
  (forall a, P a -> Q a) ->
  forall x : ndarray A k, nd_all P k x -> nd_all Q k x.
Proof.
  intros HPQ. induction k as [|k IH]; intros x H.
  - apply HPQ, H.
  - rewrite nd_all_S in *. eapply Forall_impl; [|exact H]. exact IH.
Qed.

Lemma nd_all_nd_map {A B : Type} (P : B -> Prop) (g : A -> B) (k : nat) :
  forall x : ndarray A k, nd_all (fun v => P (g v)) k x -> nd_all P k (nd_map g k x).
Proof.
  induction k as [|k IH]; intros x H.
  - exact H.
  - rewrite nd_all_S in H. rewrite nd_map_S, nd_all_S, Forall_map.
    eapply Forall_impl; [|exact H]. exact IH.
Qed.

Lemma rows_all_along_last {A B : Type} (P : list B -> Prop) (f : list A -> list B) (k : nat) :
  forall x : ndarray A (S k),
    rows_all (fun r => P (f r)) k x -> rows_all P k (Np.along_last f k x).
Proof.
  induction k as [|k IH]; intros x H.
  - exact H.
  - rewrite rows_all_S in H. rewrite along_last_S, rows_all_S, Forall_map.
    eapply Forall_impl; [|exact H]. exact IH.
Qed.

Lemma rows_all_weaken {A : Type} (P Q : list A -> Prop) (k : nat) :
  (forall r, P r -> Q r) ->
  forall x : ndarray A (S k), rows_all P k x -> rows_all Q k x.
Proof.
  intros HPQ. induction k as [|k IH]; intros x H.
  - apply HPQ, H.
  - rewrite rows_all_S in *. eapply Forall_impl; [|exact H]. exact IH.
Qed.

(** Arrays of one shape, row by row of one length, with what is known
    of the rows of each. *)
Lemma rows_of_equal_shape {A : Type} (P Q : list A -> Prop) (k : nat) (sh : list nat)
    (x y : ndarray A (S k)) :
  has_shape sh (S k) x -> has_shape sh (S k) y ->
  rows_all P k x -> rows_all Q k y ->
  rows_all2 (fun r1 r2 => length r1 = length r2 /\ P r1 /\ Q r2) k x y.
Proof.
  intros Hx Hy HP HQ.
  pose proof (same_shape_rows_all2 k x y (has_shape_same_shape _ sh x y Hx Hy)) as H.
  pose proof (rows_all2_right _ Q k x y H HQ) as H1.
  pose proof (rows_all2_left _ P k x y H1 HP) as H2.
  eapply rows_all2_weaken; [|exact H2]. cbv beta. tauto.
Qed.

Lemma rows_all_trivial {A : Type} (k : nat) :
  forall x : ndarray A (S k), rows_all (fun _ => True) k x.
Proof.
  induction k as [|k IH]; intros x.
  - exact I.
  - rewrite rows_all_S. apply Forall_forall. intros a _. apply IH.
Qed.

(** The gufuncs on arrays of numbers of one shape, one pair of rows at
    a time. *)
Lemma pearson_of_numbers (k : nat) (sh : list nat) (x y : ndarray R (S k)) :
  has_shape sh (S k) x -> has_shape sh (S k) y ->
  pearson_correlation_gufunc (as_float x) (as_float y)
  = Ok (zip_last Stat.pearson_sums k x y).
Proof.
  intros Hx Hy.
  rewrite pearson_correlation_gufunc_rows.
  2:{ apply same_shape_nd_map. exact (has_shape_same_shape _ sh x y Hx Hy). }
  unfold as_float. rewrite zip_last_nd_map. f_equal.
  apply (zip_last_ext (fun r1 r2 => length r1 = length r2)).
  - intros r1 r2 L. apply row_pearson_sums, L.
  - apply same_shape_rows_all2. exact (has_shape_same_shape _ sh x y Hx Hy).
Qed.

Lemma has_shape_along_last {A B : Type} (f : list A -> list B) (k : nat) :
  (forall r, length (f r) = length r) ->
  forall (sh : list nat) (x : ndarray A (S k)),
    has_shape sh (S k) x -> has_shape sh (S k) (Np.along_last f k x).
Proof.
  intros Hf. induction k as [|k IH]; intros sh x H.
  - destruct sh as [|n sh]; [destruct H|]. destruct H as [L [E F]].
    apply length_zero_iff_nil in E. subst sh.
    split; [|split].
    + change (Np.along_last f 0 x) with (f x). rewrite Hf. exact L.
    + reflexivity.
    + apply Forall_forall. intros; exact I.
  - destruct sh as [|n sh]; [destruct H|]. destruct H as [L [E F]].
    rewrite along_last_S. split; [|split].
    + rewrite length_map. exact L.
    + exact E.
    + rewrite Forall_map. eapply Forall_impl; [|exact F]. intros a. apply IH.
Qed.

Lemma spearman_of_numbers (k : nat) (sh : list nat) (x y : ndarray R (S k)) :
  has_shape sh (S k) x -> has_shape sh (S k) y ->
  spearman_correlation_gufunc x y = Ok (zip_last Stat.spearman k x y).
Proof.
  intros Hx Hy. unfold spearman_correlation_gufunc, Bottleneck.rankdata.
  rewrite (pearson_of_numbers k sh).
  - rewrite zip_last_along_last. f_equal.
    apply (zip_last_ext (fun _ _ => True)).
    + intros r1 r2 _. unfold Stat.spearman. now rewrite !rank_row_ranks.
    + eapply rows_all2_weaken;
        [|exact (same_shape_rows_all2 k x y (has_shape_same_shape _ sh x y Hx Hy))].
      intros; exact I.
  - apply has_shape_along_last; [|exact Hx].
    intros r. apply length_map.
  - apply has_shape_along_last; [|exact Hy].
    intros r. apply length_map.
Qed.

(** ** The gufuncs in binary64, one pair of rows at a time *)

Lemma same_shape_reduce_last {A B C D : Type} (f : list A -> C) (g : list B -> D) (k : nat) :
  forall (x : ndarray A (S k)) (y : ndarray B (S k)),
    same_shape (S k) x y ->
    same_shape k (Np.reduce_last f k x) (Np.reduce_last g k y).
Proof.
  induction k as [|k IH]; intros x y Hs.
  - exact I.
  - rewrite same_shape_S in Hs. rewrite !reduce_last_S, same_shape_S.
    apply Forall2_map_map. eapply Forall2_weaken; [|exact Hs]. exact IH.
Qed.

Lemma b64_covariance_gufunc_rows (k : nat) (x y : ndarray PrimFloat.float (S k)) :
  same_shape (S k) x y ->
  B64.covariance_gufunc x y = Ok (zip_last B64.row_covariance k x y).
Proof.
  intros Hs. unfold B64.covariance_gufunc.
  rewrite !broadcast_keepdims. cbn [bind].
  rewrite broadcast_same_shape.
  2:{ apply same_shape_along_last; [|exact Hs].
      intros r1 r2 H. now rewrite !length_map. }
  cbn [bind].
  rewrite nd_map2_along_last, reduce_last_zip_along. reflexivity.
Qed.

Lemma b64_pearson_divisor_rows (k : nat) (x y : ndarray PrimFloat.float (S k)) :
  same_shape (S k) x y ->
  B64.pearson_divisor x y
  = Ok (zip_last (fun r1 r2 => PrimFloat.mul (B64.std r1) (B64.std r2)) k x y).
Proof.
  intros Hs. unfold B64.pearson_divisor.
  rewrite broadcast_same_shape by (apply same_shape_reduce_last; exact Hs).
  rewrite nd_map2_reduce_last. reflexivity.
Qed.

Lemma b64_pearson_correlation_gufunc_rows (k : nat) (x y : ndarray PrimFloat.float (S k)) :
  same_shape (S k) x y ->
  B64.pearson_correlation_gufunc x y = Ok (zip_last B64.row_pearson k x y).
Proof.
  intros Hs. unfold B64.pearson_correlation_gufunc.
  rewrite b64_covariance_gufunc_rows, b64_pearson_divisor_rows by exact Hs.
  cbn [bind].
  rewrite broadcast_same_shape by apply same_shape_zip_last.
  rewrite nd_map2_zip_last. reflexivity.
Qed.

(** ** Where binary64 parts from exact arithmetic *)

(** Underflow: the row [0, 1e-200] is not constant, and its standard
    deviation is zero. *)
Lemma b64_underflow :
  rows_all (fun r => B64.constant r = false) 1 B64.tiny
  /\ rows_all (fun r => B64.constant r = false) 1 B64.unit_step
  /\ Np.reduce_last B64.std 1 B64.tiny = [PrimFloat.zero]
  /\ B64.pearson_divisor B64.tiny B64.unit_step = Ok [PrimFloat.zero]
  /\ B64.pearson_correlation_gufunc B64.tiny B64.unit_step = Ok [PrimFloat.infinity].
Proof. repeat split; repeat constructor. Qed.

(** Overflow: the standard deviation of the row [1e200, 2e200, 3e200]
    is an infinity, and its correlation with itself is nan. *)
Lemma b64_overflow :
  rows_all (fun r => forallb B64.number r = true) 1 B64.huge
  /\ rows_all (fun r => PrimFloat.eqb (B64.std r) PrimFloat.zero = false) 1 B64.huge
  /\ Np.reduce_last B64.std 1 B64.huge = [PrimFloat.infinity]
  /\ B64.covariance_gufunc B64.huge B64.huge = Ok [PrimFloat.infinity]
  /\ B64.pearson_correlation_gufunc B64.huge B64.huge = Ok [PrimFloat.nan].
Proof. repeat split; repeat constructor. Qed.

(** Rounding: the mean of the row [0.1, 0.1, 0.1] is not 0.1, and its
    standard deviation is not zero. *)
Lemma b64_rounding :
  rows_all (fun r => B64.constant r = true) 1 B64.tenths
  /\ rows_all (fun r => PrimFloat.eqb (B64.std r) PrimFloat.zero = false) 1 B64.tenths
  /\ B64.pearson_correlation_gufunc B64.tenths B64.tenths = Ok [PrimFloat.one].
Proof. repeat split; repeat constructor. Qed.

(** A constant row whose mean is exact. *)
Lemma b64_flat :
  rows_all (fun r => B64.constant r = true) 1 B64.flat
  /\ B64.pearson_divisor B64.flat B64.flat = Ok [PrimFloat.zero]
  /\ B64.pearson_correlation_gufunc B64.flat B64.flat = Ok [PrimFloat.nan].
Proof. repeat split; repeat constructor. Qed.

(** ** The sample data *)

Lemma sample_x_shape : has_shape [2; 3]%nat 2 sample_x.
Proof. repeat (split || constructor). Qed.

Lemma sample_y_shape : has_shape [2; 3]%nat 2 sample_y.
Proof. repeat (split || constructor). Qed.

Lemma not_constant_witness (xs : list R) (u v : R) :
  In u xs -> In v xs -> u <> v -> ~ Stat.constant xs.
Proof. intros Hu Hv Huv Hc. exact (Huv (Hc u v Hu Hv)). Qed.

Lemma sample_x_spread : rows_all (fun r => ~ Stat.constant r) 1 sample_x.
Proof.
  repeat constructor.
  - apply (not_constant_witness _ 1 2); simpl; auto; lra.
  - apply (not_constant_witness _ 2 5); simpl; auto; lra.
Qed.

Lemma sample_y_spread : rows_all (fun r => ~ Stat.constant r) 1 sample_y.
Proof.
  repeat constructor.
  - apply (not_constant_witness _ 3 1); simpl; auto; lra.
  - apply (not_constant_witness _ 1 4); simpl; auto; lra.
Qed.

Lemma spread_stdev (k : nat) (x : ndarray R (S k)) :
  rows_all (fun r => ~ Stat.constant r) k x ->
  rows_all (fun r => Stat.stdev r <> 0) k x.
Proof.
  apply rows_all_weaken. intros r H E. apply H, stdev_zero_iff_constant, E.
Qed.

Lemma stdev_spread (k : nat) (x : ndarray R (S k)) :
  rows_all (fun r => Stat.stdev r <> 0) k x ->
  rows_all (fun r => ~ Stat.constant r) k x.
Proof.
  apply rows_all_weaken. intros r H E. apply H, stdev_zero_iff_constant, E.
Qed.

(** ** The correlation functions *)

(** C1: for arrays of numbers of one shape, [spearman_correlation_gufunc]
    is [pearson_correlation_gufunc] applied to the ranks of its
    arguments along the last axis, and what it returns for each pair of
    rows is Spearman's rank correlation coefficient of the two rows. *)
Theorem spearman_is_pearson_of_ranks (k : nat) (sh : list nat) (x y : ndarray R (S k)) :
  has_shape sh (S k) x -> has_shape sh (S k) y ->
  spearman_correlation_gufunc x y
  = pearson_correlation_gufunc (as_float (Bottleneck.rankdata x))
                               (as_float (Bottleneck.rankdata y))
  /\ spearman_correlation_gufunc x y = Ok (zip_last Stat.spearman k x y).
Proof.
  intros Hx Hy. split.
  - reflexivity.
  - exact (spearman_of_numbers k sh x y Hx Hy).
Qed.

Lemma spearman_is_pearson_of_ranks_witness :
  has_shape [2; 3]%nat 2 sample_x /\ has_shape [2; 3]%nat 2 sample_y /\
  (spearman_correlation_gufunc sample_x sample_y
   = pearson_correlation_gufunc (as_float (Bottleneck.rankdata sample_x))
                                (as_float (Bottleneck.rankdata sample_y))
   /\ spearman_correlation_gufunc sample_x sample_y
      = Ok (zip_last Stat.spearman 1 sample_x sample_y)).
Proof.
  split; [exact sample_x_shape|]. split; [exact sample_y_shape|].
  exact (spearman_is_pearson_of_ranks 1 [2; 3]%nat sample_x sample_y
           sample_x_shape sample_y_shape).
Defined.

Lemma covariance_of_numbers (k : nat) (sh : list nat) (x y : ndarray R (S k)) :
  has_shape sh (S k) x -> has_shape sh (S k) y ->
  rows_all (fun r => r <> []) k x ->
  covariance_gufunc (as_float x) (as_float y)
  = Ok (as_float (zip_last Stat.covariance k x y)).
Proof.
  intros Hx Hy Hne.
  rewrite covariance_gufunc_rows.
  2:{ apply same_shape_nd_map. exact (has_shape_same_shape _ sh x y Hx Hy). }
  unfold as_float. rewrite zip_last_nd_map, nd_map_zip_last. f_equal.
  apply (zip_last_ext (fun r1 r2 => length r1 = length r2 /\ r1 <> [] /\ True)).
  - intros r1 r2 [L [N _]]. apply covariance_some; assumption.
  - apply (rows_of_equal_shape _ _ k sh); try assumption. apply rows_all_trivial.
Qed.

Lemma pearson_of_spread (k : nat) (sh : list nat) (x y : ndarray R (S k)) :
  has_shape sh (S k) x -> has_shape sh (S k) y ->
  rows_all (fun r => Stat.stdev r <> 0) k x ->
  rows_all (fun r => Stat.stdev r <> 0) k y ->
  pearson_correlation_gufunc (as_float x) (as_float y)
  = Ok (as_float (zip_last Stat.pearson k x y)).
Proof.
  intros Hx Hy Sx Sy.
  rewrite (pearson_of_numbers k sh) by assumption.
  unfold as_float. rewrite nd_map_zip_last. f_equal.
  apply (zip_last_ext (fun r1 r2 => length r1 = length r2
                                    /\ Stat.stdev r1 <> 0 /\ Stat.stdev r2 <> 0)).
  - intros r1 r2 [L [S1 S2]]. apply pearson_sums_some; assumption.
  - apply (rows_of_equal_shape _ _ k sh); assumption.
Qed.

(** In binary64 the quotient is not always a number, although the rows
    are numbers and no standard deviation is zero: the squares of the
    deviations of [1e200, 2e200, 3e200] overflow, the covariance and
    the standard deviation are infinities, and the result is nan. *)
Lemma pearson_of_large_numbers_is_nan :
  rows_all (fun r => forallb B64.number r = true) 1 B64.huge
  /\ rows_all (fun r => PrimFloat.eqb (B64.std r) PrimFloat.zero = false) 1 B64.huge
  /\ B64.pearson_correlation_gufunc B64.huge B64.huge = Ok [PrimFloat.nan]
  /\ ~ B64.quotient_is_a_number.
Proof.
  destruct b64_overflow as [N [S [_ [_ P]]]].
  split; [exact N|]. split; [exact S|]. split; [exact P|].
  assert (Hs : same_shape 2 B64.huge B64.huge)
    by (repeat split; repeat constructor).
  intros H.
  specialize (H 1%nat B64.huge B64.huge [PrimFloat.nan] Hs N N S S P).
  apply Forall_inv in H. vm_compute in H. discriminate H.
Qed.

(** C4, amended.  Over exact real arithmetic, for arrays of numbers of
    one shape whose rows have a nonzero standard deviation,
    [covariance_gufunc] returns for each pair of rows the mean of the
    products of their deviations from their means (the population
    covariance), and [pearson_correlation_gufunc] returns that
    covariance divided by the product of the two population standard
    deviations.  In binary64, for all arrays of one shape, the two
    functions return the same expressions with each operation rounded;
    the value is then not always a correlation coefficient: on
    [1e200, 2e200, 3e200], whose standard deviation overflows, it is
    nan, and on [0, 1e-200] against [0, 1], where the divisor
    underflows to zero, it is an infinity. *)
Theorem pearson_is_covariance_over_deviations :
  (forall (k : nat) (sh : list nat) (x y : ndarray R (S k)),
      has_shape sh (S k) x -> has_shape sh (S k) y ->
      rows_all (fun r => Stat.stdev r <> 0) k x ->
      rows_all (fun r => Stat.stdev r <> 0) k y ->
      covariance_gufunc (as_float x) (as_float y)
      = Ok (as_float (zip_last Stat.covariance k x y))
      /\ pearson_correlation_gufunc (as_float x) (as_float y)
         = Ok (as_float (zip_last Stat.pearson k x y)))
  /\ (forall (k : nat) (x y : ndarray PrimFloat.float (S k)),
         same_shape (S k) x y ->
         B64.covariance_gufunc x y = Ok (zip_last B64.row_covariance k x y)
         /\ B64.pearson_correlation_gufunc x y = Ok (zip_last B64.row_pearson k x y))
  /\ (Np.reduce_last B64.std 1 B64.huge = [PrimFloat.infinity]
      /\ B64.pearson_correlation_gufunc B64.huge B64.huge = Ok [PrimFloat.nan])
  /\ (B64.pearson_divisor B64.tiny B64.unit_step = Ok [PrimFloat.zero]
      /\ B64.pearson_correlation_gufunc B64.tiny B64.unit_step
         = Ok [PrimFloat.infinity]).
Proof.
  split; [|split; [|split]].
  - intros k sh x y Hx Hy Sx Sy. split.
    + apply (covariance_of_numbers k sh); try assumption.
      eapply rows_all_weaken; [|exact Sx].
      intros r H. apply not_constant_nonempty. intros Hc.
      apply H, stdev_zero_iff_constant, Hc.
    + exact (pearson_of_spread k sh x y Hx Hy Sx Sy).
  - intros k x y Hs. split.
    + exact (b64_covariance_gufunc_rows k x y Hs).
    + exact (b64_pearson_correlation_gufunc_rows k x y Hs).
  - destruct b64_overflow as [_ [_ [S [_ P]]]]. split; assumption.
  - destruct b64_underflow as [_ [_ [_ [D P]]]]. split; assumption.
Qed.

Lemma pearson_is_covariance_over_deviations_witness :
  (has_shape [2; 3]%nat 2 sample_x /\ has_shape [2; 3]%nat 2 sample_y /\
   rows_all (fun r => Stat.stdev r <> 0) 1 sample_x /\
   rows_all (fun r => Stat.stdev r <> 0) 1 sample_y /\
   (covariance_gufunc (as_float sample_x) (as_float sample_y)
    = Ok (as_float (zip_last Stat.covariance 1 sample_x sample_y))
    /\ pearson_correlation_gufunc (as_float sample_x) (as_float sample_y)
       = Ok (as_float (zip_last Stat.pearson 1 sample_x sample_y))))
  /\ (same_shape 2 B64.steps B64.turned /\
      (B64.covariance_gufunc B64.steps B64.turned
       = Ok (zip_last B64.row_covariance 1 B64.steps B64.turned)
       /\ B64.pearson_correlation_gufunc B64.steps B64.turned
          = Ok (zip_last B64.row_pearson 1 B64.steps B64.turned))).
Proof.
  split.
  - split; [exact sample_x_shape|]. split; [exact sample_y_shape|].
    split; [exact (spread_stdev 1 sample_x sample_x_spread)|].
    split; [exact (spread_stdev 1 sample_y sample_y_spread)|].
    exact (proj1 pearson_is_covariance_over_deviations 1%nat [2; 3]%nat sample_x sample_y
             sample_x_shape sample_y_shape
             (spread_stdev 1 sample_x sample_x_spread)
             (spread_stdev 1 sample_y sample_y_spread)).
  - assert (Hs : same_shape 2 B64.steps B64.turned)
      by (repeat split; repeat constructor).
    split; [exact Hs|].
    exact (proj1 (proj2 pearson_is_covariance_over_deviations) 1%nat
             B64.steps B64.turned Hs).
Defined.

Lemma divisor_of_numbers (k : nat) (sh : list nat) (x y : ndarray R (S k)) :
  has_shape sh (S k) x -> has_shape sh (S k) y ->
  rows_all (fun r => r <> []) k x ->
  pearson_divisor (as_float x) (as_float y)
  = Ok (as_float (zip_last (fun r1 r2 => Stat.stdev r1 * Stat.stdev r2) k x y)).
Proof.
  intros Hx Hy Hne.
  rewrite pearson_divisor_rows.
  2:{ apply same_shape_nd_map. exact (has_shape_same_shape _ sh x y Hx Hy). }
  unfold as_float. rewrite zip_last_nd_map, nd_map_zip_last. f_equal.
  apply (zip_last_ext (fun r1 r2 => length r1 = length r2 /\ r1 <> [] /\ True)).
  - intros r1 r2 [L [N _]]. apply divisor_some; [exact N|].
    destruct r1, r2; simpl in L; congruence.
  - apply (rows_of_equal_shape _ _ k sh); try assumption. apply rows_all_trivial.
Qed.

Lemma sample_flat_shape : has_shape [1; 2]%nat 2 sample_flat.
Proof. repeat (split || constructor). Qed.

Lemma sample_flat_constant : rows_all Stat.constant 1 sample_flat.
Proof.
  repeat constructor. intros u v Hu Hv. simpl in Hu, Hv.
  destruct Hu as [<-|[<-|[]]], Hv as [<-|[<-|[]]]; reflexivity.
Qed.




(** ** Range of the coefficients and the mask *)

Lemma mask_below_one_map (k : nat) (s : ndarray num k) :
  mask_below_one s
  = Ok (nd_map (fun v => if Float.ltb v (Some 1) then v else None) k s).
Proof.
  unfold mask_below_one, Xr.where_, Xr.lt_scalar.
  rewrite broadcast_same_shape by apply same_shape_nd_map_r.
  rewrite nd_map2_nd_map_r. reflexivity.
Qed.

Lemma masked_at_one_in_unit (v : num) :
  in_unit_interval v ->
  masked_at_one v (if Float.ltb v (Some 1) then v else None).
Proof.
  intros [r [-> [_ Hr]]]. unfold masked_at_one, Float.ltb.
  destruct (Rlt_dec r 1) as [H|H].
  - right. split; [|reflexivity]. intros E. injection E as E. lra.
  - left. split; [|reflexivity]. f_equal. lra.
Qed.

Lemma spearman_bounds (xs ys : list R) :
  length xs = length ys ->
  ~ Stat.constant xs -> ~ Stat.constant ys ->
  in_unit_interval (Stat.spearman xs ys).
Proof.
  intros L Cx Cy. unfold Stat.spearman.
  pose proof (ranks_not_constant xs Cx) as Rx.
  pose proof (ranks_not_constant ys Cy) as Ry.
  assert (Lr : length (Stat.ranks xs) = length (Stat.ranks ys)).
  { rewrite !length_ranks. exact L. }
  rewrite pearson_sums_some.
  - eexists. split; [reflexivity|]. apply pearson_bounds; assumption.
  - exact Lr.
  - intros E. apply Rx, stdev_zero_iff_constant, E.
  - intros E. apply Ry, stdev_zero_iff_constant, E.
Qed.

(** C7: over the reals, for arrays of one shape none of whose rows is
    constant, every value returned by [pearson_correlation_gufunc] and
    by [spearman_correlation_gufunc] is a number between -1 and 1, and
    [corr.where(corr < 1)] turns into nan the values equal to 1 and
    leaves every other value as it is. *)
Theorem correlation_within_unit_interval
    (k : nat) (sh : list nat) (x y : ndarray R (S k)) :
  has_shape sh (S k) x -> has_shape sh (S k) y ->
  rows_all (fun r => ~ Stat.constant r) k x ->
  rows_all (fun r => ~ Stat.constant r) k y ->
  exists p s m : ndarray num k,
    pearson_correlation_gufunc (as_float x) (as_float y) = Ok p
    /\ nd_all in_unit_interval k p
    /\ spearman_correlation_gufunc x y = Ok s
    /\ nd_all in_unit_interval k s
    /\ mask_below_one s = Ok m
    /\ nd_all2 masked_at_one k s m.
Proof.
  intros Hx Hy Cx Cy.
  pose proof (rows_of_equal_shape _ _ k sh x y Hx Hy Cx Cy) as Hrows.
  assert (Hs : nd_all in_unit_interval k (zip_last Stat.spearman k x y)).
  { apply (nd_all_zip_last
             (fun r1 r2 => length r1 = length r2
                           /\ ~ Stat.constant r1 /\ ~ Stat.constant r2));
      [|exact Hrows].
    intros r1 r2 [L [C1 C2]]. apply spearman_bounds; assumption. }
  eexists. eexists. eexists.
  split; [exact (pearson_of_numbers k sh x y Hx Hy)|].
  split.
  { apply (nd_all_zip_last
             (fun r1 r2 => length r1 = length r2
                           /\ ~ Stat.constant r1 /\ ~ Stat.constant r2));
      [|exact Hrows].
    intros r1 r2 [L [C1 C2]].
    rewrite pearson_sums_some.
    - eexists. split; [reflexivity|]. apply pearson_bounds; assumption.
    - exact L.
    - intros E. apply C1, stdev_zero_iff_constant, E.
    - intros E. apply C2, stdev_zero_iff_constant, E. }
  split; [exact (spearman_of_numbers k sh x y Hx Hy)|].
  split; [exact Hs|].
  split; [apply mask_below_one_map|].
  apply nd_all2_nd_map_r.
  eapply nd_all_weaken; [|exact Hs]. exact masked_at_one_in_unit.
Qed.

Lemma correlation_within_unit_interval_witness :
  has_shape [2; 3]%nat 2 sample_x /\ has_shape [2; 3]%nat 2 sample_y /\
  rows_all (fun r => ~ Stat.constant r) 1 sample_x /\
  rows_all (fun r => ~ Stat.constant r) 1 sample_y /\
  exists p s m : ndarray num 1,
    pearson_correlation_gufunc (as_float sample_x) (as_float sample_y) = Ok p
    /\ nd_all in_unit_interval 1 p
    /\ spearman_correlation_gufunc sample_x sample_y = Ok s
    /\ nd_all in_unit_interval 1 s
    /\ mask_below_one s = Ok m
    /\ nd_all2 masked_at_one 1 s m.
Proof.
  split; [exact sample_x_shape|]. split; [exact sample_y_shape|].
  split; [exact sample_x_spread|]. split; [exact sample_y_spread|].
  exact (correlation_within_unit_interval 1 [2; 3]%nat sample_x sample_y
           sample_x_shape sample_y_shape sample_x_spread sample_y_spread).
Defined.

(** ** Symmetry *)

Lemma combine_swap {A B : Type} (l1 : list A) (l2 : list B) :
  combine l2 l1 = map (fun p => (snd p, fst p)) (combine l1 l2).
Proof.
  revert l2. induction l1 as [|a l1 IH]; intros [|b l2]; simpl; try reflexivity.
  now rewrite IH.
Qed.

Lemma float_mul_comm (a b : num) : Float.mul a b = Float.mul b a.
Proof.
  destruct a, b; simpl; try reflexivity. f_equal. ring.
Qed.

(** Broadcasting does not depend on the order of the operands of a
    commutative operation, exceptions included. *)
Lemma broadcast_comm {A C : Type} (op : A -> A -> C) (k : nat) :
  (forall a b, op a b = op b a) ->
  forall x y : ndarray A k, Np.broadcast op k x y = Np.broadcast op k y x.
Proof.
  intros Hop. induction k as [|k IH].
  - intros x y. simpl. f_equal. apply Hop.
  - change (forall x y : list (ndarray A k),
               Np.broadcast op (S k) x y = Np.broadcast op (S k) y x).
    intros x y. rewrite !broadcast_S.
    rewrite (Nat.eqb_sym (length y) (length x)).
    destruct (Nat.eqb (length x) (length y)) eqn:E.
    + rewrite (combine_swap x y), map_map. f_equal.
      apply map_ext. intros p. cbn [fst snd]. apply IH.
    + assert (Hmap : forall (l : list (ndarray A k)) (z : ndarray A k),
                 map (fun xi => Np.broadcast op k xi z) l
                 = map (fun xi => Np.broadcast op k z xi) l).
      { intros l z. apply map_ext. intros a. apply IH. }
      destruct x as [|x0 [|x1 x]], y as [|y0 [|y1 y]];
        try reflexivity; try (simpl in E; discriminate);
        try (rewrite Hmap; reflexivity); try (rewrite <- Hmap; reflexivity).
Qed.

Lemma covariance_gufunc_comm (k : nat) (x y : ndarray num (S k)) :
  covariance_gufunc x y = covariance_gufunc y x.
Proof.
  unfold covariance_gufunc.
  destruct (Np.subtract x (Np.mean_last_keepdims x)) as [dx|[]],
           (Np.subtract y (Np.mean_last_keepdims y)) as [dy|[]];
    cbn [bind]; try reflexivity.
  unfold Np.multiply. rewrite (broadcast_comm Float.mul (S k) float_mul_comm dx dy).
  reflexivity.
Qed.

Lemma pearson_correlation_gufunc_comm (k : nat) (x y : ndarray num (S k)) :
  pearson_correlation_gufunc x y = pearson_correlation_gufunc y x.
Proof.
  unfold pearson_correlation_gufunc, pearson_divisor, Np.multiply.
  rewrite (covariance_gufunc_comm k x y).
  rewrite (broadcast_comm Float.mul k float_mul_comm (Np.std_last x) (Np.std_last y)).
  reflexivity.
Qed.

(** C8: [covariance_gufunc], [pearson_correlation_gufunc] and
    [spearman_correlation_gufunc] are symmetric in their two arguments:
    exchanging the arguments changes neither the values nor the
    exception. *)
Theorem gufuncs_symmetric (k : nat) :
  (forall x y : ndarray num (S k),
      covariance_gufunc x y = covariance_gufunc y x
      /\ pearson_correlation_gufunc x y = pearson_correlation_gufunc y x)
  /\ (forall x y : ndarray R (S k),
         spearman_correlation_gufunc x y = spearman_correlation_gufunc y x).
Proof.
  split.
  - intros x y. split.
    + apply covariance_gufunc_comm.
    + apply pearson_correlation_gufunc_comm.
  - intros x y. unfold spearman_correlation_gufunc.
    apply pearson_correlation_gufunc_comm.
Qed.

(** * The notebook as a program *)

(** ** Running a block one statement at a time *)

Lemma run_step {object : Type} (lib : Py.library object) T s l st :
  fst (Py.exec_block lib T (s :: l)) st =
  Py.and_then (fst (Py.exec lib T s) st)
              (fst (Py.exec_block lib (snd (Py.exec lib T s)) l)).
Proof.
  cbn [Py.exec_block]. unfold Py.and_then.
  destruct (Py.exec lib T s) as [c T1]. cbn [fst snd].
  destruct (Py.exec_block lib T1 l) as [c' T2].
  cbn [fst snd]. unfold Py.seq, Py.bind.
  destruct (c st) as [[[|h]|e] st']; reflexivity.
Qed.

(** The branches of a statement, one for each outcome of each entry
    into the library. *)
Ltac outcomes raises :=
  vm_compute;
  repeat match goal with
  | |- context [match raises ?n ?ev with _ => _ end] =>
      destruct (raises n ev); vm_compute
  end.

Ltac settle := vm_compute; repeat (split || constructor).

(** What a run does next depends on the objects of the heap through
    their number only: between two statements they are forgotten, each
    replaced by an object about which nothing is known. *)
Ltac forget_objects h :=
  lazymatch h with
  | ?o :: ?h' =>
      tryif is_var o then idtac else (generalize o; intro);
      forget_objects h'
  | _ => idtac
  end.

Ltac forget_heap object :=
  lazymatch goal with
  | |- context [{| Py.globals := _; Py.locals := _; Py.heap := ?h; Py.log := _ |}] =>
      forget_objects h;
      repeat match goal with
      | o : object |- _ => clear o
      end
  | |- _ => idtac
  end.

Ltac propagate object raises :=
  rewrite run_step;
  match goal with
  | |- Py.unhandled (Py.and_then _ ?K) =>
      let k := fresh "k" in
      let U := fresh "U" in
      remember K as k;
      remember (@Py.unhandled) as U;
      outcomes raises;
      subst U; subst k;
      match goal with
      | |- Py.unhandled (Py.Raised _, _) => settle
      | |- _ => forget_heap object
      end
  end.

(** Whatever the libraries do, no exception is handled in a run of the
    notebook. *)
Lemma notebook_unhandled (object : Type) (lib : Py.library object) :
  Py.unhandled (Py.run lib Py.notebook).
Proof.
  destruct lib as [raises atom collect result store touch].
  unfold Py.run, Py.run_block.
  let l := eval vm_compute in (List.concat Py.notebook) in
  change (List.concat Py.notebook) with l.
  repeat propagate object raises.
  settle.
Qed.

Lemma unhandled_spelled_out {object : Type} (r : Py.answer Py.flow * Py.state object) :
  Py.unhandled r ->
  (forall e, fst r = Py.Raised e
             <-> exists en, In en (Py.log (snd r)) /\ Py.result_of en = Py.Raises e)
  /\ (forall before en after,
         Py.log (snd r) = before ++ en :: after ->
         Py.result_of en <> Py.Returns ->
         after = []
         /\ Py.names en = length (Py.globals (snd r))
         /\ Py.objects en = length (Py.heap (snd r))
         /\ fst r = Py.Raised match Py.result_of en with
                              | Py.Raises e => e
                              | Py.Returns => Py.LibraryError 0
                              end).
Proof.
  destruct r as [a st]. unfold Py.unhandled. cbn [fst snd].
  destruct a as [f|e].
  - (* nothing raised: every entry returned *)
    intros H. rewrite Forall_forall in H.
    split.
    + intros e. split; [discriminate|].
      intros [en [Hin Hen]]. apply in_rev in Hin.
      specialize (H en Hin). unfold Py.returned in H. congruence.
    + intros before en after Hlog Hen. exfalso. apply Hen.
      apply (H en). rewrite <- in_rev. rewrite Hlog. apply in_elt.
  - destruct (rev (Py.log st)) as [|last rest] eqn:E; [intros []|].
    intros [Hlast [Hnames [Hobjects Hrest]]].
    assert (Hlog : Py.log st = rev rest ++ [last]).
    { rewrite <- (rev_involutive (Py.log st)), E. reflexivity. }
    rewrite Forall_forall in Hrest.
    split.
    + intros e'. split.
      * intros He. injection He as <-. exists last. split; [|exact Hlast].
        rewrite Hlog. apply in_elt.
      * intros [en [Hin Hen]]. rewrite Hlog in Hin. apply in_app_or in Hin.
        destruct Hin as [Hin|[<-|[]]].
        -- rewrite <- in_rev in Hin. specialize (Hrest en Hin).
           unfold Py.returned in Hrest. congruence.
        -- congruence.
    + intros before en after Hl Hen. rewrite Hlog in Hl.
      destruct after as [|a after].
      * apply app_inj_tail in Hl. destruct Hl as [_ <-].
        rewrite Hlast. auto.
      * exfalso. apply Hen. apply (Hrest en). rewrite (in_rev rest).
        change (en :: a :: after) with ([en] ++ a :: after) in Hl.
        rewrite app_assoc in Hl.
        destruct (exists_last (l := a :: after)) as [mid [z Hz]]; [discriminate|].
        rewrite Hz, app_assoc in Hl. apply app_inj_tail in Hl.
        destruct Hl as [Hl _]. rewrite Hl. apply in_or_app. left.
        apply in_or_app. right. left. reflexivity.
Qed.


(** ** The order of the steps *)

Lemma existsb_nth_error {A : Type} (eq_dec : forall x y : A, {x = y} + {x <> y})
    (a : A) (l : list A) (i : nat) :
  nth_error l i = Some a ->
  existsb (fun y => if eq_dec y a then true else false) l = true.
Proof.
  revert i. induction l as [|x l IH]; intros [|i] H; simpl in H; try discriminate.
  - injection H as ->. simpl. destruct (eq_dec a a); [reflexivity | contradiction].
  - simpl. rewrite (IH i H). apply orb_true_r.
Qed.

Lemma precedesb_sound {A : Type} (eq_dec : forall x y : A, {x = y} + {x <> y})
    (a b : A) (l : list A) :
  Flow.precedesb eq_dec a b l = true -> Flow.precedes a b l.
Proof.
  induction l as [|x l IH]; intros H i j Hi Hj.
  - destruct i; discriminate.
  - cbn [Flow.precedesb] in H. apply andb_prop in H. destruct H as [Hx Hl].
    destruct j as [|j].
    + simpl in Hj. injection Hj as ->.
      destruct (eq_dec b b) as [_|N]; [|contradiction].
      rewrite (existsb_nth_error eq_dec a (b :: l) i Hi) in Hx. discriminate.
    + destruct i as [|i]; [lia|].
      simpl in Hi, Hj. specialize (IH Hl i j Hi Hj). lia.
Qed.

Ltac in_order eq_dec := apply (precedesb_sound eq_dec); vm_compute; reflexivity.

Section Program.

Local Open Scope string_scope.

Lemma steps_out_of_flow_order : ~ Flow.in_flow_order Flow.steps.
Proof.
  intros [_ [H _]].
  (* the mask [where], after [visualize] *)
  assert (C : (36 < 21)%nat) by (apply H; reflexivity).
  lia.
Qed.

(** ** What is the notebook's own *)

Lemma notebook_calls_its_own_function : ~ Flow.only_library_calls Py.notebook.
Proof.
  intros [H _]. rewrite Forall_forall in H.
  specialize (H (Py.CallLocal "spearman_correlation")).
  assert (E : Py.is_library (Py.CallLocal "spearman_correlation") = true).
  { apply H. apply (nth_error_In _ 33). reflexivity. }
  discriminate.
Qed.

(** C2, amended: every operation of the cells of the notebook is an
    entry into a library, except the call of [spearman_correlation],
    one of the four functions the notebook defines itself; the
    correlation is computed by these functions: a call of
    [spearman_correlation_gufunc] enters [rankdata] twice and then,
    through [pearson_correlation_gufunc] and [covariance_gufunc], the
    means, subtractions, products, standard deviations and the division
    of the arrays; on arrays of numbers of one shape what it returns is
    Spearman's rank correlation coefficient of each pair of rows. *)
Theorem correlation_is_the_notebooks_own :
  Flow.defined Flow.statements
  = ["covariance_gufunc"; "pearson_correlation_gufunc";
     "spearman_correlation_gufunc"; "spearman_correlation"]
  /\ Forall (fun ev => Py.is_library ev = true
                       \/ ev = Py.CallLocal "spearman_correlation") Flow.trace
  /\ skipn (List.length Flow.trace) (Py.events (snd (Py.run Py.silent Flow.probe)))
     = [Py.CallLocal "spearman_correlation_gufunc";
        Py.CallEntry "rankdata"; Py.CallEntry "rankdata";
        Py.CallLocal "pearson_correlation_gufunc";
        Py.CallLocal "covariance_gufunc";
        Py.CallEntry "mean"; Py.Operator Py.Sub;
        Py.CallEntry "mean"; Py.Operator Py.Sub;
        Py.Operator Py.Mult; Py.CallEntry "mean";
        Py.CallEntry "std"; Py.CallEntry "std"; Py.Operator Py.Mult;
        Py.Operator Py.Div]
  /\ (forall (k : nat) (sh : list nat) (x y : ndarray R (S k)),
         has_shape sh (S k) x -> has_shape sh (S k) y ->
         spearman_correlation_gufunc x y = Ok (zip_last Stat.spearman k x y)).
Proof.
  split; [reflexivity|]. split; [|split; [reflexivity|]].
  - vm_compute.
    repeat (constructor; [first [left; reflexivity | right; reflexivity]|]).
    constructor.
  - exact spearman_of_numbers.
Qed.

Lemma correlation_is_the_notebooks_own_witness :
  has_shape [2; 3]%nat 2 sample_x /\ has_shape [2; 3]%nat 2 sample_y /\
  spearman_correlation_gufunc sample_x sample_y
  = Ok (zip_last Stat.spearman 1 sample_x sample_y).
Proof.
  split; [exact sample_x_shape|]. split; [exact sample_y_shape|].
  exact (proj2 (proj2 (proj2 correlation_is_the_notebooks_own))
           1%nat [2; 3]%nat sample_x sample_y sample_x_shape sample_y_shape).
Defined.

End Program.

Section Frames.

Local Open Scope string_scope.

(** ** Objects changed where they are *)

Lemma prefix_state_nil {object : Type} (lib : Py.library object) T st n :
  Flow.prefix_state lib T [] st n = st.
Proof. unfold Flow.prefix_state. destruct n; reflexivity. Qed.

Lemma prefix_state_0 {object : Type} (lib : Py.library object) T l st :
  Flow.prefix_state lib T l st 0 = st.
Proof. reflexivity. Qed.

Lemma prefix_state_S {object : Type} (lib : Py.library object) T s l st n :
  Flow.prefix_state lib T (s :: l) st (S n)
  = match fst (Py.exec lib T s) st with
    | (Py.Value Py.Continue, st') =>
        Flow.prefix_state lib (snd (Py.exec lib T s)) l st' n
    | (_, st') => st'
    end.
Proof.
  unfold Flow.prefix_state. cbn [firstn]. rewrite run_step. unfold Py.and_then.
  destruct (fst (Py.exec lib T s) st) as [[[|h]|e] st']; reflexivity.
Qed.

(** What [frames] says of the states between the statements. *)
Lemma frames_between {object : Type} (lib : Py.library object) (data : object -> Prop) :
  forall l T st,
    Flow.frames lib data T l st ->
    forall n h o,
      nth_error (Py.heap (Flow.prefix_state lib T l st n)) h = Some o ->
      data o ->
      nth_error (Py.heap (Flow.prefix_state lib T l st (S n))) h = Some o
      \/ (nth_error l n = Some Flow.reset_index
          /\ Py.assoc "y" (Py.globals (Flow.prefix_state lib T l st n)) = Some h
          /\ exists k v,
               nth_error (Py.heap (Flow.prefix_state lib T l st (S n))) h
               = Some (Py.store lib o k v)).
Proof.
  induction l as [|s l IH]; intros T st F n h o H D.
  - rewrite prefix_state_nil in *. left. exact H.
  - cbn [Flow.frames] in F. destruct F as [Fs Fl].
    destruct n as [|n].
    + rewrite prefix_state_0 in *. rewrite prefix_state_S.
      assert (E : match fst (Py.exec lib T s) st with
                  | (Py.Value Py.Continue, st') =>
                      Flow.prefix_state lib (snd (Py.exec lib T s)) l st' 0
                  | (_, st') => st'
                  end = snd (fst (Py.exec lib T s) st)).
      { destruct (fst (Py.exec lib T s) st) as [[[|h']|e] st']; reflexivity. }
      rewrite E. destruct (Fs h o H D) as [K|[Es [Ey C]]].
      * left. exact K.
      * right. split; [|split; assumption]. cbn [nth_error]. now f_equal.
    + rewrite !prefix_state_S in *.
      destruct (fst (Py.exec lib T s) st) as [[[|h']|e] st'];
        cbn [fst snd] in Fl; [|left; exact H|left; exact H].
      cbn [nth_error]. exact (IH _ _ Fl n h o H D).
Qed.

(** *** What keeps the datasets and arrays

    For a library that leaves the datasets and arrays as they are,
    every step of the interpreter does as well, the item assignment
    apart: by induction on the syntax, for any program. *)

Section Keeping.

Variable object : Type.
Variable lib : Py.library object.
Variable data : object -> Prop.
Hypothesis respectful : Flow.respects lib data.

Lemma kept_refl (st : Py.state object) : Flow.kept data st st.
Proof. intros h o H _. exact H. Qed.

Lemma kept_trans (st1 st2 st3 : Py.state object) :
  Flow.kept data st1 st2 -> Flow.kept data st2 st3 -> Flow.kept data st1 st3.
Proof. intros K1 K2 h o H D. exact (K2 h o (K1 h o H D) D). Qed.

Lemma nth_error_grown {A : Type} (l l' : list A) (h : nat) (a : A) :
  nth_error l h = Some a -> nth_error (l ++ l') h = Some a.
Proof.
  intros H. rewrite nth_error_app1; [exact H|].
  apply nth_error_Some. congruence.
Qed.

Lemma nth_error_touched (f : nat -> object -> object) (l : list object) :
  forall i h o,
    nth_error l h = Some o ->
    nth_error (Py.touched object f i l) h = Some (f (i + h)%nat o).
Proof.
  induction l as [|a l IH]; intros i [|h] o H; cbn in H; try discriminate.
  - injection H as ->. cbn. now rewrite Nat.add_0_r.
  - cbn [Py.touched nth_error]. rewrite (IH (S i) h o H).
    do 2 f_equal. lia.
Qed.

Lemma nth_error_respected (n : nat) (ev : Py.event) (hs : list nat)
    (l : list object) (h : nat) (o : object) :
  nth_error l h = Some o -> data o ->
  nth_error (Py.touched object (Py.touch lib n ev hs) 0 l) h = Some o.
Proof.
  intros H D. rewrite (nth_error_touched _ l 0 h o H). cbn [Nat.add].
  now rewrite respectful.
Qed.

Lemma quiet_ret {A : Type} (a : A) : Flow.quiet data (Py.ret object a).
Proof. intros st. split; [apply kept_refl | auto]. Qed.

Lemma quiet_bind {A B : Type} (c : Py.M object A) (k : A -> Py.M object B) :
  Flow.quiet data c -> (forall a, Flow.quiet data (k a)) ->
  Flow.quiet data (Py.bind object c k).
Proof.
  intros Hc Hk st. unfold Py.bind. pose proof (Hc st) as [K L].
  destruct (c st) as [[a|e] st1]; cbn [snd] in *.
  - destruct (Hk a st1) as [K' L']. split.
    + exact (kept_trans _ _ _ K K').
    + intros N. exact (L' (L N)).
  - split; assumption.
Qed.

Lemma quiet_alloc_of (g : Py.state object -> object) :
  Flow.quiet data (fun st => Py.alloc object (g st) st).
Proof.
  intros st. split.
  - intros h o H _. cbn. apply nth_error_grown, H.
  - auto.
Qed.

Lemma quiet_alloc (o : object) : Flow.quiet data (Py.alloc object o).
Proof. exact (quiet_alloc_of (fun _ => o)). Qed.

Lemma quiet_lookup (x : String.string) : Flow.quiet data (Py.lookup object lib x).
Proof.
  intros st. unfold Py.lookup.
  destruct (match Py.locals st with Some l => Py.assoc x l | None => None end).
  - split; [apply kept_refl | auto].
  - destruct (Py.assoc x (Py.globals st)).
    + split; [apply kept_refl | auto].
    + destruct (existsb (String.eqb x) (Py.builtins)).
      * apply (quiet_alloc _ st).
      * split; [apply kept_refl | auto].
Qed.

Lemma quiet_bind_name (x : String.string) (h : nat) :
  Flow.quiet data (Py.bind_name object x h).
Proof.
  intros st. unfold Py.bind_name. destruct (Py.locals st) eqn:E.
  - split; [intros h' o H _; exact H | discriminate].
  - split; [intros h' o H _; exact H | auto].
Qed.

Lemma quiet_enter (ev : Py.event) (hs : list nat) :
  Flow.quiet data (Py.enter object lib ev hs).
Proof.
  intros st. unfold Py.enter. cbv zeta.
  destruct (Py.raises lib (length (Py.log st)) ev).
  - split.
    + intros h o H D. cbn. apply nth_error_grown, nth_error_respected; assumption.
    + auto.
  - split; [intros h o H _; exact H | auto].
Qed.

Lemma quiet_sequence {A : Type} (cs : list (Py.M object A)) :
  (forall c, In c cs -> Flow.quiet data c) -> Flow.quiet data (Py.sequence object cs).
Proof.
  induction cs as [|c cs IH]; intros H; cbn [Py.sequence].
  - apply quiet_ret.
  - apply quiet_bind; [apply H; left; reflexivity|]. intros a.
    apply quiet_bind; [apply IH; intros c' Hc; apply H; right; exact Hc|].
    intros r. apply quiet_ret.
Qed.

Lemma quiet_sequence_map {A B : Type} (f : A -> Py.M object B) (l : list A) :
  (forall a, In a l -> Flow.quiet data (f a)) ->
  Flow.quiet data (Py.sequence object (map f l)).
Proof.
  intros H. apply quiet_sequence. intros c Hc.
  apply in_map_iff in Hc. destruct Hc as [a [<- Ha]]. exact (H a Ha).
Qed.

Lemma quiet_call_local (f : String.string) (params : list String.string)
    (body : Py.M object Py.flow) :
  Flow.quiet data body ->
  forall args, Flow.quiet data (Py.call_local object lib f params body args).
Proof.
  intros Hb args st. unfold Py.call_local. cbv zeta.
  match goal with
  | |- context [body ?s] => pose proof (Hb s) as [K _]; destruct (body s) as [[[|h]|e] st']
  end; cbn [snd Py.heap Py.locals] in *.
  - split; [|auto]. intros h o H D. cbn. apply nth_error_grown. exact (K h o H D).
  - split; [|auto]. intros h' o H D. exact (K h' o H D).
  - split; [|auto]. intros h o H D. exact (K h o H D).
Qed.

Lemma quiet_skip : Flow.quiet data (Py.skip object).
Proof. apply quiet_ret. Qed.

Lemma quiet_seq (c1 c2 : Py.M object Py.flow) :
  Flow.quiet data c1 -> Flow.quiet data c2 -> Flow.quiet data (Py.seq object c1 c2).
Proof.
  intros H1 H2. unfold Py.seq. apply quiet_bind; [exact H1|].
  intros [|h]; [exact H2 | apply quiet_ret].
Qed.

Lemma quiet_catch (body handler : Py.M object Py.flow) :
  Flow.quiet data body -> Flow.quiet data handler ->
  Flow.quiet data (Py.catch object body handler).
Proof.
  intros Hb Hh st. unfold Py.catch. pose proof (Hb st) as [K L].
  destruct (body st) as [[f|e] st1]; cbn [snd] in *.
  - split; assumption.
  - destruct (Hh st1) as [K' L']. split.
    + exact (kept_trans _ _ _ K K').
    + intros N. exact (L' (L N)).
Qed.

Lemma in_list_sum {A : Type} (g : A -> nat) (l : list A) (a : A) :
  In a l -> (g a <= list_sum (map g l))%nat.
Proof.
  induction l as [|b l IH]; intros H; [destruct H|].
  cbn [map list_sum fold_right]. destruct H as [->|H]; [lia|].
  specialize (IH H). unfold list_sum in IH. lia.
Qed.

Lemma eval_call (T : Py.table object) (f : Py.expr) (args : list Py.expr)
    (keywords : list (String.string * Py.expr)) :
  Py.eval object lib T (Py.Call f args keywords) =
  let arguments :=
    Py.bind object (Py.sequence object (map (Py.eval object lib T) args))
      (fun hs =>
         Py.bind object
           (Py.sequence object (map (fun kw => Py.eval object lib T (snd kw)) keywords))
           (fun ks => Py.ret object (hs ++ ks)%list)) in
  match f with
  | Py.Name x =>
      Py.bind object (Py.lookup object lib x)
        (fun hf =>
           Py.bind object arguments
             (fun hs =>
                match Py.find object x T with
                | Some c => c hs
                | None => Py.enter object lib (Py.CallEntry x) (hf :: hs)
                end))
  | Py.Attribute v m =>
      Py.bind object (Py.eval object lib T v)
        (fun hv =>
           Py.bind object arguments
             (fun hs => Py.enter object lib (Py.CallEntry m) (hv :: hs)))
  | _ =>
      Py.bind object (Py.eval object lib T f)
        (fun hf =>
           Py.bind object arguments
             (fun hs => Py.enter object lib (Py.CallEntry "__call__") (hf :: hs)))
  end.
Proof. destruct f; reflexivity. Qed.

(** Expressions keep the datasets and arrays. *)
Lemma quiet_eval_below (T : Py.table object) :
  Flow.good data T ->
  forall n e, (Flow.expr_size e < n)%nat -> Flow.quiet data (Py.eval object lib T e).
Proof.
  intros G. induction n as [|n IH]; intros e Hn; [lia|].
  destruct e as [x|s|z| |items|elts|v a|v k|f args keywords|l op r].
  - apply quiet_lookup.
  - apply quiet_alloc.
  - apply quiet_alloc.
  - apply quiet_alloc.
  - cbn [Py.eval]. cbn [Flow.expr_size] in Hn.
    apply quiet_bind.
    { apply quiet_sequence_map. intros kv Hin. apply IH.
      pose proof (in_list_sum
                    (fun kv => Flow.expr_size (fst kv) + Flow.expr_size (snd kv))%nat
                    items kv Hin) as B.
      cbv beta in B. lia. }
    intros ks. apply quiet_bind.
    { apply quiet_sequence_map. intros kv Hin. apply IH.
      pose proof (in_list_sum
                    (fun kv => Flow.expr_size (fst kv) + Flow.expr_size (snd kv))%nat
                    items kv Hin) as B.
      cbv beta in B. lia. }
    intros vs.
    apply (quiet_alloc_of (fun st => Py.collect lib (Py.fetch object st (ks ++ vs)))).
  - cbn [Py.eval]. cbn [Flow.expr_size] in Hn.
    apply quiet_bind.
    { apply quiet_sequence_map. intros a Hin. apply IH.
      pose proof (in_list_sum Flow.expr_size elts a Hin). lia. }
    intros hs. apply (quiet_alloc_of (fun st => Py.collect lib (Py.fetch object st hs))).
  - cbn [Py.eval]. cbn [Flow.expr_size] in Hn.
    apply quiet_bind; [apply IH; lia|]. intros h. apply quiet_enter.
  - cbn [Py.eval]. cbn [Flow.expr_size] in Hn.
    apply quiet_bind; [apply IH; lia|]. intros hv.
    apply quiet_bind; [apply IH; lia|]. intros hk. apply quiet_enter.
  - rewrite eval_call. cbn [Flow.expr_size] in Hn.
    match goal with
    | |- Flow.quiet data (let arguments := ?c in _) =>
        assert (A : Flow.quiet data c)
    end.
    { apply quiet_bind.
      { apply quiet_sequence_map. intros a Hin. apply IH.
        pose proof (in_list_sum Flow.expr_size args a Hin). lia. }
      intros hs. apply quiet_bind.
      { apply quiet_sequence_map. intros kw Hin. apply IH.
        pose proof (in_list_sum (fun kw => Flow.expr_size (snd kw)) keywords kw Hin) as B.
        cbv beta in B. lia. }
      intros ks. apply quiet_ret. }
    cbv zeta.
    assert (Hf : Flow.quiet data (Py.eval object lib T f)) by (apply IH; lia).
    destruct f;
      try (apply quiet_bind; [exact Hf|]; intros hf;
           apply quiet_bind; [exact A|]; intros hs; apply quiet_enter).
    + apply quiet_bind; [apply quiet_lookup|]. intros hf.
      apply quiet_bind; [exact A|]. intros hs.
      destruct (Py.find object id T) as [c|] eqn:E.
      * exact (G id c E hs).
      * apply quiet_enter.
    + apply quiet_bind; [apply IH; cbn [Flow.expr_size] in Hn; lia|]. intros hv.
      apply quiet_bind; [exact A|]. intros hs. apply quiet_enter.
  - cbn [Py.eval]. cbn [Flow.expr_size] in Hn.
    apply quiet_bind; [apply IH; lia|]. intros hl.
    apply quiet_bind; [apply IH; lia|]. intros hr. apply quiet_enter.
Qed.

Lemma quiet_eval (T : Py.table object) (e : Py.expr) :
  Flow.good data T -> Flow.quiet data (Py.eval object lib T e).
Proof.
  intros G.
  exact (quiet_eval_below T G (S (Flow.expr_size e)) e (Nat.lt_succ_diag_r _)).
Qed.

(** The body of a function or of a [try], as [exec] runs it. *)
Lemma block_exec_block :
  forall (l : list Py.stmt) (T : Py.table object),
    (fix block (T0 : Py.table object) (l0 : list Py.stmt) {struct l0}
       : Py.M object Py.flow :=
       match l0 with
       | [] => Py.skip object
       | s' :: l' =>
           let (c', T1) := Py.exec lib T0 s' in Py.seq object c' (block T1 l')
       end) T l
    = fst (Py.exec_block lib T l).
Proof.
  induction l as [|s l IH]; intros T; [reflexivity|].
  cbn [Py.exec_block]. destruct (Py.exec lib T s) as [c T1].
  rewrite IH. destruct (Py.exec_block lib T1 l) as [c' T2]. reflexivity.
Qed.

Lemma existsb_false_in {A : Type} (f : A -> bool) (l : list A) (a : A) :
  existsb f l = false -> In a l -> f a = false.
Proof.
  intros H Ha. destruct (f a) eqn:E; [|reflexivity].
  rewrite <- H. symmetry. apply existsb_exists. exists a. split; assumption.
Qed.

Lemma quiet_block_below (n : nat) :
  (forall s T, (Flow.stmt_size s < n)%nat -> Flow.assigns_item s = false ->
               Flow.good data T ->
               Flow.quiet data (fst (Py.exec lib T s))
               /\ Flow.good data (snd (Py.exec lib T s))) ->
  forall l T,
    (forall s, In s l -> (Flow.stmt_size s < n)%nat /\ Flow.assigns_item s = false) ->
    Flow.good data T ->
    Flow.quiet data (fst (Py.exec_block lib T l))
    /\ Flow.good data (snd (Py.exec_block lib T l)).
Proof.
  intros IH. induction l as [|s l IHl]; intros T Hl G.
  - split; [apply quiet_skip | exact G].
  - cbn [Py.exec_block].
    destruct (Hl s (or_introl eq_refl)) as [Hs Hp].
    destruct (IH s T Hs Hp G) as [Q1 G1].
    destruct (Py.exec lib T s) as [c T1]. cbn [fst snd] in Q1, G1.
    destruct (IHl T1 (fun s' H' => Hl s' (or_intror H')) G1) as [Q2 G2].
    destruct (Py.exec_block lib T1 l) as [c' T2]. cbn [fst snd] in *.
    split; [apply quiet_seq; assumption | exact G2].
Qed.

(** Statements without an item assignment keep the datasets and
    arrays, and so do the functions they define. *)
Lemma quiet_exec_below :
  forall n s T,
    (Flow.stmt_size s < n)%nat -> Flow.assigns_item s = false ->
    Flow.good data T ->
    Flow.quiet data (fst (Py.exec lib T s))
    /\ Flow.good data (snd (Py.exec lib T s)).
Proof.
  induction n as [|n IH]; intros s T Hn Hp G; [lia|].
  destruct s as [line|m x|m xs|x v|t k v|v|f params body|v|body handler];
    cbn [Py.exec fst snd].
  - split; [|exact G].
    apply quiet_bind; [apply quiet_enter|]. intros _. apply quiet_skip.
  - split; [|exact G].
    apply quiet_bind; [apply quiet_enter|]. intros h.
    apply quiet_bind; [apply quiet_bind_name|]. intros _. apply quiet_skip.
  - split; [|exact G].
    apply quiet_bind; [apply quiet_enter|]. intros hm.
    clear Hn Hp.
    induction xs as [|y xs IHx]; cbn [fold_right]; [apply quiet_skip|].
    apply quiet_bind; [apply quiet_enter|]. intros h.
    apply quiet_bind; [apply quiet_bind_name|]. intros _. exact IHx.
  - split; [|exact G].
    apply quiet_bind; [apply quiet_eval, G|]. intros h.
    apply quiet_bind; [apply quiet_bind_name|]. intros _. apply quiet_skip.
  - discriminate Hp.
  - split; [|exact G].
    apply quiet_bind; [apply quiet_eval, G|]. intros _. apply quiet_skip.
  - cbn [Flow.assigns_item] in Hp. cbn [Flow.stmt_size] in Hn. split.
    + apply quiet_bind; [apply quiet_alloc|]. intros h.
      apply quiet_bind; [apply quiet_bind_name|]. intros _. apply quiet_skip.
    + intros g c Hg args. cbn [Py.find] in Hg.
      destruct (String.eqb g f); [|exact (G g c Hg args)].
      injection Hg as <-. apply quiet_call_local.
      rewrite block_exec_block.
      apply (quiet_block_below n IH body T); [|exact G].
      intros s Hs. split; [|exact (existsb_false_in _ body s Hp Hs)].
      pose proof (in_list_sum Flow.stmt_size body s Hs). lia.
  - split; [|exact G].
    apply quiet_bind; [apply quiet_eval, G|]. intros h. apply quiet_ret.
  - cbn [Flow.assigns_item] in Hp. cbn [Flow.stmt_size] in Hn.
    apply orb_false_elim in Hp. destruct Hp as [Hb Hh].
    split; [|exact G]. rewrite !block_exec_block.
    apply quiet_catch.
    + apply (quiet_block_below n IH body T); [|exact G].
      intros s Hs. split; [|exact (existsb_false_in _ body s Hb Hs)].
      pose proof (in_list_sum Flow.stmt_size body s Hs). lia.
    + apply (quiet_block_below n IH handler T); [|exact G].
      intros s Hs. split; [|exact (existsb_false_in _ handler s Hh Hs)].
      pose proof (in_list_sum Flow.stmt_size handler s Hs). lia.
Qed.

Lemma quiet_exec (T : Py.table object) (s : Py.stmt) :
  Flow.assigns_item s = false -> Flow.good data T ->
  Flow.quiet data (fst (Py.exec lib T s))
  /\ Flow.good data (snd (Py.exec lib T s)).
Proof.
  intros Hp G.
  exact (quiet_exec_below (S (Flow.stmt_size s)) s T (Nat.lt_succ_diag_r _) Hp G).
Qed.

(** *** The item assignment *)

Lemma steady_bind {A B : Type} (c : Py.M object A) (k : A -> Py.M object B) :
  Flow.steady c -> (forall a, Flow.steady (k a)) -> Flow.steady (Py.bind object c k).
Proof.
  intros Hc Hk st. unfold Py.bind. pose proof (Hc st) as [E1 E2].
  destruct (c st) as [[a|e] st1]; cbn [snd] in *.
  - destruct (Hk a st1) as [E1' E2']. split; congruence.
  - split; assumption.
Qed.

Lemma steady_alloc (o : object) : Flow.steady (Py.alloc object o).
Proof. intros st. split; reflexivity. Qed.

Lemma steady_lookup (x : String.string) : Flow.steady (Py.lookup object lib x).
Proof.
  intros st. unfold Py.lookup.
  destruct (match Py.locals st with Some l => Py.assoc x l | None => None end);
    [split; reflexivity|].
  destruct (Py.assoc x (Py.globals st)); [split; reflexivity|].
  destruct (existsb (String.eqb x) (Py.builtins)); split; reflexivity.
Qed.

Lemma steady_enter (ev : Py.event) (hs : list nat) :
  Flow.steady (Py.enter object lib ev hs).
Proof.
  intros st. unfold Py.enter. cbv zeta.
  destruct (Py.raises lib (length (Py.log st)) ev); split; reflexivity.
Qed.

Lemma nth_error_replace_same (l : list object) :
  forall h a b, nth_error l h = Some a ->
                nth_error (Py.replace object h b l) h = Some b.
Proof.
  induction l as [|c l IH]; intros [|h] a b H; cbn in H; try discriminate.
  - reflexivity.
  - cbn [Py.replace nth_error]. exact (IH h a b H).
Qed.

Lemma nth_error_replace_other (l : list object) :
  forall h h' b, h <> h' ->
                 nth_error (Py.replace object h' b l) h = nth_error l h.
Proof.
  induction l as [|c l IH]; intros [|h] [|h'] b N; try reflexivity.
  - contradiction.
  - cbn [Py.replace nth_error]. apply IH. intros E. apply N. now f_equal.
Qed.

(** What an item assignment does to the datasets and arrays: the
    target becomes what the library makes of it, the others are
    kept. *)
Lemma set_item_changes (target key value : nat) (st : Py.state object) :
  let st' := snd (Py.set_item object lib target key value st) in
  (forall h o,
      nth_error (Py.heap st) h = Some o -> data o ->
      nth_error (Py.heap st') h = Some o
      \/ (h = target
          /\ exists k v, nth_error (Py.heap st') h = Some (Py.store lib o k v)))
  /\ Py.globals st' = Py.globals st /\ Py.locals st' = Py.locals st.
Proof.
  cbv zeta. unfold Py.set_item. cbv zeta.
  destruct (Py.raises lib (length (Py.log st)) Py.SetItem);
    [|split; [intros h o H _; left; exact H | split; reflexivity]].
  unfold Py.fetch. cbn [flat_map]. rewrite !app_nil_r.
  destruct (nth_error (Py.heap st) target) as [t|] eqn:Et;
    destruct (nth_error (Py.heap st) key) as [k|] eqn:Ek;
    destruct (nth_error (Py.heap st) value) as [v|] eqn:Ev;
    cbn [snd Py.heap Py.globals Py.locals];
    (split; [|split; reflexivity]); intros h o H D;
    try (left; apply nth_error_respected; assumption).
  destruct (Nat.eq_dec h target) as [->|N].
  - right. split; [reflexivity|]. exists k, v.
    assert (E : t = o) by congruence. subst t.
    apply (nth_error_replace_same _ target o).
    apply nth_error_respected; assumption.
  - left. rewrite nth_error_replace_other by exact N.
    apply nth_error_respected; assumption.
Qed.

Lemma reset_index_changes (T : Py.table object) (st : Py.state object) :
  Py.locals st = None ->
  Flow.changes lib data Flow.reset_index st
    (snd (fst (Py.exec lib T Flow.reset_index) st))
  /\ Py.locals (snd (fst (Py.exec lib T Flow.reset_index) st)) = None.
Proof.
  intros L. unfold Flow.reset_index. cbn [Py.exec fst].
  set (value := Py.eval object lib T (Py.Subscript (Py.Name "x") (Py.Str "time"))).
  assert (Qv : Flow.quiet data value /\ Flow.steady value).
  { unfold value. cbn [Py.eval]. split.
    - apply quiet_bind; [apply quiet_lookup|]. intros hv.
      apply quiet_bind; [apply quiet_alloc|]. intros hk. apply quiet_enter.
    - apply steady_bind; [apply steady_lookup|]. intros hv.
      apply steady_bind; [apply steady_alloc|]. intros hk. apply steady_enter. }
  destruct Qv as [Qv Sv].
  match goal with
  | |- Flow.changes _ _ _ _ (snd ?r) /\ _ => remember r as res eqn:Er
  end.
  unfold Py.bind at 1 in Er.
  destruct (Qv st) as [K1 _]. destruct (Sv st) as [G1 L1].
  destruct (value st) as [[hv|e] st1]; cbn [snd] in *.
  2:{ subst res. cbn [snd].
      split; [intros h o H D; left; exact (K1 h o H D) | congruence]. }
  cbn [Py.eval] in Er. unfold Py.bind at 1 in Er. unfold Py.lookup in Er.
  rewrite L1, L, G1 in Er.
  destruct (Py.assoc "y" (Py.globals st)) as [hy|] eqn:Ey.
  - unfold Py.bind at 1 in Er. cbn [Py.alloc] in Er.
    unfold Py.bind at 1 in Er.
    match type of Er with
    | context [Py.set_item object lib hy ?k hv ?s] =>
        pose proof (set_item_changes hy k hv s) as [C [_ L2]];
        destruct (Py.set_item object lib hy k hv s) as [[u|e] st3]
    end; cbn [snd Py.heap Py.locals] in *; subst res;
      unfold Py.skip, Py.ret; cbn [snd].
    + split; [|congruence].
      intros h o H D.
      destruct (C h o (nth_error_grown _ _ h o (K1 h o H D)) D) as [F|[-> F]].
      * left. exact F.
      * right. split; [reflexivity|]. split; [exact Ey | exact F].
    + split; [|congruence].
      intros h o H D.
      destruct (C h o (nth_error_grown _ _ h o (K1 h o H D)) D) as [F|[-> F]].
      * left. exact F.
      * right. split; [reflexivity|]. split; [exact Ey | exact F].
  - cbn in Er. subst res. cbn [snd].
    split; [intros h o H D; left; exact (K1 h o H D) | congruence].
Qed.

(** *** Statement after statement *)

Lemma frames_of_statements :
  forall (l : list Py.stmt) (T : Py.table object) (st : Py.state object),
    Forall (fun s => Flow.assigns_item s = false \/ s = Flow.reset_index) l ->
    Flow.good data T -> Py.locals st = None ->
    Flow.frames lib data T l st.
Proof.
  induction l as [|s l IH]; intros T st F G L; [exact I|].
  cbn [Flow.frames]. unfold Flow.step_frames.
  pose proof (Forall_inv F) as Fs. pose proof (Forall_inv_tail F) as Fl.
  destruct Fs as [Hp | ->].
  - destruct (quiet_exec T s Hp G) as [Q G1]. destruct (Q st) as [K L1].
    split.
    + intros h o H D. left. exact (K h o H D).
    + destruct (fst (Py.exec lib T s) st) as [[[|h]|e] st1]; cbn [fst snd] in *;
        try exact I.
      apply IH; auto.
  - destruct (reset_index_changes T st L) as [C L1]. split; [exact C|].
    destruct (fst (Py.exec lib T Flow.reset_index) st) as [[[|h]|e] st1];
      cbn [fst snd] in *; try exact I.
    apply IH; auto.
Qed.

End Keeping.

(** The statements of the notebook: one of them is an item assignment,
    none of the others has one inside. *)
Lemma statements_of_the_notebook :
  Forall (fun s => Flow.assigns_item s = false \/ s = Flow.reset_index)
         Flow.statements.
Proof.
  let l := eval vm_compute in Flow.statements in
  change Flow.statements with l.
  repeat (constructor; [first [left; reflexivity | right; reflexivity]|]).
  constructor.
Qed.

Lemma item_assignment_position (n : nat) :
  nth_error (map Flow.assigns_item Flow.statements) n = Some true -> n = 24%nat.
Proof.
  let l := eval vm_compute in (map Flow.assigns_item Flow.statements) in
  change (map Flow.assigns_item Flow.statements) with l.
  do 33 (destruct n as [|n]; [intros H; first [discriminate H | reflexivity]|]).
  destruct n; discriminate.
Qed.

(** For a library that leaves the datasets and arrays as they are, the
    statements of the notebook change none but the one behind [y],
    when its index is reset. *)
Lemma notebook_frames (object : Type) (lib : Py.library object) (data : object -> Prop) :
  Flow.respects lib data ->
  Flow.frames lib data [] Flow.statements Py.initial.
Proof.
  intros R. apply frames_of_statements.
  - exact R.
  - exact statements_of_the_notebook.
  - intros f c H. discriminate H.
  - reflexivity.
Qed.

Lemma toy_respects (data : Py.thing -> Prop) : Flow.respects Py.toy data.
Proof. intros n ev hs h o _. reflexivity. Qed.

Lemma index_reset_changes_an_object : ~ Flow.nothing_changes_in_place.
Proof.
  intros H.
  specialize (H Py.thing Py.toy Py.labelled (toy_respects _) 24%nat 59%nat
                (Py.Labelled [2; 0; 1]%Z [30; 10; 20]%Z) eq_refl I).
  vm_compute in H. discriminate.
Qed.

(** C5, amended: of the statements of the notebook exactly one changes
    an object where it is, the item assignment [y['time'] = x['time']]
    (statement 24, line 200).  If the entries into the libraries leave
    the datasets and arrays that are there as they are, every step of
    the notebook does as well and only makes new objects, except that
    assignment: it changes the array that [y] is bound to into what the
    library's item assignment makes of it, and leaves every other one
    as it was.  The condition on the libraries is needed: with a
    library whose [chunk] changes the dataset it is called on, the step
    that calls [chunk] changes a dataset too. *)
Theorem only_the_index_reset_changes_an_object :
  (forall m s,
      nth_error Flow.statements m = Some s -> Flow.assigns_item s = true ->
      m = 24%nat /\ s = Flow.reset_index)
  /\ (forall (object : Type) (lib : Py.library object) (data : object -> Prop)
             (n h : nat) (o : object),
         Flow.respects lib data ->
         nth_error (Py.heap (Flow.state_after lib n)) h = Some o ->
         data o ->
         nth_error (Py.heap (Flow.state_after lib (S n))) h = Some o
         \/ (nth_error Flow.statements n = Some Flow.reset_index
             /\ Py.assoc "y" (Py.globals (Flow.state_after lib n)) = Some h
             /\ exists k v,
                  nth_error (Py.heap (Flow.state_after lib (S n))) h
                  = Some (Py.store lib o k v)))
  /\ (exists n h o,
         n <> 24%nat /\ Py.labelled o
         /\ nth_error (Py.heap (Flow.state_after Py.careless n)) h = Some o
         /\ nth_error (Py.heap (Flow.state_after Py.careless (S n))) h <> Some o).
Proof.
  split; [|split].
  - intros m s Hs Ha.
    assert (E : m = 24%nat).
    { apply item_assignment_position. rewrite nth_error_map, Hs. cbn. now rewrite Ha. }
    subst m. split; [reflexivity|].
    vm_compute in Hs. injection Hs as <-. reflexivity.
  - intros object lib data n h o R H D.
    exact (frames_between lib data Flow.statements [] Py.initial
             (notebook_frames object lib data R) n h o H D).
  - exists 21%nat, 14%nat, (Py.Labelled [0; 1; 2]%Z [10; 20; 30]%Z).
    split; [discriminate|]. split; [exact I|]. split; [reflexivity|].
    vm_compute. discriminate.
Qed.

Lemma only_the_index_reset_changes_an_object_witness :
  Flow.respects Py.toy Py.labelled /\
  nth_error (Py.heap (Flow.state_after Py.toy 24)) 59
  = Some (Py.Labelled [2; 0; 1]%Z [30; 10; 20]%Z) /\
  Py.labelled (Py.Labelled [2; 0; 1]%Z [30; 10; 20]%Z) /\
  (nth_error (Py.heap (Flow.state_after Py.toy 25)) 59
   = Some (Py.Labelled [2; 0; 1]%Z [30; 10; 20]%Z)
   \/ (nth_error Flow.statements 24 = Some Flow.reset_index
       /\ Py.assoc "y" (Py.globals (Flow.state_after Py.toy 24)) = Some 59%nat
       /\ exists k v,
            nth_error (Py.heap (Flow.state_after Py.toy 25)) 59
            = Some (Py.store Py.toy (Py.Labelled [2; 0; 1]%Z [30; 10; 20]%Z) k v))).
Proof.
  split; [exact (toy_respects Py.labelled)|]. split; [reflexivity|]. split; [exact I|].
  exact (proj1 (proj2 only_the_index_reset_changes_an_object)
           Py.thing Py.toy Py.labelled 24%nat 59%nat
           (Py.Labelled [2; 0; 1]%Z [30; 10; 20]%Z)
           (toy_respects Py.labelled) eq_refl I).
Defined.

End Frames.

(** * More of the notebook's functions *)

(** ** Shapes: what is rejected, and the shape of what is returned *)

Lemma has_shape_S {A : Type} (n : nat) (sh : list nat) (k : nat) (x : list (ndarray A k)) :
  has_shape (n :: sh) (S k) x
  <-> length x = n /\ length sh = k /\ Forall (has_shape sh k) x.
Proof. reflexivity. Qed.

Lemma has_shape_rank {A : Type} (k : nat) :
  forall (sh : list nat) (x : ndarray A k), has_shape sh k x -> length sh = k.
Proof.
  destruct k as [|k]; intros [|n sh] x H; try destruct H; try reflexivity.
  simpl. destruct H0 as [E _]. now rewrite E.
Qed.

Lemma has_shape_nd_map {A B : Type} (f : A -> B) (k : nat) :
  forall (sh : list nat) (x : ndarray A k),
    has_shape sh k x -> has_shape sh k (nd_map f k x).
Proof.
  induction k as [|k IH]; intros sh x H.
  - destruct sh; [exact I | destruct H].
  - destruct sh as [|n sh]; [destruct H|].
    apply has_shape_S in H. destruct H as [L [E F]].
    rewrite nd_map_S. apply has_shape_S. split; [|split].
    + rewrite length_map. exact L.
    + exact E.
    + rewrite Forall_map. eapply Forall_impl; [|exact F]. intros a. apply IH.
Qed.

(** Rows of different lengths, neither of them 1, cannot be combined. *)
Lemma broadcast_rows_mismatch {A B C : Type} (op : A -> B -> C)
    (r1 : list (ndarray A 0)) (r2 : list (ndarray B 0)) :
  length r1 <> length r2 -> length r1 <> 1%nat -> length r2 <> 1%nat ->
  Np.broadcast op 1 r1 r2 = Raise ValueError.
Proof.
  intros Hne H1 H2. rewrite (broadcast_S op 0 r1 r2).
  apply Nat.eqb_neq in Hne.
  destruct r1 as [|a [|a' r1]], r2 as [|b [|b' r2]];
    cbn [length] in *; try (exfalso; lia); try discriminate;
    try rewrite Hne; reflexivity.
Qed.

Lemma broadcast_same_length {A B C : Type} (op : A -> B -> C) (k : nat)
    (x : list (ndarray A k)) (y : list (ndarray B k)) :
  length x = length y ->
  Np.broadcast op (S k) x y
  = sequence (map (fun p => Np.broadcast op k (fst p) (snd p)) (combine x y)).
Proof. intros E. rewrite broadcast_S, E, Nat.eqb_refl. reflexivity. Qed.

Lemma sequence_first_raises {A : Type} (c : result A) (l : list (result A)) (e : exn) :
  c = Raise e -> sequence (c :: l) = Raise e.
Proof. intros ->. reflexivity. Qed.

(** Arrays whose last axes differ in length, neither being 1, cannot
    be combined, whatever the outer axes (none of them empty). *)
Lemma broadcast_last_mismatch {A B C : Type} (op : A -> B -> C) (n m : nat) :
  n <> m -> n <> 1%nat -> m <> 1%nat ->
  forall (sh : list nat) (k : nat) (x : ndarray A (S k)) (y : ndarray B (S k)),
    Forall (fun d => d <> 0%nat) sh ->
    has_shape (sh ++ [n]) (S k) x -> has_shape (sh ++ [m]) (S k) y ->
    Np.broadcast op (S k) x y = Raise ValueError.
Proof.
  intros Hnm Hn Hm. induction sh as [|d sh IH]; intros k x y Hd Hx Hy.
  - cbn [app] in Hx, Hy. apply has_shape_S in Hx, Hy.
    destruct Hx as [Lx [Ex _]], Hy as [Ly [_ _]].
    simpl in Ex. subst k.
    apply broadcast_rows_mismatch.
    + intros E. apply Hnm. exact (eq_trans (eq_sym Lx) (eq_trans E Ly)).
    + intros E. apply Hn. exact (eq_trans (eq_sym Lx) E).
    + intros E. apply Hm. exact (eq_trans (eq_sym Ly) E).
  - cbn [app] in Hx, Hy. apply has_shape_S in Hx, Hy.
    destruct Hx as [Lx [Ex Fx]], Hy as [Ly [Ey Fy]].
    destruct k as [|k]; [rewrite length_app in Ex; simpl in Ex; lia|].
    pose proof (Forall_inv Hd) as Hd0. pose proof (Forall_inv_tail Hd) as Hd'.
    rewrite (broadcast_same_length op (S k) x y (eq_trans Lx (eq_sym Ly))).
    destruct x as [|a x]; [simpl in Lx; congruence|].
    destruct y as [|b y]; [simpl in Ly; congruence|].
    cbn [combine map fst snd]. apply sequence_first_raises.
    apply IH; [exact Hd' | exact (Forall_inv Fx) | exact (Forall_inv Fy)].
Qed.

Lemma has_shape_row_op {A B : Type} (f : list A -> list B) :
  (forall r, length (f r) = length r) ->
  forall (k : nat) (sh : list nat) (x : ndarray A (S k)),
    has_shape sh (S k) x -> has_shape sh (S k) (Np.along_last f k x).
Proof. intros Hf k sh x. apply has_shape_along_last. exact Hf. Qed.

Lemma covariance_gufunc_mismatch (n m : nat) (sh : list nat) (k : nat)
    (x y : ndarray num (S k)) :
  n <> m -> n <> 1%nat -> m <> 1%nat ->
  Forall (fun d => d <> 0%nat) sh ->
  has_shape (sh ++ [n]) (S k) x -> has_shape (sh ++ [m]) (S k) y ->
  covariance_gufunc x y = Raise ValueError.
Proof.
  intros Hnm Hn Hm Hd Hx Hy. unfold covariance_gufunc, Np.subtract, Np.mean_last_keepdims.
  rewrite !broadcast_keepdims. cbn [bind]. unfold Np.multiply.
  rewrite (broadcast_last_mismatch Float.mul n m Hnm Hn Hm sh k); try assumption.
  - reflexivity.
  - apply has_shape_along_last; [|exact Hx]. intros r. apply length_map.
  - apply has_shape_along_last; [|exact Hy]. intros r. apply length_map.
Qed.

(** X1: arrays whose last axes have different lengths, neither of them
    1, are rejected: [covariance_gufunc], [pearson_correlation_gufunc]
    and [spearman_correlation_gufunc] raise [ValueError] (from the
    product of the deviations), whatever the outer axes, as long as
    none of them is empty. *)
Theorem gufuncs_reject_unequal_last_axes (n m : nat) (sh : list nat) (k : nat) :
  n <> m -> n <> 1%nat -> m <> 1%nat ->
  Forall (fun d => d <> 0%nat) sh ->
  (forall x y : ndarray num (S k),
      has_shape (sh ++ [n]) (S k) x -> has_shape (sh ++ [m]) (S k) y ->
      covariance_gufunc x y = Raise ValueError
      /\ pearson_correlation_gufunc x y = Raise ValueError)
  /\ (forall x y : ndarray R (S k),
         has_shape (sh ++ [n]) (S k) x -> has_shape (sh ++ [m]) (S k) y ->
         spearman_correlation_gufunc x y = Raise ValueError).
Proof.
  intros Hnm Hn Hm Hd.
  assert (P : forall x y : ndarray num (S k),
             has_shape (sh ++ [n]) (S k) x -> has_shape (sh ++ [m]) (S k) y ->
             pearson_correlation_gufunc x y = Raise ValueError).
  { intros x y Hx Hy. unfold pearson_correlation_gufunc.
    rewrite (covariance_gufunc_mismatch n m sh k x y); auto. }
  split.
  - intros x y Hx Hy. split; [|apply P; assumption].
    apply (covariance_gufunc_mismatch n m sh k); assumption.
  - intros x y Hx Hy. unfold spearman_correlation_gufunc, Bottleneck.rankdata.
    apply P; apply has_shape_nd_map; apply has_shape_along_last;
      try assumption; intros r; apply length_map.
Qed.

Lemma sample_short_shape : has_shape ([2] ++ [2])%nat 2 sample_short.
Proof. repeat (split || constructor). Qed.

Lemma sample_x_shape_split : has_shape ([2] ++ [3])%nat 2 sample_x.
Proof. exact sample_x_shape. Qed.

Lemma gufuncs_reject_unequal_last_axes_witness :
  (3 <> 2 /\ 3 <> 1 /\ 2 <> 1)%nat /\
  Forall (fun d => d <> 0%nat) [2%nat] /\
  has_shape ([2] ++ [3])%nat 2 sample_x /\
  has_shape ([2] ++ [2])%nat 2 sample_short /\
  spearman_correlation_gufunc sample_x sample_short = Raise ValueError /\
  pearson_correlation_gufunc (as_float sample_x) (as_float sample_short)
  = Raise ValueError.
Proof.
  split; [lia|]. split; [repeat constructor; lia|].
  split; [exact sample_x_shape_split|]. split; [exact sample_short_shape|].
  assert (H3 : (3 <> 2)%nat) by lia.
  assert (H1 : (3 <> 1)%nat) by lia.
  assert (H2 : (2 <> 1)%nat) by lia.
  assert (Hd : Forall (fun d => d <> 0%nat) [2%nat]) by (repeat constructor; lia).
  split.
  - exact (proj2 (gufuncs_reject_unequal_last_axes 3 2 [2%nat] 1 H3 H1 H2 Hd)
             sample_x sample_short sample_x_shape_split sample_short_shape).
  - exact (proj2 (proj1 (gufuncs_reject_unequal_last_axes 3 2 [2%nat] 1 H3 H1 H2 Hd)
                    (as_float sample_x) (as_float sample_short)
                    (has_shape_nd_map Some 2 _ _ sample_x_shape_split)
                    (has_shape_nd_map Some 2 _ _ sample_short_shape))).
Defined.

(** ** The shape of what the gufuncs return *)

Lemma Forall_map_combine {A B C : Type} (P : C -> Prop) (Q1 : A -> Prop) (Q2 : B -> Prop)
    (g : A * B -> C) (l1 : list A) (l2 : list B) :
  (forall a b, Q1 a -> Q2 b -> P (g (a, b))) ->
  Forall Q1 l1 -> Forall Q2 l2 -> Forall P (map g (combine l1 l2)).
Proof.
  intros H F1. revert l2. induction F1 as [|a l1 Ha F1 IH]; intros l2 F2.
  - constructor.
  - destruct F2 as [|b l2 Hb F2]; [constructor|].
    cbn [combine map]. constructor; [apply H; assumption | apply IH, F2].
Qed.

Lemma length_map_combine {A B C : Type} (g : A * B -> C) (l1 : list A) (l2 : list B) (n : nat) :
  length l1 = n -> length l2 = n -> length (map g (combine l1 l2)) = n.
Proof.
  intros L1 L2. rewrite length_map, length_combine, L1, L2. apply Nat.min_id.
Qed.

(** Row by row, two arrays of shape [sh ++ [n]] give an array of shape
    [sh]. *)
Lemma has_shape_zip_last {A B C : Type} (f : list A -> list B -> C) (n : nat) :
  forall (sh : list nat) (k : nat) (x : ndarray A (S k)) (y : ndarray B (S k)),
    has_shape (sh ++ [n]) (S k) x -> has_shape (sh ++ [n]) (S k) y ->
    has_shape sh k (zip_last f k x y).
Proof.
  induction sh as [|d sh IH]; intros k x y Hx Hy.
  - cbn [app] in Hx. apply has_shape_S in Hx. destruct Hx as [_ [E _]].
    simpl in E. subst k. exact I.
  - cbn [app] in Hx, Hy. apply has_shape_S in Hx, Hy.
    destruct Hx as [Lx [Ex Fx]], Hy as [Ly [Ey Fy]].
    destruct k as [|k]; [rewrite length_app in Ex; simpl in Ex; lia|].
    rewrite zip_last_S. apply has_shape_S. split; [|split].
    + apply length_map_combine; assumption.
    + rewrite length_app in Ex. simpl in Ex. lia.
    + apply (Forall_map_combine _ (has_shape (sh ++ [n]) (S k))
                                  (has_shape (sh ++ [n]) (S k)));
        [|assumption|assumption].
      intros a b Ha Hb. apply IH; assumption.
Qed.

(** X2: on arrays of one shape the three gufuncs do not raise, and
    what they return has the shape of the arguments without the last
    axis: the axis named by [input_core_dims] is reduced away. *)
Theorem gufuncs_reduce_the_last_axis (n : nat) (sh : list nat) (k : nat) :
  (forall x y : ndarray num (S k),
      has_shape (sh ++ [n]) (S k) x -> has_shape (sh ++ [n]) (S k) y ->
      exists c p : ndarray num k,
        covariance_gufunc x y = Ok c /\ has_shape sh k c
        /\ pearson_correlation_gufunc x y = Ok p /\ has_shape sh k p)
  /\ (forall x y : ndarray R (S k),
         has_shape (sh ++ [n]) (S k) x -> has_shape (sh ++ [n]) (S k) y ->
         exists s : ndarray num k,
           spearman_correlation_gufunc x y = Ok s /\ has_shape sh k s).
Proof.
  split.
  - intros x y Hx Hy.
    pose proof (has_shape_same_shape _ _ x y Hx Hy) as Hs.
    eexists. eexists.
    split; [exact (covariance_gufunc_rows k x y Hs)|].
    split; [exact (has_shape_zip_last _ n sh k x y Hx Hy)|].
    split; [exact (pearson_correlation_gufunc_rows k x y Hs)|].
    exact (has_shape_zip_last _ n sh k x y Hx Hy).
  - intros x y Hx Hy. eexists.
    split; [exact (spearman_of_numbers k _ x y Hx Hy)|].
    exact (has_shape_zip_last _ n sh k x y Hx Hy).
Qed.

Lemma sample_y_shape_split : has_shape ([2] ++ [3])%nat 2 sample_y.
Proof. exact sample_y_shape. Qed.

Lemma gufuncs_reduce_the_last_axis_witness :
  has_shape ([2] ++ [3])%nat 2 sample_x /\
  has_shape ([2] ++ [3])%nat 2 sample_y /\
  exists s : ndarray num 1,
    spearman_correlation_gufunc sample_x sample_y = Ok s /\ has_shape [2%nat] 1 s.
Proof.
  split; [exact sample_x_shape_split|]. split; [exact sample_y_shape_split|].
  exact (proj2 (gufuncs_reduce_the_last_axis 3 [2%nat] 1) sample_x sample_y
           sample_x_shape_split sample_y_shape_split).
Defined.

(** ** Where the result is nan *)

Lemma row_by_row_zip_last {A B C : Type} (P : list A -> list B -> Prop)
    (Q : list A -> list B -> C -> Prop) (f : list A -> list B -> C) (k : nat) :
  (forall r1 r2, P r1 r2 -> Q r1 r2 (f r1 r2)) ->
  forall (x : ndarray A (S k)) (y : ndarray B (S k)),
    rows_all2 P k x y -> row_by_row Q k x y (zip_last f k x y).
Proof.
  intros H. induction k as [|k IH]; intros x y Hr.
  - apply H, Hr.
  - rewrite rows_all2_S in Hr. rewrite zip_last_S.
    change (Forall2 (fun ab c => row_by_row Q k (fst ab) (snd ab) c) (combine x y)
              (map (fun p => zip_last f k (fst p) (snd p)) (combine x y))).
    induction Hr as [|a b x y Hab Hr IHr]; cbn [combine map]; constructor.
    + apply IH, Hab.
    + exact IHr.
Qed.

Lemma pearson_sums_none_iff (xs ys : list R) :
  Stat.pearson_sums xs ys = None <-> Stat.constant xs \/ Stat.constant ys.
Proof.
  unfold Stat.pearson_sums.
  destruct (Req_dec_T _ 0) as [E|E]; split; intros H; try reflexivity; try discriminate.
  - apply Rmult_integral in E. destruct E as [E|E]; [left|right];
      apply stdev_zero_iff_constant, sqrt_dot_zero_iff, E.
  - exfalso. apply E. destruct H as [H|H];
      apply stdev_zero_iff_constant, sqrt_dot_zero_iff in H; rewrite H; ring.
Qed.

Lemma spearman_none_iff (xs ys : list R) :
  Stat.spearman xs ys = None <-> Stat.constant xs \/ Stat.constant ys.
Proof.
  unfold Stat.spearman. rewrite pearson_sums_none_iff. split.
  - intros [H|H]; [left|right].
    + destruct (Req_dec_T (Stat.stdev xs) 0) as [E|E].
      * apply stdev_zero_iff_constant, E.
      * exfalso. apply (ranks_not_constant xs); [|exact H].
        intros Hc. apply E, stdev_zero_iff_constant, Hc.
    + destruct (Req_dec_T (Stat.stdev ys) 0) as [E|E].
      * apply stdev_zero_iff_constant, E.
      * exfalso. apply (ranks_not_constant ys); [|exact H].
        intros Hc. apply E, stdev_zero_iff_constant, Hc.
  - intros [H|H]; [left|right]; apply ranks_constant, H.
Qed.

Lemma covariance_none_iff (xs ys : list R) :
  length xs = length ys ->
  Row.covariance (map Some xs) (map Some ys) = None <-> xs = [].
Proof.
  intros L. split.
  - intros H. destruct xs as [|a xs]; [reflexivity|].
    rewrite covariance_some in H; [discriminate | discriminate | exact L].
  - intros ->. apply covariance_empty.
Qed.

(** Over the reals: nan on the constant rows and on no other. *)
Lemma nan_on_constant_rows_over_reals (k : nat) (sh : list nat) (x y : ndarray R (S k)) :
  has_shape sh (S k) x -> has_shape sh (S k) y ->
  exists c p s : ndarray num k,
    covariance_gufunc (as_float x) (as_float y) = Ok c
    /\ row_by_row (fun r1 r2 v => v = None <-> r1 = []) k x y c
    /\ pearson_correlation_gufunc (as_float x) (as_float y) = Ok p
    /\ row_by_row (fun r1 r2 v => v = None <-> Stat.constant r1 \/ Stat.constant r2)
         k x y p
    /\ spearman_correlation_gufunc x y = Ok s
    /\ row_by_row (fun r1 r2 v => v = None <-> Stat.constant r1 \/ Stat.constant r2)
         k x y s.
Proof.
  intros Hx Hy.
  pose proof (has_shape_same_shape _ sh x y Hx Hy) as Hs.
  pose proof (same_shape_rows_all2 k x y Hs) as Hr.
  eexists. eexists. eexists.
  split.
  { rewrite covariance_gufunc_rows by (apply same_shape_nd_map; exact Hs).
    unfold as_float. rewrite zip_last_nd_map. reflexivity. }
  split.
  { apply (row_by_row_zip_last (fun r1 r2 => length r1 = length r2)); [|exact Hr].
    intros r1 r2 L. apply covariance_none_iff, L. }
  split; [exact (pearson_of_numbers k sh x y Hx Hy)|].
  split.
  { apply (row_by_row_zip_last (fun r1 r2 => length r1 = length r2)); [|exact Hr].
    intros r1 r2 _. apply pearson_sums_none_iff. }
  split; [exact (spearman_of_numbers k sh x y Hx Hy)|].
  apply (row_by_row_zip_last (fun r1 r2 => length r1 = length r2)); [|exact Hr].
  intros r1 r2 _. apply spearman_none_iff.
Qed.

(** X3: over exact real arithmetic, for arrays of numbers of one
    shape, the value that [pearson_correlation_gufunc] and
    [spearman_correlation_gufunc] return for a pair of rows is nan
    exactly when one of the two rows is constant (all its elements
    equal, an empty row included), and the value that
    [covariance_gufunc] returns is nan exactly when the row is empty.
    In binary64 neither direction holds for
    [pearson_correlation_gufunc]: the constant row [0.1, 0.1, 0.1] has
    correlation 1 with itself, not nan (its mean is rounded), and the
    row [1e200, 2e200, 3e200], which is not constant, has correlation
    nan with itself (overflow). *)
Theorem nan_exactly_on_constant_rows :
  (forall (k : nat) (sh : list nat) (x y : ndarray R (S k)),
      has_shape sh (S k) x -> has_shape sh (S k) y ->
      exists c p s : ndarray num k,
        covariance_gufunc (as_float x) (as_float y) = Ok c
        /\ row_by_row (fun r1 r2 v => v = None <-> r1 = []) k x y c
        /\ pearson_correlation_gufunc (as_float x) (as_float y) = Ok p
        /\ row_by_row (fun r1 r2 v => v = None <-> Stat.constant r1 \/ Stat.constant r2)
             k x y p
        /\ spearman_correlation_gufunc x y = Ok s
        /\ row_by_row (fun r1 r2 v => v = None <-> Stat.constant r1 \/ Stat.constant r2)
             k x y s)
  /\ (rows_all (fun r => B64.constant r = true) 1 B64.tenths
      /\ B64.pearson_correlation_gufunc B64.tenths B64.tenths = Ok [PrimFloat.one])
  /\ (rows_all (fun r => B64.constant r = false) 1 B64.huge
      /\ B64.pearson_correlation_gufunc B64.huge B64.huge = Ok [PrimFloat.nan]).
Proof.
  split; [exact nan_on_constant_rows_over_reals|]. split.
  - destruct b64_rounding as [C [_ P]]. split; assumption.
  - destruct b64_overflow as [_ [_ [_ [_ P]]]].
    split; [repeat constructor | exact P].
Qed.

Lemma nan_exactly_on_constant_rows_witness :
  has_shape [1; 2]%nat 2 sample_flat /\
  exists c p s : ndarray num 1,
    covariance_gufunc (as_float sample_flat) (as_float sample_flat) = Ok c
    /\ row_by_row (fun r1 r2 v => v = None <-> r1 = []) 1 sample_flat sample_flat c
    /\ pearson_correlation_gufunc (as_float sample_flat) (as_float sample_flat) = Ok p
    /\ row_by_row (fun r1 r2 v => v = None <-> Stat.constant r1 \/ Stat.constant r2)
         1 sample_flat sample_flat p
    /\ spearman_correlation_gufunc sample_flat sample_flat = Ok s
    /\ row_by_row (fun r1 r2 v => v = None <-> Stat.constant r1 \/ Stat.constant r2)
         1 sample_flat sample_flat s.
Proof.
  split; [exact sample_flat_shape|].
  exact (proj1 nan_exactly_on_constant_rows 1%nat [1; 2]%nat sample_flat sample_flat
           sample_flat_shape sample_flat_shape).
Defined.

(** ** The mask *)

Lemma nd_map_nd_map {A B C : Type} (f : A -> B) (g : B -> C) (k : nat) :
  forall x : ndarray A k, nd_map g k (nd_map f k x) = nd_map (fun a => g (f a)) k x.
Proof.
  induction k as [|k IH]; intros x.
  - reflexivity.
  - rewrite !nd_map_S, map_map. apply map_ext. exact IH.
Qed.

Lemma nd_map_ext {A B : Type} (f g : A -> B) (k : nat) :
  (forall a, f a = g a) -> forall x : ndarray A k, nd_map f k x = nd_map g k x.
Proof.
  intros H. induction k as [|k IH]; intros x.
  - apply H.
  - rewrite !nd_map_S. apply map_ext. exact IH.
Qed.

Lemma nd_all_trivial {A : Type} (P : A -> Prop) (k : nat) :
  (forall a, P a) -> forall x : ndarray A k, nd_all P k x.
Proof.
  intros H. induction k as [|k IH]; intros x.
  - apply H.
  - rewrite nd_all_S. apply Forall_forall. intros a _. apply IH.
Qed.

Lemma mask_value_below (v : num) :
  below_one_or_nan (if Float.ltb v (Some 1) then v else None).
Proof.
  destruct v as [r|]; unfold Float.ltb; [|exact I].
  destruct (Rlt_dec r 1) as [H|H]; [exact H | exact I].
Qed.

Lemma mask_value_masked (v : num) :
  masked v (if Float.ltb v (Some 1) then v else None).
Proof.
  destruct v as [r|]; unfold Float.ltb, masked, is_below_one.
  - destruct (Rlt_dec r 1) as [H|H].
    + left. split; [|reflexivity]. exists r. split; [reflexivity | exact H].
    + right. split; [|reflexivity]. intros [r' [E H']]. injection E as <-. exact (H H').
  - right. split; [|reflexivity]. intros [r' [E _]]. discriminate.
Qed.

Lemma mask_value_idempotent (v : num) :
  (let w := if Float.ltb v (Some 1) then v else None in
   if Float.ltb w (Some 1) then w else None)
  = if Float.ltb v (Some 1) then v else None.
Proof.
  cbv zeta. destruct (Float.ltb v (Some 1)) eqn:E; [rewrite E|]; reflexivity.
Qed.

(** X4: [corr.where(corr < 1)] never raises, whatever the array.  Its
    result has the shape of [corr]; each value of it is the value of
    [corr] when that is a number below 1 and nan otherwise (a number
    from 1 on, or nan); every value of the result is below 1 or nan;
    and masking a second time changes nothing. *)
Theorem mask_keeps_what_is_below_one (k : nat) (corr : ndarray num k) :
  exists m : ndarray num k,
    mask_below_one corr = Ok m
    /\ same_shape k corr m
    /\ nd_all2 masked k corr m
    /\ nd_all below_one_or_nan k m
    /\ mask_below_one m = Ok m.
Proof.
  eexists. split; [apply mask_below_one_map|].
  split; [apply same_shape_nd_map_r|].
  split; [apply nd_all2_nd_map_r, nd_all_trivial, mask_value_masked|].
  split; [apply nd_all_nd_map, nd_all_trivial, mask_value_below|].
  rewrite mask_below_one_map, nd_map_nd_map. f_equal.
  apply nd_map_ext. exact mask_value_idempotent.
Qed.

(** ** An array against itself *)

Lemma same_shape_refl {A : Type} (k : nat) : forall x : ndarray A k, same_shape k x x.
Proof.
  induction k as [|k IH]; intros x.
  - exact I.
  - rewrite same_shape_S. induction x as [|a x IHx]; constructor; [apply IH | exact IHx].
Qed.

Lemma rows_all2_diag {A : Type} (P : list A -> Prop) (k : nat) :
  forall x : ndarray A (S k),
    rows_all P k x -> rows_all2 (fun r1 r2 => r1 = r2 /\ P r1) k x x.
Proof.
  induction k as [|k IH]; intros x H.
  - split; [reflexivity | exact H].
  - rewrite rows_all_S in H. rewrite rows_all2_S.
    induction H as [|a x Ha H IHx]; constructor; [apply IH, Ha | exact IHx].
Qed.

Lemma divisor_nil : Row.divisor [] [] = None.
Proof.
  unfold Row.divisor, Np.std. cbn [map]. rewrite mean_nil. reflexivity.
Qed.

Lemma stdev_square (xs : list R) : Stat.stdev xs * Stat.stdev xs = Stat.variance xs.
Proof. unfold Stat.stdev. apply sqrt_sqrt, variance_nonneg. Qed.

Lemma covariance_self (xs : list R) :
  Row.covariance (map Some xs) (map Some xs) = Row.divisor (map Some xs) (map Some xs)
  /\ nonnegative_or_nan (Row.covariance (map Some xs) (map Some xs)).
Proof.
  destruct xs as [|a xs].
  - cbn [map]. rewrite covariance_empty. split; [symmetry; exact divisor_nil | exact I].
  - rewrite covariance_some, divisor_some by (reflexivity || discriminate).
    rewrite stdev_square. split; [reflexivity|]. apply variance_nonneg.
Qed.

(** Over the reals: the covariance of [x] with itself is the divisor. *)
Lemma covariance_with_itself_over_reals (k : nat) (x : ndarray R (S k)) :
  exists v : ndarray num k,
    covariance_gufunc (as_float x) (as_float x) = Ok v
    /\ pearson_divisor (as_float x) (as_float x) = Ok v
    /\ nd_all nonnegative_or_nan k v.
Proof.
  pose proof (same_shape_refl (S k) (as_float x)) as Hs.
  pose proof (rows_all2_diag (fun _ => True) k x (rows_all_trivial k x)) as Hd.
  eexists. split; [exact (covariance_gufunc_rows k _ _ Hs)|]. split.
  - rewrite (pearson_divisor_rows k _ _ Hs). f_equal.
    unfold as_float. rewrite !zip_last_nd_map.
    apply (zip_last_ext (fun r1 r2 => r1 = r2 /\ True)); [|exact Hd].
    intros r1 r2 [<- _]. symmetry. apply covariance_self.
  - unfold as_float. rewrite zip_last_nd_map.
    apply (nd_all_zip_last (fun r1 r2 => r1 = r2 /\ True)); [|exact Hd].
    intros r1 r2 [<- _]. apply covariance_self.
Qed.

(** X5: over exact real arithmetic, the covariance of an array of
    numbers with itself is the divisor that
    [pearson_correlation_gufunc] computes for it,
    [x.std(axis=-1) * x.std(axis=-1)] (the variance): the two
    expressions of the notebook agree, nan on an empty row and a number
    that is not negative on any other.  In binary64 they agree up to
    rounding only: on the row [2, 2, 5] the covariance is 2 and the
    divisor, the square of the rounded square root of 2, is above it. *)
Theorem covariance_with_itself_is_the_divisor :
  (forall (k : nat) (x : ndarray R (S k)),
      exists v : ndarray num k,
        covariance_gufunc (as_float x) (as_float x) = Ok v
        /\ pearson_divisor (as_float x) (as_float x) = Ok v
        /\ nd_all nonnegative_or_nan k v)
  /\ (exists c d : PrimFloat.float,
         B64.covariance_gufunc B64.tied B64.tied = Ok [c]
         /\ B64.pearson_divisor B64.tied B64.tied = Ok [d]
         /\ PrimFloat.ltb c d = true).
Proof.
  split; [exact covariance_with_itself_over_reals|].
  eexists. eexists. split; [reflexivity|]. split; reflexivity.
Qed.

Lemma pearson_sums_self (xs : list R) :
  ~ Stat.constant xs -> Stat.pearson_sums xs xs = Some 1.
Proof.
  intros Hc. unfold Stat.pearson_sums. cbv zeta.
  pose proof (dot_self_nonneg (Stat.deviations xs)) as Hn.
  rewrite sqrt_sqrt by exact Hn.
  destruct (Req_dec_T _ 0) as [E|E].
  - exfalso. apply Hc, stdev_zero_iff_constant, sqrt_dot_zero_iff.
    rewrite E. apply sqrt_0.
  - f_equal. field. exact E.
Qed.

(** Over the reals: the correlation of [x] with itself is 1. *)
Lemma correlation_with_itself_over_reals (k : nat) (sh : list nat) (x : ndarray R (S k)) :
  has_shape sh (S k) x ->
  rows_all (fun r => ~ Stat.constant r) k x ->
  exists p s m : ndarray num k,
    pearson_correlation_gufunc (as_float x) (as_float x) = Ok p
    /\ nd_all (fun v => v = Some 1) k p
    /\ spearman_correlation_gufunc x x = Ok s
    /\ nd_all (fun v => v = Some 1) k s
    /\ mask_below_one s = Ok m
    /\ nd_all (fun v => v = None) k m.
Proof.
  intros Hx Hc.
  pose proof (rows_all2_diag _ k x Hc) as Hd.
  assert (Hs : nd_all (fun v => v = Some 1) k (zip_last Stat.spearman k x x)).
  { apply (nd_all_zip_last (fun r1 r2 => r1 = r2 /\ ~ Stat.constant r1)); [|exact Hd].
    intros r1 r2 [<- C]. apply pearson_sums_self, ranks_not_constant, C. }
  eexists. eexists. eexists.
  split; [exact (pearson_of_numbers k sh x x Hx Hx)|].
  split.
  { apply (nd_all_zip_last (fun r1 r2 => r1 = r2 /\ ~ Stat.constant r1)); [|exact Hd].
    intros r1 r2 [<- C]. apply pearson_sums_self, C. }
  split; [exact (spearman_of_numbers k sh x x Hx Hx)|].
  split; [exact Hs|].
  split; [apply mask_below_one_map|].
  apply nd_all_nd_map. eapply nd_all_weaken; [|exact Hs].
  intros v ->. unfold Float.ltb. destruct (Rlt_dec 1 1) as [H|H]; [lra | reflexivity].
Qed.

(** X6: over exact real arithmetic, an array of numbers none of whose
    rows is constant has correlation 1 with itself, by
    [pearson_correlation_gufunc] and by [spearman_correlation_gufunc],
    for every row, and [corr.where(corr < 1)] turns all of it into nan.
    In binary64 the correlation of a row with itself is 1 up to
    rounding only: that of [2, 2, 5] is below 1, so that the condition
    [corr < 1] of the mask holds and the value is kept, and that of
    [1, 3, 7] is above 1. *)
Theorem correlation_with_itself_is_masked :
  (forall (k : nat) (sh : list nat) (x : ndarray R (S k)),
      has_shape sh (S k) x ->
      rows_all (fun r => ~ Stat.constant r) k x ->
      exists p s m : ndarray num k,
        pearson_correlation_gufunc (as_float x) (as_float x) = Ok p
        /\ nd_all (fun v => v = Some 1) k p
        /\ spearman_correlation_gufunc x x = Ok s
        /\ nd_all (fun v => v = Some 1) k s
        /\ mask_below_one s = Ok m
        /\ nd_all (fun v => v = None) k m)
  /\ (exists p : PrimFloat.float,
         B64.pearson_correlation_gufunc B64.tied B64.tied = Ok [p]
         /\ PrimFloat.ltb p PrimFloat.one = true)
  /\ (exists p : PrimFloat.float,
         B64.pearson_correlation_gufunc B64.odd B64.odd = Ok [p]
         /\ PrimFloat.ltb PrimFloat.one p = true).
Proof.
  split; [exact correlation_with_itself_over_reals|].
  split; eexists; (split; reflexivity).
Qed.

Lemma correlation_with_itself_is_masked_witness :
  has_shape [2; 3]%nat 2 sample_x /\
  rows_all (fun r => ~ Stat.constant r) 1 sample_x /\
  exists p s m : ndarray num 1,
    pearson_correlation_gufunc (as_float sample_x) (as_float sample_x) = Ok p
    /\ nd_all (fun v => v = Some 1) 1 p
    /\ spearman_correlation_gufunc sample_x sample_x = Ok s
    /\ nd_all (fun v => v = Some 1) 1 s
    /\ mask_below_one s = Ok m
    /\ nd_all (fun v => v = None) 1 m.
Proof.
  split; [exact sample_x_shape|]. split; [exact sample_x_spread|].
  exact (proj1 correlation_with_itself_is_masked 1%nat [2; 3]%nat sample_x
           sample_x_shape sample_x_spread).
Defined.

(** ** Changes of scale *)

Lemma increasing_lt (f : R -> R) (u v : R) : increasing f -> (f u < f v <-> u < v).
Proof.
  intros Hf. split; [|apply Hf].
  intros H. destruct (Rtotal_order u v) as [L|[E|G]]; [exact L | subst; lra |].
  pose proof (Hf v u G). lra.
Qed.

Lemma increasing_eq (f : R -> R) (u v : R) : increasing f -> (f u = f v <-> u = v).
Proof.
  intros Hf. split; [|intros ->; reflexivity].
  intros H. destruct (Rtotal_order u v) as [L|[E|G]]; [|exact E|].
  - pose proof (Hf u v L). lra.
  - pose proof (Hf v u G). lra.
Qed.

Lemma count_lt_increasing (f : R -> R) (xs : list R) (v : R) :
  increasing f -> Bottleneck.count_lt (map f xs) (f v) = Bottleneck.count_lt xs v.
Proof.
  intros Hf. induction xs as [|w xs IH]; [reflexivity|].
  cbn [map]. rewrite !count_lt_cons, IH.
  destruct (Rlt_dec (f w) (f v)) as [H|H], (Rlt_dec w v) as [H'|H']; try reflexivity;
    exfalso; apply (increasing_lt f w v Hf) in H || apply (increasing_lt f w v Hf) in H';
    contradiction.
Qed.

Lemma count_eq_increasing (f : R -> R) (xs : list R) (v : R) :
  increasing f -> Bottleneck.count_eq (map f xs) (f v) = Bottleneck.count_eq xs v.
Proof.
  intros Hf. induction xs as [|w xs IH]; [reflexivity|].
  cbn [map]. rewrite !count_eq_cons, IH.
  destruct (Req_dec_T (f w) (f v)) as [H|H], (Req_dec_T w v) as [H'|H']; try reflexivity;
    exfalso; apply (increasing_eq f w v Hf) in H || apply (increasing_eq f w v Hf) in H';
    contradiction.
Qed.

Lemma rank_row_increasing (f : R -> R) (xs : list R) :
  increasing f -> Bottleneck.rank_row (map f xs) = Bottleneck.rank_row xs.
Proof.
  intros Hf. unfold Bottleneck.rank_row. rewrite map_map. apply map_ext. intros v.
  unfold Bottleneck.rank_of, Bottleneck.tie_ranks.
  now rewrite count_lt_increasing, count_eq_increasing.
Qed.

Lemma along_last_nd_map {A B C : Type} (g : list B -> list C) (f : A -> B) (k : nat) :
  forall x : ndarray A (S k),
    Np.along_last g k (nd_map f (S k) x) = Np.along_last (fun r => g (map f r)) k x.
Proof.
  induction k as [|k IH]; intros x.
  - reflexivity.
  - rewrite nd_map_S, !along_last_S, map_map. apply map_ext. exact IH.
Qed.

Lemma along_last_ext {A B : Type} (f g : list A -> list B) (k : nat) :
  (forall r, f r = g r) ->
  forall x : ndarray A (S k), Np.along_last f k x = Np.along_last g k x.
Proof.
  intros H. induction k as [|k IH]; intros x.
  - apply H.
  - rewrite !along_last_S. apply map_ext. exact IH.
Qed.

Lemma rankdata_increasing (f : R -> R) (k : nat) (x : ndarray R (S k)) :
  increasing f -> Bottleneck.rankdata (nd_map f (S k) x) = Bottleneck.rankdata x.
Proof.
  intros Hf. unfold Bottleneck.rankdata. rewrite along_last_nd_map.
  apply along_last_ext. intros r. apply rank_row_increasing, Hf.
Qed.

(** X7: [spearman_correlation_gufunc] sees its arguments through their
    ranks only: applying to every element of [x] a function that keeps
    the order, and to every element of [y] another one, changes nothing
    in what it returns, be it an array or an exception. *)
Theorem spearman_unchanged_by_increasing_maps
    (f g : R -> R) (k : nat) (x y : ndarray R (S k)) :
  increasing f -> increasing g ->
  Bottleneck.rankdata (nd_map f (S k) x) = Bottleneck.rankdata x
  /\ spearman_correlation_gufunc (nd_map f (S k) x) (nd_map g (S k) y)
     = spearman_correlation_gufunc x y.
Proof.
  intros Hf Hg. split; [apply rankdata_increasing, Hf|].
  unfold spearman_correlation_gufunc. cbv zeta.
  now rewrite !rankdata_increasing.
Qed.

Lemma increasing_affine (a b : R) : 0 < a -> increasing (fun v => a * v + b).
Proof. intros Ha u v H. nra. Qed.

Lemma spearman_unchanged_by_increasing_maps_witness :
  increasing (fun v => 2 * v + 1) /\ increasing (fun v => 3 * v + 0) /\
  spearman_correlation_gufunc (nd_map (fun v => 2 * v + 1) 2 sample_x)
                              (nd_map (fun v => 3 * v + 0) 2 sample_y)
  = spearman_correlation_gufunc sample_x sample_y.
Proof.
  assert (H2 : 0 < 2) by lra. assert (H3 : 0 < 3) by lra.
  split; [exact (increasing_affine 2 1 H2)|].
  split; [exact (increasing_affine 3 0 H3)|].
  exact (proj2 (spearman_unchanged_by_increasing_maps _ _ 1 sample_x sample_y
                  (increasing_affine 2 1 H2) (increasing_affine 3 0 H3))).
Defined.

Lemma total_affine (a b : R) (xs : list R) :
  Stat.total (map (fun v => a * v + b) xs) = a * Stat.total xs + b * INR (length xs).
Proof.
  induction xs as [|w xs IH].
  - simpl. ring.
  - change (Stat.total (map (fun v => a * v + b) (w :: xs)))
      with (a * w + b + Stat.total (map (fun v => a * v + b) xs)).
    change (Stat.total (w :: xs)) with (w + Stat.total xs).
    rewrite IH. change (length (w :: xs)) with (S (length xs)). rewrite S_INR. ring.
Qed.

Lemma deviations_affine (a b : R) (xs : list R) :
  Stat.deviations (map (fun v => a * v + b) xs)
  = map (fun d => a * d) (Stat.deviations xs).
Proof.
  destruct xs as [|w xs]; [reflexivity|].
  unfold Stat.deviations. rewrite !map_map. apply map_ext. intros v.
  unfold Stat.average. rewrite total_affine, length_map.
  field. apply INR_length_nonzero. discriminate.
Qed.

Lemma dot_scale_l (a : R) (xs ys : list R) :
  Stat.dot (map (fun d => a * d) xs) ys = a * Stat.dot xs ys.
Proof.
  revert ys. induction xs as [|u xs IH]; intros ys.
  - cbn [map]. rewrite !dot_nil_l. ring.
  - destruct ys as [|v ys].
    + rewrite !dot_nil_r. ring.
    + cbn [map]. rewrite !dot_cons, IH. ring.
Qed.

Lemma dot_scale_both (a : R) (xs : list R) :
  Stat.dot (map (fun d => a * d) xs) (map (fun d => a * d) xs)
  = (a * a) * Stat.dot xs xs.
Proof.
  rewrite dot_scale_l, dot_comm, dot_scale_l. ring.
Qed.

Lemma sqrt_scaled (a d : R) : 0 <= d -> sqrt (a * a * d) = Rabs a * sqrt d.
Proof.
  intros Hd. rewrite sqrt_mult; [|nra|exact Hd].
  f_equal. change (a * a) with (Rsqr a). apply sqrt_Rsqr_abs.
Qed.

(** Pearson's coefficient after a change of scale [a * v + b] of the
    first sequence: unchanged when [a] is positive, of the opposite sign
    when [a] is negative. *)
Lemma pearson_sums_affine (a b : R) (xs ys : list R) :
  a <> 0 ->
  Stat.pearson_sums (map (fun v => a * v + b) xs) ys
  = Float.lift1 (fun r => a / Rabs a * r) (Stat.pearson_sums xs ys).
Proof.
  intros Ha. unfold Stat.pearson_sums. cbv zeta.
  rewrite deviations_affine, dot_scale_both, dot_scale_l.
  rewrite sqrt_scaled by apply dot_self_nonneg.
  set (u := Stat.deviations xs). set (v := Stat.deviations ys).
  set (d := sqrt (Stat.dot u u) * sqrt (Stat.dot v v)).
  assert (Hab : Rabs a <> 0) by (apply Rabs_no_R0, Ha).
  replace (Rabs a * sqrt (Stat.dot u u) * sqrt (Stat.dot v v)) with (Rabs a * d)
    by (unfold d; ring).
  destruct (Req_dec_T (Rabs a * d) 0) as [E|E], (Req_dec_T d 0) as [E'|E'].
  - reflexivity.
  - exfalso. apply Rmult_integral in E. tauto.
  - exfalso. apply E. rewrite E'. ring.
  - cbn [Float.lift1]. f_equal. field. split; assumption.
Qed.

Lemma pearson_sums_affine_pos (a b : R) (xs ys : list R) :
  0 < a ->
  Stat.pearson_sums (map (fun v => a * v + b) xs) ys = Stat.pearson_sums xs ys.
Proof.
  intros Ha. rewrite pearson_sums_affine by lra.
  rewrite Rabs_pos_eq by lra.
  destruct (Stat.pearson_sums xs ys) as [r|]; [|reflexivity].
  cbn [Float.lift1]. f_equal. field. lra.
Qed.

Lemma pearson_sums_affine_neg (a b : R) (xs ys : list R) :
  a < 0 ->
  Stat.pearson_sums (map (fun v => a * v + b) xs) ys
  = Float.lift1 Ropp (Stat.pearson_sums xs ys).
Proof.
  intros Ha. rewrite pearson_sums_affine by lra.
  rewrite Rabs_left by lra.
  destruct (Stat.pearson_sums xs ys) as [r|]; [|reflexivity].
  cbn [Float.lift1]. f_equal. field. lra.
Qed.

Lemma pearson_sums_comm (xs ys : list R) :
  Stat.pearson_sums xs ys = Stat.pearson_sums ys xs.
Proof.
  unfold Stat.pearson_sums. cbv zeta.
  rewrite (dot_comm (Stat.deviations xs) (Stat.deviations ys)).
  rewrite (Rmult_comm (sqrt (Stat.dot (Stat.deviations xs) (Stat.deviations xs)))).
  reflexivity.
Qed.

Lemma covariance_affine (a b : R) (xs ys : list R) :
  Stat.covariance (map (fun v => a * v + b) xs) ys = a * Stat.covariance xs ys.
Proof.
  unfold Stat.covariance. rewrite deviations_affine, dot_scale_l, length_map.
  unfold Rdiv. ring.
Qed.

Lemma covariance_row_affine (a b : R) (xs ys : list R) :
  length xs = length ys ->
  Row.covariance (map Some (map (fun v => a * v + b) xs)) (map Some ys)
  = Float.mul (Some a) (Row.covariance (map Some xs) (map Some ys)).
Proof.
  intros L. destruct xs as [|w xs].
  - cbn [map]. rewrite covariance_empty. reflexivity.
  - rewrite !covariance_some; try discriminate; try exact L.
    + rewrite covariance_affine. reflexivity.
    + rewrite length_map. exact L.
Qed.

Lemma combine_map_l {A A' B : Type} (g : A -> A') (l1 : list A) (l2 : list B) :
  combine (map g l1) l2 = map (fun p => (g (fst p), snd p)) (combine l1 l2).
Proof.
  revert l2. induction l1 as [|a l1 IH]; intros [|b l2]; try reflexivity.
  cbn [map combine fst snd]. now rewrite IH.
Qed.

Lemma zip_last_nd_map_l {A A' B C : Type} (f : list A' -> list B -> C) (g : A -> A')
    (k : nat) :
  forall (x : ndarray A (S k)) (y : ndarray B (S k)),
    zip_last f k (nd_map g (S k) x) y = zip_last (fun r1 r2 => f (map g r1) r2) k x y.
Proof.
  induction k as [|k IH]; intros x y.
  - reflexivity.
  - rewrite nd_map_S, !zip_last_S, combine_map_l, map_map.
    apply map_ext. intros p. apply IH.
Qed.

(** Over the reals: the effect of [a * x + b] on the two functions. *)
Lemma scale_and_origin_over_reals
    (a b : R) (k : nat) (sh : list nat) (x y : ndarray R (S k)) :
  0 < a ->
  has_shape sh (S k) x -> has_shape sh (S k) y ->
  (exists c : ndarray num k,
      covariance_gufunc (as_float x) (as_float y) = Ok c
      /\ covariance_gufunc (as_float (nd_map (fun v => a * v + b) (S k) x)) (as_float y)
         = Ok (nd_map (Float.mul (Some a)) k c))
  /\ pearson_correlation_gufunc (as_float (nd_map (fun v => a * v + b) (S k) x))
                                (as_float y)
     = pearson_correlation_gufunc (as_float x) (as_float y).
Proof.
  intros Ha Hx Hy.
  pose proof (has_shape_nd_map (fun v => a * v + b) (S k) sh x Hx) as Hx'.
  pose proof (has_shape_same_shape _ sh x y Hx Hy) as Hs.
  pose proof (same_shape_rows_all2 k x y Hs) as Hr.
  split.
  - eexists. split.
    + apply covariance_gufunc_rows, same_shape_nd_map, Hs.
    + rewrite covariance_gufunc_rows
        by (apply same_shape_nd_map; exact (has_shape_same_shape _ sh _ y Hx' Hy)).
      f_equal. unfold as_float.
      rewrite nd_map_zip_last, !zip_last_nd_map, zip_last_nd_map_l.
      apply (zip_last_ext (fun r1 r2 => length r1 = length r2)); [|exact Hr].
      intros r1 r2 L. apply covariance_row_affine, L.
  - rewrite (pearson_of_numbers k sh _ y Hx' Hy), (pearson_of_numbers k sh x y Hx Hy).
    f_equal. rewrite zip_last_nd_map_l.
    apply (zip_last_ext (fun r1 r2 => length r1 = length r2)); [|exact Hr].
    intros r1 r2 _. apply pearson_sums_affine_pos, Ha.
Qed.

(** X8: over exact real arithmetic, a change of scale and origin of
    the data, [a * x + b] with [a > 0] (degrees Celsius into
    Fahrenheit, say), multiplies what [covariance_gufunc] returns by
    [a] and leaves what [pearson_correlation_gufunc] returns unchanged.
    In binary64 the correlation is unchanged up to rounding only, when
    nothing overflows: the correlation of [1, 2, 3] with [3, 1, 2] is
    -0.5, that of [1.8 * x + 32] is another number, and that of
    [1e200 * x + 0] is zero. *)
Theorem pearson_unchanged_by_scale_and_origin :
  (forall (a b : R) (k : nat) (sh : list nat) (x y : ndarray R (S k)),
      0 < a ->
      has_shape sh (S k) x -> has_shape sh (S k) y ->
      (exists c : ndarray num k,
          covariance_gufunc (as_float x) (as_float y) = Ok c
          /\ covariance_gufunc (as_float (nd_map (fun v => a * v + b) (S k) x))
                               (as_float y)
             = Ok (nd_map (Float.mul (Some a)) k c))
      /\ pearson_correlation_gufunc (as_float (nd_map (fun v => a * v + b) (S k) x))
                                    (as_float y)
         = pearson_correlation_gufunc (as_float x) (as_float y))
  /\ (exists p q r : PrimFloat.float,
         B64.pearson_correlation_gufunc B64.steps B64.turned = Ok [p]
         /\ B64.pearson_correlation_gufunc (B64.fahrenheit B64.steps) B64.turned
            = Ok [q]
         /\ B64.pearson_correlation_gufunc (B64.enlarged B64.steps) B64.turned
            = Ok [r]
         /\ PrimFloat.ltb q p = true
         /\ PrimFloat.ltb p r = true
         /\ PrimFloat.eqb r PrimFloat.zero = true).
Proof.
  split; [exact scale_and_origin_over_reals|].
  eexists. eexists. eexists.
  split; [reflexivity|]. split; [reflexivity|]. split; [reflexivity|].
  split; [reflexivity|]. split; reflexivity.
Qed.

Lemma pearson_unchanged_by_scale_and_origin_witness :
  0 < 2 /\ has_shape [2; 3]%nat 2 sample_x /\ has_shape [2; 3]%nat 2 sample_y /\
  pearson_correlation_gufunc (as_float (nd_map (fun v => 2 * v + 32) 2 sample_x))
                             (as_float sample_y)
  = pearson_correlation_gufunc (as_float sample_x) (as_float sample_y).
Proof.
  assert (H2 : 0 < 2) by lra.
  split; [exact H2|]. split; [exact sample_x_shape|]. split; [exact sample_y_shape|].
  exact (proj2 (proj1 pearson_unchanged_by_scale_and_origin 2 32 1%nat [2; 3]%nat
                  sample_x sample_y H2 sample_x_shape sample_y_shape)).
Defined.

Lemma decreasing_lt (f : R -> R) (u v : R) : decreasing f -> (f u < f v <-> v < u).
Proof.
  intros Hf. split; [|apply Hf].
  intros H. destruct (Rtotal_order u v) as [L|[E|G]]; [|subst; lra|exact G].
  pose proof (Hf u v L). lra.
Qed.

Lemma decreasing_eq (f : R -> R) (u v : R) : decreasing f -> (f u = f v <-> u = v).
Proof.
  intros Hf. split; [|intros ->; reflexivity].
  intros H. destruct (Rtotal_order u v) as [L|[E|G]]; [|exact E|].
  - pose proof (Hf u v L). lra.
  - pose proof (Hf v u G). lra.
Qed.

Lemma count_eq_decreasing (f : R -> R) (xs : list R) (v : R) :
  decreasing f -> Bottleneck.count_eq (map f xs) (f v) = Bottleneck.count_eq xs v.
Proof.
  intros Hf. induction xs as [|w xs IH]; [reflexivity|].
  cbn [map]. rewrite !count_eq_cons, IH.
  destruct (Req_dec_T (f w) (f v)) as [H|H], (Req_dec_T w v) as [H'|H']; try reflexivity;
    exfalso; apply (decreasing_eq f w v Hf) in H || apply (decreasing_eq f w v Hf) in H';
    contradiction.
Qed.

(** Under a map that reverses the order, the elements below [f v] are
    those that were above [v]. *)
Lemma count_lt_decreasing (f : R -> R) (xs : list R) (v : R) :
  decreasing f ->
  (Bottleneck.count_lt (map f xs) (f v) + Bottleneck.count_lt xs v
   + Bottleneck.count_eq xs v = length xs)%nat.
Proof.
  intros Hf. induction xs as [|w xs IH]; [reflexivity|].
  cbn [map length]. rewrite !count_lt_cons, count_eq_cons.
  destruct (Rlt_dec (f w) (f v)) as [H|H];
    [apply (decreasing_lt f w v Hf) in H
    |assert (H' : ~ v < w) by (intros G; apply H, Hf, G)];
    destruct (Rlt_dec w v) as [L|L]; destruct (Req_dec_T w v) as [E|E];
    try lra; lia.
Qed.

Lemma ranks_decreasing (f : R -> R) (xs : list R) :
  decreasing f ->
  Stat.ranks (map f xs)
  = map (fun r => -1 * r + (INR (length xs) + 1)) (Stat.ranks xs).
Proof.
  intros Hf. unfold Stat.ranks. rewrite !map_map. apply map_ext. intros v.
  unfold Stat.fractional_rank. rewrite count_eq_decreasing by exact Hf.
  rewrite <- (count_lt_decreasing f xs v Hf), !plus_INR. field.
Qed.

Lemma lift1_opp_opp (v : num) : Float.lift1 Ropp (Float.lift1 Ropp v) = v.
Proof. destruct v as [r|]; [|reflexivity]. cbn [Float.lift1]. f_equal. ring. Qed.

Lemma spearman_decreasing_l (f : R -> R) (xs ys : list R) :
  decreasing f ->
  Stat.spearman (map f xs) ys = Float.lift1 Ropp (Stat.spearman xs ys).
Proof.
  intros Hf. unfold Stat.spearman. rewrite ranks_decreasing by exact Hf.
  apply pearson_sums_affine_neg. lra.
Qed.

Lemma spearman_decreasing_both (f g : R -> R) (xs ys : list R) :
  decreasing f -> decreasing g ->
  Stat.spearman (map f xs) (map g ys) = Stat.spearman xs ys.
Proof.
  intros Hf Hg. rewrite spearman_decreasing_l by exact Hf.
  unfold Stat.spearman at 1. rewrite pearson_sums_comm.
  change (Float.lift1 Ropp (Stat.spearman (map g ys) xs) = Stat.spearman xs ys).
  rewrite spearman_decreasing_l by exact Hg.
  rewrite lift1_opp_opp. unfold Stat.spearman. apply pearson_sums_comm.
Qed.

(** X9: a function that reverses the order, applied to every element of
    [x], changes the sign of what [spearman_correlation_gufunc]
    returns (nan stays nan); applied to [x] and, the same or another one,
    to [y], it changes nothing. *)
Theorem spearman_negated_by_decreasing_maps
    (f g : R -> R) (k : nat) (sh : list nat) (x y : ndarray R (S k)) :
  decreasing f -> decreasing g ->
  has_shape sh (S k) x -> has_shape sh (S k) y ->
  exists s : ndarray num k,
    spearman_correlation_gufunc x y = Ok s
    /\ spearman_correlation_gufunc (nd_map f (S k) x) y
       = Ok (nd_map (Float.lift1 Ropp) k s)
    /\ spearman_correlation_gufunc (nd_map f (S k) x) (nd_map g (S k) y) = Ok s.
Proof.
  intros Hf Hg Hx Hy.
  pose proof (has_shape_nd_map f (S k) sh x Hx) as Hx'.
  pose proof (has_shape_nd_map g (S k) sh y Hy) as Hy'.
  pose proof (same_shape_rows_all2 k x y (has_shape_same_shape _ sh x y Hx Hy)) as Hr.
  eexists. split; [exact (spearman_of_numbers k sh x y Hx Hy)|]. split.
  - rewrite (spearman_of_numbers k sh _ y Hx' Hy). f_equal.
    rewrite zip_last_nd_map_l, nd_map_zip_last.
    apply (zip_last_ext (fun r1 r2 => length r1 = length r2)); [|exact Hr].
    intros r1 r2 _. apply spearman_decreasing_l, Hf.
  - rewrite (spearman_of_numbers k sh _ _ Hx' Hy'). f_equal.
    rewrite zip_last_nd_map.
    apply (zip_last_ext (fun r1 r2 => length r1 = length r2)); [|exact Hr].
    intros r1 r2 _. apply spearman_decreasing_both; assumption.
Qed.

Lemma decreasing_opp : decreasing (fun v => - v).
Proof. intros u v H. lra. Qed.

Lemma spearman_negated_by_decreasing_maps_witness :
  decreasing (fun v => - v) /\
  has_shape [2; 3]%nat 2 sample_x /\ has_shape [2; 3]%nat 2 sample_y /\
  exists s : ndarray num 1,
    spearman_correlation_gufunc sample_x sample_y = Ok s
    /\ spearman_correlation_gufunc (nd_map (fun v => - v) 2 sample_x) sample_y
       = Ok (nd_map (Float.lift1 Ropp) 1 s)
    /\ spearman_correlation_gufunc (nd_map (fun v => - v) 2 sample_x)
                                   (nd_map (fun v => - v) 2 sample_y) = Ok s.
Proof.
  split; [exact decreasing_opp|].
  split; [exact sample_x_shape|]. split; [exact sample_y_shape|].
  exact (spearman_negated_by_decreasing_maps _ _ 1 [2; 3]%nat sample_x sample_y
           decreasing_opp decreasing_opp sample_x_shape sample_y_shape).
Defined.

(** ** Chunks *)

Lemma combine_app_same {A B : Type} (l1 l2 : list A) (m1 m2 : list B) :
  length l1 = length m1 ->
  combine (l1 ++ l2) (m1 ++ m2) = combine l1 m1 ++ combine l2 m2.
Proof.
  revert m1. induction l1 as [|a l1 IH]; intros [|b m1] L; try discriminate.
  - reflexivity.
  - cbn [app combine]. f_equal. apply IH. now injection L.
Qed.

Lemma zip_last_app {A B C : Type} (f : list A -> list B -> C) (k : nat)
    (x1 x2 : list (ndarray A (S k))) (y1 y2 : list (ndarray B (S k))) :
  length x1 = length y1 ->
  zip_last f (S k) (x1 ++ x2) (y1 ++ y2)
  = zip_last f (S k) x1 y1 ++ zip_last f (S k) x2 y2.
Proof.
  intros L. rewrite !zip_last_S, combine_app_same by exact L. apply map_app.
Qed.

Lemma same_shape_app {A B : Type} (k : nat)
    (x1 x2 : list (ndarray A k)) (y1 y2 : list (ndarray B k)) :
  same_shape (S k) x1 y1 -> same_shape (S k) x2 y2 ->
  same_shape (S k) (x1 ++ x2) (y1 ++ y2).
Proof.
  rewrite !same_shape_S. apply Forall2_app.
Qed.

Lemma same_shape_length {A B : Type} (k : nat)
    (x : list (ndarray A k)) (y : list (ndarray B k)) :
  same_shape (S k) x y -> length x = length y.
Proof.
  rewrite same_shape_S. apply Forall2_length_eq.
Qed.

(** X10: the gufuncs can be applied chunk by chunk.  When [x] and [y]
    are cut at the same place along their first axis (an axis other
    than the last one, which [input_core_dims] names and the notebook
    keeps in one chunk), what a gufunc returns for the whole arrays is
    what it returns for the first chunks followed by what it returns
    for the second chunks. *)
Theorem gufuncs_apply_chunk_by_chunk (k : nat) :
  (forall x1 x2 y1 y2 : list (ndarray num (S k)),
      same_shape (S (S k)) x1 y1 -> same_shape (S (S k)) x2 y2 ->
      exists p1 p2 : list (ndarray num k),
        @pearson_correlation_gufunc (S k) x1 y1 = Ok p1
        /\ @pearson_correlation_gufunc (S k) x2 y2 = Ok p2
        /\ @pearson_correlation_gufunc (S k) (x1 ++ x2) (y1 ++ y2) = Ok (p1 ++ p2))
  /\ (forall x1 x2 y1 y2 : list (ndarray R (S k)),
         same_shape (S (S k)) x1 y1 -> same_shape (S (S k)) x2 y2 ->
         exists s1 s2 : list (ndarray num k),
           @spearman_correlation_gufunc (S k) x1 y1 = Ok s1
           /\ @spearman_correlation_gufunc (S k) x2 y2 = Ok s2
           /\ @spearman_correlation_gufunc (S k) (x1 ++ x2) (y1 ++ y2) = Ok (s1 ++ s2)).
Proof.
  assert (P : forall x1 x2 y1 y2 : list (ndarray num (S k)),
             same_shape (S (S k)) x1 y1 -> same_shape (S (S k)) x2 y2 ->
             exists p1 p2 : list (ndarray num k),
               @pearson_correlation_gufunc (S k) x1 y1 = Ok p1
               /\ @pearson_correlation_gufunc (S k) x2 y2 = Ok p2
               /\ @pearson_correlation_gufunc (S k) (x1 ++ x2) (y1 ++ y2)
                  = Ok (p1 ++ p2)).
  { intros x1 x2 y1 y2 H1 H2.
    exists (zip_last Row.pearson (S k) x1 y1), (zip_last Row.pearson (S k) x2 y2).
    split; [exact (pearson_correlation_gufunc_rows (S k) x1 y1 H1)|].
    split; [exact (pearson_correlation_gufunc_rows (S k) x2 y2 H2)|].
    rewrite <- zip_last_app by exact (same_shape_length _ x1 y1 H1).
    exact (pearson_correlation_gufunc_rows (S k) (x1 ++ x2) (y1 ++ y2)
             (same_shape_app _ x1 x2 y1 y2 H1 H2)). }
  split; [exact P|].
  intros x1 x2 y1 y2 H1 H2.
  unfold spearman_correlation_gufunc, Bottleneck.rankdata, as_float. cbv zeta.
  rewrite !along_last_S, !nd_map_S, !map_app.
  rewrite <- !nd_map_S, <- !along_last_S.
  apply P; apply same_shape_nd_map;
    (apply same_shape_along_last; [|assumption]);
    intros r1 r2 L; unfold Bottleneck.rank_row; rewrite !length_map; exact L.
Qed.

Lemma sample_chunks :
  same_shape 2 sample_x1 sample_y1 /\ same_shape 2 sample_x2 sample_y2.
Proof.
  split; apply (has_shape_same_shape 2 [1; 3]%nat); repeat (split || constructor).
Qed.

Lemma gufuncs_apply_chunk_by_chunk_witness :
  same_shape 2 sample_x1 sample_y1 /\ same_shape 2 sample_x2 sample_y2 /\
  exists s1 s2 : list (ndarray num 0),
    @spearman_correlation_gufunc 1 sample_x1 sample_y1 = Ok s1
    /\ @spearman_correlation_gufunc 1 sample_x2 sample_y2 = Ok s2
    /\ @spearman_correlation_gufunc 1 (sample_x1 ++ sample_x2) (sample_y1 ++ sample_y2)
       = Ok (s1 ++ s2).
Proof.
  split; [exact (proj1 sample_chunks)|]. split; [exact (proj2 sample_chunks)|].
  exact (proj2 (gufuncs_apply_chunk_by_chunk 0) sample_x1 sample_x2 sample_y1 sample_y2
           (proj1 sample_chunks) (proj2 sample_chunks)).
Defined.

(** ** The lagged data *)

Lemma roll_row_snoc {A : Type} (l : list A) (a : A) : roll_row (l ++ [a]) = a :: l.
Proof.
  unfold roll_row. rewrite rev_app_distr. cbn [rev app]. now rewrite rev_involutive.
Qed.

Lemma snoc_cases {A : Type} (l : list A) : l = [] \/ exists l' a, l = l' ++ [a].
Proof.
  destruct l as [|b l]; [left; reflexivity | right].
  destruct (@exists_last _ (b :: l)) as [l' [a E]]; [discriminate|].
  exists l', a. exact E.
Qed.

Lemma length_roll_row {A : Type} (r : list A) : length (roll_row r) = length r.
Proof.
  destruct (snoc_cases r) as [->|[l [a ->]]]; [reflexivity|].
  rewrite roll_row_snoc, length_app. simpl. lia.
Qed.

Lemma roll_row_map {A B : Type} (g : A -> B) (r : list A) :
  roll_row (map g r) = map g (roll_row r).
Proof.
  destruct (snoc_cases r) as [->|[l [a ->]]]; [reflexivity|].
  rewrite map_app. cbn [map]. now rewrite !roll_row_snoc.
Qed.

Lemma total_roll (r : list R) : Stat.total (roll_row r) = Stat.total r.
Proof.
  destruct (snoc_cases r) as [->|[l [a ->]]]; [reflexivity|].
  rewrite roll_row_snoc, total_app.
  change (Stat.total (a :: l)) with (a + Stat.total l).
  change (Stat.total [a]) with (a + 0). ring.
Qed.

Lemma count_lt_roll (r : list R) (v : R) :
  Bottleneck.count_lt (roll_row r) v = Bottleneck.count_lt r v.
Proof.
  destruct (snoc_cases r) as [->|[l [a ->]]]; [reflexivity|].
  rewrite roll_row_snoc. unfold Bottleneck.count_lt.
  rewrite filter_app, length_app. cbn [filter].
  destruct (Bottleneck.Rltb a v); cbn [length]; lia.
Qed.

Lemma count_eq_roll (r : list R) (v : R) :
  Bottleneck.count_eq (roll_row r) v = Bottleneck.count_eq r v.
Proof.
  destruct (snoc_cases r) as [->|[l [a ->]]]; [reflexivity|].
  rewrite roll_row_snoc. unfold Bottleneck.count_eq.
  rewrite filter_app, length_app. cbn [filter].
  destruct (Bottleneck.Reqb a v); cbn [length]; lia.
Qed.

(** The ranks of the lagged row are the lagged ranks. *)
Lemma ranks_roll (r : list R) : Stat.ranks (roll_row r) = roll_row (Stat.ranks r).
Proof.
  unfold Stat.ranks. rewrite roll_row_map. apply map_ext. intros v.
  unfold Stat.fractional_rank. now rewrite count_lt_roll, count_eq_roll.
Qed.

Lemma deviations_roll (r : list R) :
  Stat.deviations (roll_row r) = roll_row (Stat.deviations r).
Proof.
  unfold Stat.deviations. rewrite roll_row_map. apply map_ext. intros v.
  unfold Stat.average. now rewrite total_roll, length_roll_row.
Qed.

Lemma dot_app (l1 l2 m1 m2 : list R) :
  length l1 = length m1 ->
  Stat.dot (l1 ++ l2) (m1 ++ m2) = Stat.dot l1 m1 + Stat.dot l2 m2.
Proof.
  intros L. unfold Stat.dot. rewrite combine_app_same by exact L.
  rewrite map_app. apply total_app.
Qed.

Lemma dot_roll_self (u : list R) :
  Stat.dot (roll_row u) (roll_row u) = Stat.dot u u.
Proof.
  destruct (snoc_cases u) as [->|[l [a ->]]]; [reflexivity|].
  rewrite roll_row_snoc, dot_app, !dot_cons, dot_nil_l by reflexivity. ring.
Qed.

(** [sum (u - v)^2], written with [dot]: it is not negative, and zero
    only when the two sequences are the same. *)
Lemma dot_gap (u : list R) :
  forall v : list R,
    length u = length v ->
    0 <= Stat.dot u u + Stat.dot v v - 2 * Stat.dot u v
    /\ (Stat.dot u u + Stat.dot v v - 2 * Stat.dot u v = 0 -> u = v).
Proof.
  induction u as [|a u IH]; intros [|b v] L; try discriminate.
  - rewrite !dot_nil_l. split; [lra | reflexivity].
  - injection L as L. destruct (IH v L) as [G0 G1]. rewrite !dot_cons.
    pose proof (Rle_0_sqr (a - b)) as Hs. unfold Rsqr in Hs.
    split; [lra|].
    intros E. assert (Ea : (a - b) * (a - b) = 0) by lra.
    assert (Eu : Stat.dot u u + Stat.dot v v - 2 * Stat.dot u v = 0) by lra.
    f_equal; [|exact (G1 Eu)].
    apply Rmult_integral in Ea. lra.
Qed.

Lemma snoc_eq_cons {A : Type} (a : A) (l : list A) :
  a :: l = l ++ [a] -> Forall (fun v => v = a) l.
Proof.
  induction l as [|b l IH]; intros E; [constructor|].
  cbn [app] in E. injection E as E1 E2. subst b.
  constructor; [reflexivity | exact (IH E2)].
Qed.

(** A row that is its own lag is constant. *)
Lemma roll_fixed_constant (u : list R) : roll_row u = u -> Stat.constant u.
Proof.
  destruct (snoc_cases u) as [->|[l [a ->]]]; intros E p q Hp Hq.
  - destruct Hp.
  - rewrite roll_row_snoc in E. apply snoc_eq_cons in E.
    rewrite Forall_forall in E.
    assert (H : forall w, In w (l ++ [a]) -> w = a).
    { intros w Hw. apply in_app_or in Hw. destruct Hw as [Hw|[<-|[]]];
        [exact (E w Hw) | reflexivity]. }
    now rewrite (H p Hp), (H q Hq).
Qed.

Lemma constant_deviations (r : list R) :
  Stat.constant (Stat.deviations r) -> Stat.constant r.
Proof.
  intros H p q Hp Hq.
  assert (E : p - Stat.average r = q - Stat.average r).
  { apply H; unfold Stat.deviations;
      [exact (in_map (fun v => v - Stat.average r) r p Hp)
      |exact (in_map (fun v => v - Stat.average r) r q Hq)]. }
  lra.
Qed.

(** Pearson's coefficient of a sequence and its lag is below 1, when
    it is defined. *)
Lemma pearson_sums_lag (r : list R) :
  below_one_or_nan (Stat.pearson_sums r (roll_row r)).
Proof.
  unfold Stat.pearson_sums. cbv zeta. rewrite deviations_roll.
  set (u := Stat.deviations r). rewrite dot_roll_self.
  pose proof (dot_self_nonneg u) as Hn.
  rewrite sqrt_sqrt by exact Hn.
  destruct (Req_dec_T (Stat.dot u u) 0) as [E|E]; [exact I|].
  cbn [below_one_or_nan].
  destruct (dot_gap u (roll_row u)) as [G0 G1];
    [symmetry; apply length_roll_row|].
  rewrite dot_roll_self in G0, G1.
  assert (Hne : Stat.dot u (roll_row u) <> Stat.dot u u).
  { intros Eq. apply E.
    assert (Ef : roll_row u = u) by (symmetry; apply G1; lra).
    apply roll_fixed_constant, constant_deviations in Ef.
    apply stdev_zero_iff_constant, sqrt_dot_zero_iff in Ef. fold u in Ef.
    rewrite <- (sqrt_sqrt (Stat.dot u u)) by exact Hn. rewrite Ef. ring. }
  apply (Rmult_lt_reg_r (Stat.dot u u)); [lra|].
  unfold Rdiv. rewrite Rmult_assoc, Rinv_l by exact E. lra.
Qed.

Lemma spearman_lag (r : list R) : below_one_or_nan (Stat.spearman r (roll_row r)).
Proof.
  unfold Stat.spearman. rewrite ranks_roll. apply pearson_sums_lag.
Qed.

Lemma nd_all_zip_last_along {A B C : Type} (Q : C -> Prop)
    (f : list A -> list B -> C) (g : list A -> list B) (k : nat) :
  (forall r, Q (f r (g r))) ->
  forall x : ndarray A (S k), nd_all Q k (zip_last f k x (Np.along_last g k x)).
Proof.
  intros H. induction k as [|k IH]; intros x.
  - apply H.
  - rewrite along_last_S, zip_last_S, combine_map_r_same, map_map, nd_all_S, Forall_map.
    apply Forall_forall. intros a _. apply IH.
Qed.

Lemma nd_map_fixed {A : Type} (f : A -> A) (k : nat) :
  forall x : ndarray A k, nd_all (fun v => f v = v) k x -> nd_map f k x = x.
Proof.
  induction k as [|k IH]; intros x H.
  - exact H.
  - rewrite nd_all_S in H. rewrite nd_map_S.
    induction H as [|a x Ha H IHx]; [reflexivity|].
    cbn [map]. f_equal; [apply IH, Ha | exact IHx].
Qed.

Lemma mask_value_fixed (v : num) :
  below_one_or_nan v -> (if Float.ltb v (Some 1) then v else None) = v.
Proof.
  destruct v as [r|]; unfold Float.ltb; [|reflexivity].
  cbn [below_one_or_nan]. intros H. destruct (Rlt_dec r 1); [reflexivity | contradiction].
Qed.

(** X11: the correlation cell.  [y] is [x] lagged by one step along the
    last axis ([roll(time=1)]: every row turned by one place), of the
    shape of [x].  For every array of numbers [x], the Spearman
    correlation of [x] and [y] is computed without an exception, every
    value of it is a number below 1 or nan, and [corr.where(corr < 1)]
    returns it unchanged: over the reals, the mask of the notebook masks
    nothing that was not nan already. *)
Theorem lagged_correlation_is_below_one (k : nat) (sh : list nat) (x : ndarray R (S k)) :
  has_shape sh (S k) x ->
  has_shape sh (S k) (roll_last x)
  /\ exists corr : ndarray num k,
       spearman_correlation_gufunc x (roll_last x) = Ok corr
       /\ nd_all below_one_or_nan k corr
       /\ mask_below_one corr = Ok corr.
Proof.
  intros Hx.
  assert (Hy : has_shape sh (S k) (roll_last x)).
  { apply has_shape_along_last; [|exact Hx]. intros r. apply length_roll_row. }
  assert (Hb : nd_all below_one_or_nan k (zip_last Stat.spearman k x (roll_last x))).
  { apply nd_all_zip_last_along. exact spearman_lag. }
  split; [exact Hy|]. eexists.
  split; [exact (spearman_of_numbers k sh x _ Hx Hy)|].
  split; [exact Hb|].
  rewrite mask_below_one_map. f_equal. apply nd_map_fixed.
  eapply nd_all_weaken; [|exact Hb]. exact mask_value_fixed.
Qed.

Lemma lagged_correlation_is_below_one_witness :
  has_shape [2; 3]%nat 2 sample_x /\
  has_shape [2; 3]%nat 2 (roll_last sample_x) /\
  exists corr : ndarray num 1,
    spearman_correlation_gufunc sample_x (roll_last sample_x) = Ok corr
    /\ nd_all below_one_or_nan 1 corr
    /\ mask_below_one corr = Ok corr.
Proof.
  split; [exact sample_x_shape|].
  exact (lagged_correlation_is_below_one 1 [2; 3]%nat sample_x sample_x_shape).
Defined.

(** ** nan in the data *)

Lemma fold_add_none (r : list num) : fold_left Float.add r None = None.
Proof. induction r as [|a r IH]; [reflexivity | exact IH]. Qed.

Lemma add_none_r (a : num) : Float.add a None = None.
Proof. destruct a; reflexivity. Qed.

Lemma fold_add_nan (r : list num) :
  In None r -> forall acc, fold_left Float.add r acc = None.
Proof.
  induction r as [|a r IH]; intros H acc; [destruct H|].
  cbn [fold_left]. destruct H as [->|H].
  - rewrite add_none_r. apply fold_add_none.
  - apply IH, H.
Qed.

Lemma mean_nan (r : list num) : In None r -> Np.mean r = None.
Proof.
  intros H. unfold Np.mean, Np.sum. now rewrite (fold_add_nan r H).
Qed.

Lemma sub_none_r (a : num) : Float.sub a None = None.
Proof. destruct a; reflexivity. Qed.

Lemma mul_none_r (a : num) : Float.mul a None = None.
Proof. destruct a; reflexivity. Qed.

(** A nan in one of two rows of one length: their covariance is nan. *)
Lemma covariance_nan (r1 r2 : list num) :
  length r1 = length r2 -> In None r1 \/ In None r2 -> Row.covariance r1 r2 = None.
Proof.
  intros L H. unfold Row.covariance. apply mean_nan.
  destruct r1 as [|a r1], r2 as [|b r2]; try discriminate;
    [destruct H as [[]|[]]|].
  left. unfold Row.deviations, map2. cbn [map combine fst snd].
  destruct H as [H|H]; rewrite (mean_nan _ H).
  - now rewrite sub_none_r.
  - now rewrite sub_none_r, mul_none_r.
Qed.

Lemma pearson_nan (r1 r2 : list num) :
  length r1 = length r2 -> In None r1 \/ In None r2 -> Row.pearson r1 r2 = None.
Proof.
  intros L H. unfold Row.pearson. now rewrite (covariance_nan r1 r2 L H).
Qed.

(** X12: nan is not skipped.  For arrays of floats of one shape, a nan
    anywhere in a row of [x] or in the row of [y] at that place makes
    the value that [covariance_gufunc] and [pearson_correlation_gufunc]
    return for that pair of rows nan. *)
Theorem nan_in_a_row_gives_nan (k : nat) (x y : ndarray num (S k)) :
  same_shape (S k) x y ->
  exists c p : ndarray num k,
    covariance_gufunc x y = Ok c
    /\ row_by_row (fun r1 r2 v => In None r1 \/ In None r2 -> v = None) k x y c
    /\ pearson_correlation_gufunc x y = Ok p
    /\ row_by_row (fun r1 r2 v => In None r1 \/ In None r2 -> v = None) k x y p.
Proof.
  intros Hs. pose proof (same_shape_rows_all2 k x y Hs) as Hr.
  eexists. eexists.
  split; [exact (covariance_gufunc_rows k x y Hs)|].
  split.
  { apply (row_by_row_zip_last (fun r1 r2 => length r1 = length r2)); [|exact Hr].
    intros r1 r2 L. apply covariance_nan, L. }
  split; [exact (pearson_correlation_gufunc_rows k x y Hs)|].
  apply (row_by_row_zip_last (fun r1 r2 => length r1 = length r2)); [|exact Hr].
  intros r1 r2 L. apply pearson_nan, L.
Qed.

Lemma sample_nan_shape : same_shape 2 sample_nan (as_float sample_x1).
Proof.
  apply (has_shape_same_shape 2 [1; 3]%nat); repeat (split || constructor).
Qed.

Lemma nan_in_a_row_gives_nan_witness :
  same_shape 2 sample_nan (as_float sample_x1) /\
  exists c p : ndarray num 1,
    covariance_gufunc sample_nan (as_float sample_x1) = Ok c
    /\ row_by_row (fun r1 r2 v => In None r1 \/ In None r2 -> v = None) 1
         sample_nan (as_float sample_x1) c
    /\ pearson_correlation_gufunc sample_nan (as_float sample_x1) = Ok p
    /\ row_by_row (fun r1 r2 v => In None r1 \/ In None r2 -> v = None) 1
         sample_nan (as_float sample_x1) p.
Proof.
  split; [exact sample_nan_shape|].
  exact (nan_in_a_row_gives_nan 1 sample_nan (as_float sample_x1) sample_nan_shape).
Defined.

(** ** More about the run of the notebook *)

(** The branches of a statement, with the outcome of each entry kept
    as an equation. *)
Ltac outcomes_kept raises :=
  vm_compute;
  repeat match goal with
  | |- context [match raises ?n ?ev with _ => _ end] =>
      let E := fresh "E" in
      destruct (raises n ev) eqn:E; vm_compute
  end.

Ltac on_trace :=
  unfold along_trace; cbn [fst snd]; split;
  [ vm_compute; eexists; reflexivity
  | eexists; eexists; cbn [Py.raises]; eassumption ].

Ltac follow object raises :=
  rewrite run_step;
  match goal with
  | |- along_trace _ (Py.and_then _ ?K) =>
      let k := fresh "k" in
      let U := fresh "U" in
      remember K as k;
      remember (@along_trace) as U;
      outcomes_kept raises;
      subst U; subst k;
      match goal with
      | |- along_trace _ (Py.Raised _, _) => on_trace
      | |- _ => forget_heap object
      end
  end.

(** Whatever the libraries do and return, a run of the notebook goes
    along the trace. *)
Lemma notebook_along_trace (object : Type) (lib : Py.library object) :
  along_trace lib (Py.run lib Py.notebook).
Proof.
  destruct lib as [raises atom collect result store touch].
  unfold Py.run, Py.run_block.
  let l := eval vm_compute in (List.concat Py.notebook) in
  change (List.concat Py.notebook) with l.
  repeat follow object raises.
  vm_compute. split; reflexivity.
Qed.

(** X13: the notebook has no branch and no loop: which entries into the
    libraries a run makes, and in which order, does not depend on what
    the libraries return.  Whatever they do, the entries of a run are
    the first entries of the trace (the one of a run with a library
    that returns nothing of interest), up to the entry that raised if
    one did; and if no entry raises, the run reaches the end of the last
    cell and its entries are the whole trace. *)
Theorem entries_do_not_depend_on_values (object : Type) (lib : Py.library object) :
  let r := Py.run lib Py.notebook in
  (exists rest, Flow.trace = Py.events (snd r) ++ rest)
  /\ (never_raises lib ->
      fst r = Py.Value Py.Continue /\ Py.events (snd r) = Flow.trace).
Proof.
  intros r. pose proof (notebook_along_trace object lib) as H.
  fold r in H. unfold along_trace in H.
  destruct (fst r) as [f|e].
  - destruct H as [-> H]. split.
    + exists []. rewrite H. symmetry. apply app_nil_r.
    + intros _. split; [reflexivity | exact H].
  - destruct H as [H [n [ev E]]]. split; [exact H|].
    intros N. rewrite (N n ev) in E. discriminate.
Qed.

Lemma silent_never_raises : never_raises Py.silent.
Proof. intros n ev. reflexivity. Qed.

Lemma entries_do_not_depend_on_values_witness :
  never_raises Py.silent /\
  fst (Py.run Py.silent Py.notebook) = Py.Value Py.Continue /\
  Py.events (snd (Py.run Py.silent Py.notebook)) = Flow.trace.
Proof.
  split; [exact silent_never_raises|].
  exact (proj2 (entries_do_not_depend_on_values unit Py.silent) silent_never_raises).
Defined.

(** ** The flow *)

Section Flow_of_the_run.

Local Open Scope string_scope.

(** C9, amended: in every run in which no library raises, the entries
    into the libraries are those of the trace, and the steps of the
    flow among them are, in this order: the distributed client; the
    opening of the dataset, with a chunking scheme, which is the first
    entry of the flow after the client; the transformations that make
    [t_range] (resample, max, resample, min, the subtraction, mean);
    [visualize]; [persist]; the later transformations (roll, chunk,
    roll, the correlation through [apply_ufunc], the comparison and the
    mask [where]); [plot]; the two selections of a scheduler.  Each of
    these happens, once where it is listed once.  So the dataset is
    opened before any transformation, visualization or
    materialization, the transformations of [t_range] come before
    [visualize], which comes before [persist], and the later
    transformations come after [persist] and before [plot]. *)
Theorem flow_of_the_notebook :
  (forall (object : Type) (lib : Py.library object),
      never_raises lib ->
      Py.events (snd (Py.run lib Py.notebook)) = Flow.trace)
  /\ filter Flow.in_flow Flow.trace
     = [Py.CallEntry "Client"; Py.CallEntry "open_dataset";
        Py.CallEntry "resample"; Py.CallEntry "max";
        Py.CallEntry "resample"; Py.CallEntry "min";
        Py.Operator Py.Sub; Py.CallEntry "mean";
        Py.CallEntry "visualize"; Py.CallEntry "persist";
        Py.CallEntry "roll"; Py.CallEntry "chunk"; Py.CallEntry "roll";
        Py.CallEntry "apply_ufunc"; Py.Operator Py.Lt; Py.CallEntry "where";
        Py.CallEntry "plot"; Py.CallEntry "set"; Py.CallEntry "Client"]
  /\ nth_error Flow.statements 7
     = Some (Py.Assign "ds"
               (Py.Call (Py.Attribute (Py.Name "xr") "open_dataset")
                        [Py.Str "./data/rasm.nc"]
                        [("chunks", Py.Dict [(Py.Str "time", Py.Num 10)])]))
  /\ filter Flow.in_flow
       (Py.events (snd (Py.run_block Py.silent (firstn 7 Flow.statements))))
     = [Py.CallEntry "Client"]
  /\ filter Flow.in_flow
       (Py.events (snd (Py.run_block Py.silent (firstn 8 Flow.statements))))
     = [Py.CallEntry "Client"; Py.CallEntry "open_dataset"]
  /\ Flow.precedes Flow.Opening Flow.Transformation Flow.steps
  /\ Flow.precedes Flow.Opening Flow.Visualization Flow.steps
  /\ Flow.precedes Flow.Opening Flow.Materialization Flow.steps
  /\ Flow.precedes Flow.Visualization Flow.Materialization Flow.steps
  /\ Forall (fun ev => Flow.precedes ev (Py.CallEntry "visualize") Flow.trace)
            [Py.CallEntry "resample"; Py.CallEntry "max"; Py.CallEntry "min";
             Py.Operator Py.Sub; Py.CallEntry "mean"]
  /\ Flow.precedes (Py.CallEntry "visualize") (Py.CallEntry "persist") Flow.trace
  /\ Forall (fun ev => Flow.precedes (Py.CallEntry "persist") ev Flow.trace
                       /\ Flow.precedes ev (Py.CallEntry "plot") Flow.trace)
            [Py.CallEntry "roll"; Py.CallEntry "chunk"; Py.CallEntry "apply_ufunc";
             Py.Operator Py.Lt; Py.CallEntry "where"].
Proof.
  split.
  { intros object lib N.
    pose proof (notebook_along_trace object lib) as H.
    unfold along_trace in H.
    destruct (fst (Py.run lib Py.notebook)) as [f|e].
    - exact (proj2 H).
    - destruct H as [_ [n [ev E]]]. rewrite (N n ev) in E. discriminate. }
  split; [vm_compute; reflexivity|].
  split; [reflexivity|].
  split; [vm_compute; reflexivity|].
  split; [vm_compute; reflexivity|].
  repeat split; try in_order Flow.step_eq_dec; try in_order Flow.event_eq_dec.
  - repeat constructor; in_order Flow.event_eq_dec.
  - repeat constructor; in_order Flow.event_eq_dec.
Qed.

Lemma toy_never_raises : never_raises Py.toy.
Proof. intros n ev. reflexivity. Qed.

Lemma flow_of_the_notebook_witness :
  never_raises Py.toy
  /\ Py.events (snd (Py.run Py.toy Py.notebook)) = Flow.trace.
Proof.
  split; [exact toy_never_raises|].
  exact (proj1 flow_of_the_notebook Py.thing Py.toy toy_never_raises).
Defined.

End Flow_of_the_run.

(** ** Both arrays lagged *)

Lemma dot_roll (u v : list R) :
  length u = length v -> Stat.dot (roll_row u) (roll_row v) = Stat.dot u v.
Proof.
  intros L.
  destruct (snoc_cases u) as [->|[l [a ->]]].
  - destruct v; [reflexivity | discriminate].
  - destruct (snoc_cases v) as [->|[m [b ->]]].
    + rewrite length_app in L. simpl in L. lia.
    + assert (Lm : length l = length m).
      { rewrite !length_app in L. simpl in L. lia. }
      rewrite !roll_row_snoc, dot_app, !dot_cons, dot_nil_l by exact Lm. ring.
Qed.

Lemma pearson_sums_roll (xs ys : list R) :
  length xs = length ys ->
  Stat.pearson_sums (roll_row xs) (roll_row ys) = Stat.pearson_sums xs ys.
Proof.
  intros L. unfold Stat.pearson_sums. cbv zeta.
  rewrite !deviations_roll, !dot_roll_self, dot_roll; [reflexivity|].
  now rewrite !length_deviations.
Qed.

Lemma spearman_roll (xs ys : list R) :
  length xs = length ys ->
  Stat.spearman (roll_row xs) (roll_row ys) = Stat.spearman xs ys.
Proof.
  intros L. unfold Stat.spearman. rewrite !ranks_roll.
  apply pearson_sums_roll. now rewrite !length_ranks.
Qed.

(** Over the reals: both arrays rolled by one place. *)
Lemma common_lag_over_reals
    (k : nat) (sh : list nat) (x y : ndarray R (S k)) :
  has_shape sh (S k) x -> has_shape sh (S k) y ->
  pearson_correlation_gufunc (as_float (roll_last x)) (as_float (roll_last y))
  = pearson_correlation_gufunc (as_float x) (as_float y)
  /\ spearman_correlation_gufunc (roll_last x) (roll_last y)
     = spearman_correlation_gufunc x y.
Proof.
  intros Hx Hy.
  assert (Hx' : has_shape sh (S k) (roll_last x)).
  { apply has_shape_along_last; [|exact Hx]. intros r. apply length_roll_row. }
  assert (Hy' : has_shape sh (S k) (roll_last y)).
  { apply has_shape_along_last; [|exact Hy]. intros r. apply length_roll_row. }
  pose proof (same_shape_rows_all2 k x y (has_shape_same_shape _ sh x y Hx Hy)) as Hr.
  split.
  - rewrite (pearson_of_numbers k sh _ _ Hx' Hy'), (pearson_of_numbers k sh x y Hx Hy).
    f_equal. unfold roll_last. rewrite zip_last_along_last.
    apply (zip_last_ext (fun r1 r2 => length r1 = length r2)); [|exact Hr].
    exact pearson_sums_roll.
  - rewrite (spearman_of_numbers k sh _ _ Hx' Hy'), (spearman_of_numbers k sh x y Hx Hy).
    f_equal. unfold roll_last. rewrite zip_last_along_last.
    apply (zip_last_ext (fun r1 r2 => length r1 = length r2)); [|exact Hr].
    exact spearman_roll.
Qed.

(** X15: the correlations do not look at where along the last axis
    the data starts.  For arrays of numbers of one shape,
    [roll(time=1)] applied to both [x] and [y] changes nothing in what
    [spearman_correlation_gufunc] returns, nor, over exact real
    arithmetic, in what [pearson_correlation_gufunc] returns.  In
    binary64 the sums are made in another order, and
    [pearson_correlation_gufunc] returns the same up to rounding only:
    0.5 on [1, 1, 2] and [1, 6, 6], and a number above 0.5 when both
    are rolled.  (The lag of the notebook is applied to [y] only.) *)
Theorem correlation_unchanged_by_a_common_lag :
  (forall (k : nat) (sh : list nat) (x y : ndarray R (S k)),
      has_shape sh (S k) x -> has_shape sh (S k) y ->
      spearman_correlation_gufunc (roll_last x) (roll_last y)
      = spearman_correlation_gufunc x y)
  /\ (forall (k : nat) (sh : list nat) (x y : ndarray R (S k)),
         has_shape sh (S k) x -> has_shape sh (S k) y ->
         pearson_correlation_gufunc (as_float (roll_last x)) (as_float (roll_last y))
         = pearson_correlation_gufunc (as_float x) (as_float y))
  /\ (exists p q : PrimFloat.float,
         B64.pearson_correlation_gufunc B64.lag_x B64.lag_y = Ok [p]
         /\ B64.pearson_correlation_gufunc (roll_last B64.lag_x) (roll_last B64.lag_y)
            = Ok [q]
         /\ PrimFloat.ltb p q = true).
Proof.
  split; [|split].
  - intros k sh x y Hx Hy. exact (proj2 (common_lag_over_reals k sh x y Hx Hy)).
  - intros k sh x y Hx Hy. exact (proj1 (common_lag_over_reals k sh x y Hx Hy)).
  - eexists. eexists. split; [reflexivity|]. split; reflexivity.
Qed.

Lemma correlation_unchanged_by_a_common_lag_witness :
  has_shape [2; 3]%nat 2 sample_x /\ has_shape [2; 3]%nat 2 sample_y /\
  spearman_correlation_gufunc (roll_last sample_x) (roll_last sample_y)
  = spearman_correlation_gufunc sample_x sample_y.
Proof.
  split; [exact sample_x_shape|]. split; [exact sample_y_shape|].
  exact (proj1 correlation_unchanged_by_a_common_lag 1%nat [2; 3]%nat sample_x sample_y
           sample_x_shape sample_y_shape).
Defined.

(** ** A last axis of length 1 *)

Lemma broadcast_row_against_one {A B C : Type} (op : A -> B -> C)
    (r1 : list (ndarray A 0)) (b : ndarray B 0) :
  Np.broadcast op 1 r1 [b] = Ok (map (fun a => op a b) r1).
Proof.
  rewrite (broadcast_S op 0 r1 [b]).
  destruct (Nat.eqb (length r1) (length [b])) eqn:E.
  - apply Nat.eqb_eq in E. destruct r1 as [|a [|a' r1]]; try discriminate E.
    reflexivity.
  - assert (H : sequence (map (fun xi => Np.broadcast op 0 xi b) r1)
                = Ok (map (fun a => op a b) r1)).
    { apply (sequence_map_Ok (fun xi => Np.broadcast op 0 xi b) (fun a => op a b)).
      intros a _. reflexivity. }
    destruct r1 as [|a [|a' r1]]; exact H.
Qed.

Lemma in_combine_Forall {A B : Type} (P : A -> Prop) (Q : B -> Prop)
    (l1 : list A) (l2 : list B) :
  Forall P l1 -> Forall Q l2 ->
  forall p, In p (combine l1 l2) -> P (fst p) /\ Q (snd p).
Proof.
  intros F1 F2 [a b] H. rewrite Forall_forall in F1, F2. split.
  - apply F1. exact (in_combine_l _ _ _ _ H).
  - apply F2. exact (in_combine_r _ _ _ _ H).
Qed.

(** An array against one with a last axis of length 1, the other axes
    being the same: no exception, the single element is repeated. *)
Lemma broadcast_against_one {A B C : Type} (op : A -> B -> C) (n : nat) :
  forall (sh : list nat) (k : nat) (x : ndarray A (S k)) (y : ndarray B (S k)),
    has_shape (sh ++ [n]) (S k) x -> has_shape (sh ++ [1%nat]) (S k) y ->
    Np.broadcast op (S k) x y = Ok (zip_along (against_one op) k x y).
Proof.
  induction sh as [|d sh IH]; intros k x y Hx Hy.
  - cbn [app] in Hx, Hy. apply has_shape_S in Hx, Hy.
    destruct Hx as [_ [Ex _]], Hy as [Ly _]. simpl in Ex. subst k.
    destruct y as [|b [|b' y]]; try discriminate Ly.
    exact (broadcast_row_against_one op x b).
  - cbn [app] in Hx, Hy. apply has_shape_S in Hx, Hy.
    destruct Hx as [Lx [Ex Fx]], Hy as [Ly [Ey Fy]].
    destruct k as [|k]; [rewrite length_app in Ex; simpl in Ex; lia|].
    rewrite (broadcast_same_length op (S k) x y (eq_trans Lx (eq_sym Ly))).
    rewrite zip_along_S. apply sequence_map_Ok.
    intros p Hp.
    destruct (in_combine_Forall _ _ x y Fx Fy p Hp) as [Ha Hb].
    apply IH; assumption.
Qed.

Lemma zip_along_along_last {A A' B B' C : Type} (f : list A' -> list B' -> list C)
    (g : list A -> list A') (h : list B -> list B') (k : nat) :
  forall (x : ndarray A (S k)) (y : ndarray B (S k)),
    zip_along f k (Np.along_last g k x) (Np.along_last h k y)
    = zip_along (fun r1 r2 => f (g r1) (h r2)) k x y.
Proof.
  induction k as [|k IH]; intros x y.
  - reflexivity.
  - rewrite !along_last_S, !zip_along_S, combine_map_map, map_map.
    apply map_ext. intros p. apply IH.
Qed.

Lemma has_shape_reduce_last {A B : Type} (f : list A -> B) (n : nat) :
  forall (sh : list nat) (k : nat) (x : ndarray A (S k)),
    has_shape (sh ++ [n]) (S k) x -> has_shape sh k (Np.reduce_last f k x).
Proof.
  induction sh as [|d sh IH]; intros k x Hx.
  - cbn [app] in Hx. apply has_shape_S in Hx. destruct Hx as [_ [E _]].
    simpl in E. subst k. exact I.
  - cbn [app] in Hx. apply has_shape_S in Hx. destruct Hx as [Lx [Ex Fx]].
    destruct k as [|k]; [rewrite length_app in Ex; simpl in Ex; lia|].
    rewrite reduce_last_S. apply has_shape_S. split; [|split].
    + rewrite length_map. exact Lx.
    + rewrite length_app in Ex. simpl in Ex. lia.
    + rewrite Forall_map. eapply Forall_impl; [|exact Fx]. intros a. apply IH.
Qed.

Lemma has_shape_zip_last_pair {A B C : Type} (f : list A -> list B -> C) (n m : nat) :
  forall (sh : list nat) (k : nat) (x : ndarray A (S k)) (y : ndarray B (S k)),
    has_shape (sh ++ [n]) (S k) x -> has_shape (sh ++ [m]) (S k) y ->
    has_shape sh k (zip_last f k x y).
Proof.
  induction sh as [|d sh IH]; intros k x y Hx Hy.
  - cbn [app] in Hx. apply has_shape_S in Hx. destruct Hx as [_ [E _]].
    simpl in E. subst k. exact I.
  - cbn [app] in Hx, Hy. apply has_shape_S in Hx, Hy.
    destruct Hx as [Lx [Ex Fx]], Hy as [Ly [Ey Fy]].
    destruct k as [|k]; [rewrite length_app in Ex; simpl in Ex; lia|].
    rewrite zip_last_S. apply has_shape_S. split; [|split].
    + apply length_map_combine; assumption.
    + rewrite length_app in Ex. simpl in Ex. lia.
    + apply (Forall_map_combine _ (has_shape (sh ++ [n]) (S k))
                                  (has_shape (sh ++ [m]) (S k)));
        [|assumption|assumption].
      intros a b Ha Hb. apply IH; assumption.
Qed.

(** Two arrays whose shapes differ in the last axis only: their rows,
    pair by pair, have the two lengths. *)
Lemma rows_of_shapes {A B : Type} (n m : nat) :
  forall (sh : list nat) (k : nat) (x : ndarray A (S k)) (y : ndarray B (S k)),
    has_shape (sh ++ [n]) (S k) x -> has_shape (sh ++ [m]) (S k) y ->
    rows_all2 (fun r1 r2 => length r1 = n /\ length r2 = m) k x y.
Proof.
  induction sh as [|d sh IH]; intros k x y Hx Hy.
  - cbn [app] in Hx, Hy. apply has_shape_S in Hx, Hy.
    destruct Hx as [Lx [Ex _]], Hy as [Ly _]. simpl in Ex. subst k.
    split; assumption.
  - cbn [app] in Hx, Hy. apply has_shape_S in Hx, Hy.
    destruct Hx as [Lx [Ex Fx]], Hy as [Ly [Ey Fy]].
    destruct k as [|k]; [rewrite length_app in Ex; simpl in Ex; lia|].
    rewrite rows_all2_S.
    assert (L : length x = length y) by exact (eq_trans Lx (eq_sym Ly)).
    clear Lx Ly Ex Ey. revert y L Fy.
    induction Fx as [|a x Ha Fx IHx]; intros [|b y] L Fy; try discriminate L.
    + constructor.
    + constructor.
      * apply IH; [exact Ha | exact (Forall_inv Fy)].
      * apply IHx; [now injection L | exact (Forall_inv_tail Fy)].
Qed.

(** The gufuncs on arrays of floats whose second argument has a last
    axis of length 1, one pair of rows at a time. *)
Lemma covariance_gufunc_against_one (n : nat) (sh : list nat) (k : nat)
    (x y : ndarray num (S k)) :
  has_shape (sh ++ [n]) (S k) x -> has_shape (sh ++ [1%nat]) (S k) y ->
  covariance_gufunc x y
  = Ok (zip_last (fun r1 r2 =>
                    Np.mean (against_one Float.mul (Row.deviations r1) (Row.deviations r2)))
          k x y).
Proof.
  intros Hx Hy. unfold covariance_gufunc, Np.subtract, Np.mean_last_keepdims.
  rewrite !broadcast_keepdims. cbn [bind]. unfold Np.multiply.
  rewrite (broadcast_against_one Float.mul n sh k).
  - cbn [bind]. unfold Np.mean_last.
    rewrite zip_along_along_last, reduce_last_zip_along. reflexivity.
  - apply has_shape_along_last; [|exact Hx]. intros r. apply length_map.
  - apply has_shape_along_last; [|exact Hy]. intros r. apply length_map.
Qed.

Lemma pearson_gufunc_against_one (n : nat) (sh : list nat) (k : nat)
    (x y : ndarray num (S k)) :
  has_shape (sh ++ [n]) (S k) x -> has_shape (sh ++ [1%nat]) (S k) y ->
  pearson_correlation_gufunc x y
  = Ok (zip_last (fun r1 r2 =>
                    Float.div
                      (Np.mean (against_one Float.mul (Row.deviations r1)
                                  (Row.deviations r2)))
                      (Row.divisor r1 r2))
          k x y).
Proof.
  intros Hx Hy. unfold pearson_correlation_gufunc.
  rewrite (covariance_gufunc_against_one n sh k x y Hx Hy). cbn [bind].
  unfold pearson_divisor, Np.multiply, Np.std_last.
  rewrite broadcast_same_shape.
  2:{ apply (has_shape_same_shape k sh); [exact (has_shape_reduce_last _ n sh k x Hx)
                                         |exact (has_shape_reduce_last _ 1 sh k y Hy)]. }
  cbn [bind]. rewrite nd_map2_reduce_last. unfold Np.divide.
  rewrite broadcast_same_shape by apply same_shape_zip_last.
  rewrite nd_map2_zip_last. reflexivity.
Qed.

Lemma std_single (b : R) : Np.std [Some b] = Some 0.
Proof.
  change [Some b] with (map Some [b]). rewrite std_some by discriminate.
  f_equal. apply stdev_zero_iff_constant.
  intros u v [<-|[]] [<-|[]]. reflexivity.
Qed.

Lemma divisor_single (r1 : list num) (b : R) :
  Float.div (Row.covariance r1 r1) (Row.divisor r1 [Some b]) = None
  /\ forall c : num, Float.div c (Row.divisor r1 [Some b]) = None.
Proof.
  assert (H : forall c : num, Float.div c (Row.divisor r1 [Some b]) = None).
  { intros c. unfold Row.divisor. rewrite std_single.
    destruct (Np.std r1) as [s|]; destruct c as [c|]; try reflexivity.
    cbn [Float.mul Float.lift2 Float.div].
    destruct (Req_dec_T (s * 0) 0) as [E|E]; [reflexivity | exfalso; apply E; ring]. }
  split; [apply H | exact H].
Qed.

(** X16: a second argument with a single element along its last axis
    is not rejected: it is stretched along the last axis of the first.
    For arrays of numbers of shapes [sh ++ [n]] and [sh ++ [1]],
    [pearson_correlation_gufunc] and [spearman_correlation_gufunc]
    raise nothing and return an array of shape [sh] that is nan
    everywhere, and [covariance_gufunc] raises nothing and returns an
    array of shape [sh]. *)
Theorem single_element_axis_gives_nan
    (n : nat) (sh : list nat) (k : nat) (x y : ndarray R (S k)) :
  has_shape (sh ++ [n]) (S k) x -> has_shape (sh ++ [1%nat]) (S k) y ->
  (exists p : ndarray num k,
      pearson_correlation_gufunc (as_float x) (as_float y) = Ok p
      /\ has_shape sh k p /\ nd_all (fun v => v = None) k p)
  /\ (exists s : ndarray num k,
         spearman_correlation_gufunc x y = Ok s
         /\ has_shape sh k s /\ nd_all (fun v => v = None) k s)
  /\ (exists c : ndarray num k,
         covariance_gufunc (as_float x) (as_float y) = Ok c
         /\ has_shape sh k c).
Proof.
  intros Hx Hy.
  assert (P : forall x' y' : ndarray R (S k),
             has_shape (sh ++ [n]) (S k) x' -> has_shape (sh ++ [1%nat]) (S k) y' ->
             exists p : ndarray num k,
               pearson_correlation_gufunc (as_float x') (as_float y') = Ok p
               /\ has_shape sh k p /\ nd_all (fun v => v = None) k p).
  { intros x' y' Hx' Hy'. eexists. split; [|split].
    - apply (pearson_gufunc_against_one n sh k); apply has_shape_nd_map; assumption.
    - apply (has_shape_zip_last_pair _ n 1); apply has_shape_nd_map; assumption.
    - unfold as_float. rewrite zip_last_nd_map.
      apply (nd_all_zip_last (fun r1 r2 => length r1 = n /\ length r2 = 1%nat));
        [|exact (rows_of_shapes n 1 sh k x' y' Hx' Hy')].
      intros r1 r2 [_ L2]. destruct r2 as [|b [|b' r2]]; try discriminate L2.
      apply divisor_single. }
  split; [exact (P x y Hx Hy)|]. split.
  - unfold spearman_correlation_gufunc, Bottleneck.rankdata. cbv zeta.
    apply P; (apply has_shape_along_last; [|assumption]);
      intros r; apply length_map.
  - eexists. split.
    + apply (covariance_gufunc_against_one n sh k); apply has_shape_nd_map; assumption.
    + apply (has_shape_zip_last_pair _ n 1); apply has_shape_nd_map; assumption.
Qed.

Lemma sample_single_shape : has_shape ([2] ++ [1])%nat 2 sample_single.
Proof. repeat (split || constructor). Qed.

Lemma single_element_axis_gives_nan_witness :
  has_shape ([2] ++ [3])%nat 2 sample_x /\
  has_shape ([2] ++ [1])%nat 2 sample_single /\
  exists s : ndarray num 1,
    spearman_correlation_gufunc sample_x sample_single = Ok s
    /\ has_shape [2%nat] 1 s /\ nd_all (fun v => v = None) 1 s.
Proof.
  split; [exact sample_x_shape_split|]. split; [exact sample_single_shape|].
  exact (proj1 (proj2 (single_element_axis_gives_nan 3 [2%nat] 1 sample_x sample_single
                         sample_x_shape_split sample_single_shape))).
Defined.
